(** * Payroll: a shallow embedding of the payslip generator

    The development follows [dynamic_payroll_pdf_generator.py] and
    [email_store.py].

    Conventions of the embedding.
    - A Python [str] is a list of Unicode code points ([char := N]); the
      function [u] turns an ASCII literal into such a list.
    - A Python [float] is an exact rational ([Q]); results of arithmetic are
      compared with [==].  Rounding of binary floating point is not
      modelled.
    - A value that may be [None] is an [option].
    - Code that may raise is written in the [result] monad.
    - The Unicode tables of the interpreter that are too large to write
      down ([str.lower], [str.isdigit], the class [\d]) are the fields of
      the class [Unicode]; [ascii_tables] is the instance used to run the
      code on ASCII input. *)

From Stdlib Require Import List NArith ZArith QArith Qabs Qround Bool Lia Lqa String Ascii.
Import ListNotations.

Local Open Scope N_scope.

(** ** Strings *)

Definition char := N.
Definition str := list char.

Definition u (s : string) : str :=
  List.map N_of_ascii (list_ascii_of_string s).

Definition chr_eqb (a b : char) : bool := N.eqb a b.

Fixpoint str_eqb (a b : str) : bool :=
  match a, b with
  | [], [] => true
  | x :: a', y :: b' => chr_eqb x y && str_eqb a' b'
  | _, _ => false
  end.

(** [s in [a; b; ...]] *)
Definition str_in (s : str) (l : list str) : bool :=
  existsb (str_eqb s) l.

(** Truth value of a string: non-empty. *)
Definition truthy (s : str) : bool :=
  match s with [] => false | _ => true end.

(** Code points for which [str.isspace] holds; [str.strip] and the regex
    class [\s] use the same set. *)
Definition isspace (c : char) : bool :=
  ((9 <=? c) && (c <=? 13)) || ((28 <=? c) && (c <=? 32))
  || (c =? 133) || (c =? 160) || (c =? 5760)
  || ((8192 <=? c) && (c <=? 8202))
  || (c =? 8232) || (c =? 8233) || (c =? 8239) || (c =? 8287)
  || (c =? 12288).

Fixpoint lstrip (s : str) : str :=
  match s with
  | c :: s' => if isspace c then lstrip s' else s
  | [] => []
  end.

Definition rstrip (s : str) : str := rev (lstrip (rev s)).

Definition strip (s : str) : str := rstrip (lstrip s).

(** [s.replace(old, new)] for a one-character [old]. *)
Definition replace_chr (old : char) (new : str) (s : str) : str :=
  flat_map (fun c => if chr_eqb c old then new else [c]) s.

Fixpoint starts_with (p s : str) : bool :=
  match p, s with
  | [], _ => true
  | x :: p', y :: s' => chr_eqb x y && starts_with p' s'
  | _ :: _, [] => false
  end.

(** [needle in hay] *)
Fixpoint contains (needle hay : str) : bool :=
  starts_with needle hay ||
  match hay with
  | [] => false
  | _ :: hay' => contains needle hay'
  end.

(** [sep.join(l)] *)
Fixpoint join (sep : str) (l : list str) : str :=
  match l with
  | [] => []
  | [x] => x
  | x :: l' => x ++ sep ++ join sep l'
  end.

Definition c_minus : char := 45.
Definition c_dot : char := 46.
Definition c_comma : char := 44.
Definition c_dollar : char := 36.
Definition c_percent : char := 37.
Definition c_space : char := 32.
Definition c_endash : char := 8211.
Definition c_emdash : char := 8212.

Definition is_09 (c : char) : bool := (48 <=? c) && (c <=? 57).
Definition is_az (c : char) : bool := (97 <=? c) && (c <=? 122).
Definition is_AZ (c : char) : bool := (65 <=? c) && (c <=? 90).

Definition is_ascii (c : char) : bool := c <? 128.

Definition ascii_lower (c : char) : char :=
  if is_AZ c then c + 32 else c.

(** The interpreter's Unicode tables. *)
Class Unicode := {
  (** [str.lower] *)
  lower : str -> str;
  (** [str.isdigit] on one character *)
  chr_isdigit : char -> bool;
  (** the regex class [\d] *)
  chr_isdecimal : char -> bool;
  (** lowering a string never empties it, nor fills an empty one *)
  lower_truthy : forall s, truthy (lower s) = truthy s;
  (** on ASCII text, lowering maps [A-Z] to [a-z] and nothing else *)
  lower_ascii : forall s, forallb is_ascii s = true -> lower s = List.map ascii_lower s
}.

(** The tables restricted to ASCII: exact on ASCII text. *)
Definition ascii_tables : Unicode := {|
  lower := List.map ascii_lower;
  chr_isdigit := is_09;
  chr_isdecimal := is_09;
  lower_truthy := fun s => match s with [] => eq_refl | _ :: _ => eq_refl end;
  lower_ascii := fun s _ => eq_refl
|}.

(** [s.isdigit()]: at least one character, all of them digits. *)
Definition isdigit `{Unicode} (s : str) : bool :=
  truthy s && forallb chr_isdigit s.

(** ** Exceptions *)

Inductive exn : Type :=
| NameError
| UnboundLocalError
| IndexError
| ValueError
| IntegrityError.

Inductive result (A : Type) : Type :=
| Ok (a : A)
| Raise (e : exn).
Arguments Ok {A} a.
Arguments Raise {A} e.

Definition bind {A B} (m : result A) (k : A -> result B) : result B :=
  match m with
  | Ok a => k a
  | Raise e => Raise e
  end.

Notation "'do' x <- m ; k" := (bind m (fun x => k))
  (at level 10, x name, m at level 100, k at level 200).

(** [l[i]] *)
Definition index {A} (l : list A) (i : nat) : result A :=
  match nth_error l i with
  | Some a => Ok a
  | None => Raise IndexError
  end.

(** ** Numeric Normalizer *)

Local Open Scope Q_scope.

Definition digit_val (c : char) : N := (c - 48)%N.

Definition digits_val (ds : str) : N :=
  fold_left (fun a c => (10 * a + digit_val c)%N) ds 0%N.

Fixpoint span_digits (s : str) : str * str :=
  match s with
  | c :: s' =>
      if is_09 c then let (d, r) := span_digits s' in (c :: d, r)
      else ([], s)
  | [] => ([], [])
  end.

Fixpoint pow10 (n : nat) : positive :=
  match n with
  | O => 1%positive
  | S n' => (10 * pow10 n')%positive
  end.

(** The unsigned part of a numeral: [digits], [digits.], [digits.digits]
    or [.digits]. *)
Definition unsigned_float (s : str) : result Q :=
  let (ip, r) := span_digits s in
  match r with
  | [] =>
      if truthy ip then Ok (Z.of_N (digits_val ip) # 1) else Raise ValueError
  | c :: r' =>
      if chr_eqb c c_dot then
        let (fp, r'') := span_digits r' in
        if truthy r'' then Raise ValueError
        else if truthy ip || truthy fp then
          Ok (Z.of_N (digits_val (ip ++ fp)) # pow10 (List.length fp))
        else Raise ValueError
      else Raise ValueError
  end.

(** [float(s)] on a string made of digits, dots and minus signs, which is
    all [safe_float] passes to it. *)
Definition py_float (s : str) : result Q :=
  match s with
  | c :: s' =>
      if chr_eqb c c_minus then
        do v <- unsigned_float s'; Ok (- v)
      else unsigned_float s
  | [] => Raise ValueError
  end.

Definition dashes : list str := [[c_minus]; [c_emdash]; [c_endash]].

(** The class [[0-9.\-]] *)
Definition is_numeric (c : char) : bool :=
  is_09 c || chr_eqb c c_dot || chr_eqb c c_minus.

(** [re.sub(r"[^0-9.\-]", '', s)] *)
Definition keep_numeric (s : str) : str := filter is_numeric s.

(** [safe_float(s, default)].  [default] is a float at some call sites and
    [None] at others and is returned as it is; [of_float] injects the
    parsed float into the type of the default. *)
Definition safe_float {A} (of_float : Q -> A) (s : option str) (default : A) : A :=
  match s with
  | None => default
  | Some s =>
      let s := strip s in
      if negb (truthy s) || str_in s dashes then default
      else
        let s := replace_chr c_dollar [] (replace_chr c_comma [] s) in
        let s := keep_numeric s in
        if negb (str_in s [[]; [c_dot]; [c_minus]]) then
          match py_float s with
          | Ok v => of_float v
          | Raise _ => default
          end
        else default
  end.

(** [safe_float(s, default=d)] with a float default, and
    [safe_float(s, default=None)]. *)
Definition safe_float_or (s : str) (d : Q) : Q := safe_float (fun v => v) (Some s) d.
Definition safe_float_none (s : str) : option Q := safe_float Some (Some s) None.

Definition parse_percent (s : option str) (default : Q) : Q :=
  match s with
  | None => default
  | Some s =>
      let s := strip s in
      if negb (truthy s) || str_in s dashes then default
      else
        let s := strip (replace_chr c_percent [] s) in
        match safe_float Some (Some s) None with
        | None => default
        | Some val => val / 100
        end
  end.


(** ** Header text and the period pattern *)

Local Open Scope nat_scope.

(** [re.sub(r"\s+", " ", s)] *)
Fixpoint collapse_spaces (s : str) : str :=
  match s with
  | [] => []
  | c :: s' =>
      if isspace c then
        match s' with
        | c' :: _ => if isspace c' then collapse_spaces s' else c_space :: collapse_spaces s'
        | [] => [c_space]
        end
      else c :: collapse_spaces s'
  end.

Definition _normalize_header_text (header : str) : str :=
  let header := replace_chr c_emdash [c_minus] (replace_chr c_endash [c_minus] header) in
  collapse_spaces (strip header).

(** One item of a regular expression: a character class under a greedy
    repetition [{rmin, rmax}] ([rmax = None]: unbounded). *)
Record atom : Type := {
  cls : char -> bool;
  rmin : nat;
  rmax : option nat
}.

Definition regex := list atom.

(** Length of the longest prefix of [s] in the class, up to the bound. *)
Fixpoint run_length (p : char -> bool) (cap : option nat) (s : str) : nat :=
  match s with
  | c :: s' =>
      if p c then
        match cap with
        | Some 0 => 0
        | Some (S k) => S (run_length p (Some k) s')
        | None => S (run_length p None s')
        end
      else 0
  | [] => 0
  end.

(** Try the counts [n], [n-1], ..., [lo] in this order. *)
Fixpoint backtrack {A} (f : nat -> option A) (lo n : nat) : option A :=
  if n <? lo then None
  else
    match f n with
    | Some r => Some r
    | None =>
        match n with
        | 0 => None
        | S n' => backtrack f lo n'
        end
    end.

(** Match [re] at the start of [s]; the text matched, longest repetitions
    first. *)
Fixpoint match_here (re : regex) (s : str) : option str :=
  match re with
  | [] => Some []
  | a :: re' =>
      backtrack
        (fun n =>
           match match_here re' (skipn n s) with
           | Some m => Some (firstn n s ++ m)
           | None => None
           end)
        (rmin a) (run_length (cls a) (rmax a) s)
  end.

(** [re.search]: the match at the leftmost position that has one. *)
Fixpoint re_search (re : regex) (s : str) : option str :=
  match match_here re s with
  | Some m => Some m
  | None =>
      match s with
      | [] => None
      | _ :: s' => re_search re s'
      end
  end.

(** [[A-Za-z]] under [re.IGNORECASE]: the 52 ASCII letters and the four
    code points U+0130, U+0131, U+017F and U+212A that case-fold to one. *)
Definition is_letter_ic (c : char) : bool :=
  (is_AZ c || is_az c
   || (c =? 304) || (c =? 305) || (c =? 383) || (c =? 8490))%N.

Definition is_dash (c : char) : bool :=
  chr_eqb c c_minus || chr_eqb c c_endash || chr_eqb c c_emdash.

(** [([A-Za-z]{3,}\.?)\s*\d{0,2}\s*[-–—]\s*\d{1,2}] *)
Definition PERIOD_HEADER_REGEX `{Unicode} : regex :=
  [ {| cls := is_letter_ic; rmin := 3; rmax := None |};
    {| cls := fun c => chr_eqb c c_dot; rmin := 0; rmax := Some 1 |};
    {| cls := isspace; rmin := 0; rmax := None |};
    {| cls := chr_isdecimal; rmin := 0; rmax := Some 2 |};
    {| cls := isspace; rmin := 0; rmax := None |};
    {| cls := is_dash; rmin := 1; rmax := Some 1 |};
    {| cls := isspace; rmin := 0; rmax := None |};
    {| cls := chr_isdecimal; rmin := 1; rmax := Some 2 |} ].

Definition _is_period_header `{Unicode} (header : str) : bool :=
  let cleaned := _normalize_header_text header in
  truthy cleaned &&
  match re_search PERIOD_HEADER_REGEX cleaned with
  | Some _ => true
  | None => false
  end.


(** ** Ledger entries *)

(** A detected pay period: the dict built by [detect_periods] (with a
    [display_name]) or by [load_employee_data] (without one). *)
Record period : Type := {
  period_name : str;
  period_display_name : option str;
  column_index : nat;
  hours_col : nat;
  amount_col : option nat
}.

Record period_data : Type := {
  hours : Q;
  amount : Q;
  raw : str
}.

(** The employee dict.  [net_amount_earned] is the one key that is not in
    the initial dict: [None] stands for the missing key and for the value
    [None]. *)
Record employee : Type := {
  seq : str;
  account_no : str;
  name : str;
  hourly_rate : Q;
  email : str;
  work_email : str;
  personal_email : str;
  periods : list (str * period_data);
  total_gross : Q;
  tax_rate : Q;
  withholding_rate : Q;
  withholding_amount : Q;
  p_tax_rate : Q;
  percent_tax : Q;
  adjustment_hours : Q;
  adjustment_amount : Q;
  total_tax_deductions : Q;
  net_amount_received : Q;
  net_amount_earned : option Q
}.

(** [employee[key] = v], one function per key that the code assigns. *)
Definition set_email (v : str) (e : employee) : employee :=
  {| seq := seq e;
     account_no := account_no e;
     name := name e;
     hourly_rate := hourly_rate e;
     email := v;
     work_email := work_email e;
     personal_email := personal_email e;
     periods := periods e;
     total_gross := total_gross e;
     tax_rate := tax_rate e;
     withholding_rate := withholding_rate e;
     withholding_amount := withholding_amount e;
     p_tax_rate := p_tax_rate e;
     percent_tax := percent_tax e;
     adjustment_hours := adjustment_hours e;
     adjustment_amount := adjustment_amount e;
     total_tax_deductions := total_tax_deductions e;
     net_amount_received := net_amount_received e;
     net_amount_earned := net_amount_earned e |}.

Definition set_work_email (v : str) (e : employee) : employee :=
  {| seq := seq e;
     account_no := account_no e;
     name := name e;
     hourly_rate := hourly_rate e;
     email := email e;
     work_email := v;
     personal_email := personal_email e;
     periods := periods e;
     total_gross := total_gross e;
     tax_rate := tax_rate e;
     withholding_rate := withholding_rate e;
     withholding_amount := withholding_amount e;
     p_tax_rate := p_tax_rate e;
     percent_tax := percent_tax e;
     adjustment_hours := adjustment_hours e;
     adjustment_amount := adjustment_amount e;
     total_tax_deductions := total_tax_deductions e;
     net_amount_received := net_amount_received e;
     net_amount_earned := net_amount_earned e |}.

Definition set_personal_email (v : str) (e : employee) : employee :=
  {| seq := seq e;
     account_no := account_no e;
     name := name e;
     hourly_rate := hourly_rate e;
     email := email e;
     work_email := work_email e;
     personal_email := v;
     periods := periods e;
     total_gross := total_gross e;
     tax_rate := tax_rate e;
     withholding_rate := withholding_rate e;
     withholding_amount := withholding_amount e;
     p_tax_rate := p_tax_rate e;
     percent_tax := percent_tax e;
     adjustment_hours := adjustment_hours e;
     adjustment_amount := adjustment_amount e;
     total_tax_deductions := total_tax_deductions e;
     net_amount_received := net_amount_received e;
     net_amount_earned := net_amount_earned e |}.

Definition set_periods (v : list (str * period_data)) (e : employee) : employee :=
  {| seq := seq e;
     account_no := account_no e;
     name := name e;
     hourly_rate := hourly_rate e;
     email := email e;
     work_email := work_email e;
     personal_email := personal_email e;
     periods := v;
     total_gross := total_gross e;
     tax_rate := tax_rate e;
     withholding_rate := withholding_rate e;
     withholding_amount := withholding_amount e;
     p_tax_rate := p_tax_rate e;
     percent_tax := percent_tax e;
     adjustment_hours := adjustment_hours e;
     adjustment_amount := adjustment_amount e;
     total_tax_deductions := total_tax_deductions e;
     net_amount_received := net_amount_received e;
     net_amount_earned := net_amount_earned e |}.

Definition set_total_gross (v : Q) (e : employee) : employee :=
  {| seq := seq e;
     account_no := account_no e;
     name := name e;
     hourly_rate := hourly_rate e;
     email := email e;
     work_email := work_email e;
     personal_email := personal_email e;
     periods := periods e;
     total_gross := v;
     tax_rate := tax_rate e;
     withholding_rate := withholding_rate e;
     withholding_amount := withholding_amount e;
     p_tax_rate := p_tax_rate e;
     percent_tax := percent_tax e;
     adjustment_hours := adjustment_hours e;
     adjustment_amount := adjustment_amount e;
     total_tax_deductions := total_tax_deductions e;
     net_amount_received := net_amount_received e;
     net_amount_earned := net_amount_earned e |}.

Definition set_tax_rate (v : Q) (e : employee) : employee :=
  {| seq := seq e;
     account_no := account_no e;
     name := name e;
     hourly_rate := hourly_rate e;
     email := email e;
     work_email := work_email e;
     personal_email := personal_email e;
     periods := periods e;
     total_gross := total_gross e;
     tax_rate := v;
     withholding_rate := withholding_rate e;
     withholding_amount := withholding_amount e;
     p_tax_rate := p_tax_rate e;
     percent_tax := percent_tax e;
     adjustment_hours := adjustment_hours e;
     adjustment_amount := adjustment_amount e;
     total_tax_deductions := total_tax_deductions e;
     net_amount_received := net_amount_received e;
     net_amount_earned := net_amount_earned e |}.

Definition set_withholding_rate (v : Q) (e : employee) : employee :=
  {| seq := seq e;
     account_no := account_no e;
     name := name e;
     hourly_rate := hourly_rate e;
     email := email e;
     work_email := work_email e;
     personal_email := personal_email e;
     periods := periods e;
     total_gross := total_gross e;
     tax_rate := tax_rate e;
     withholding_rate := v;
     withholding_amount := withholding_amount e;
     p_tax_rate := p_tax_rate e;
     percent_tax := percent_tax e;
     adjustment_hours := adjustment_hours e;
     adjustment_amount := adjustment_amount e;
     total_tax_deductions := total_tax_deductions e;
     net_amount_received := net_amount_received e;
     net_amount_earned := net_amount_earned e |}.

Definition set_withholding_amount (v : Q) (e : employee) : employee :=
  {| seq := seq e;
     account_no := account_no e;
     name := name e;
     hourly_rate := hourly_rate e;
     email := email e;
     work_email := work_email e;
     personal_email := personal_email e;
     periods := periods e;
     total_gross := total_gross e;
     tax_rate := tax_rate e;
     withholding_rate := withholding_rate e;
     withholding_amount := v;
     p_tax_rate := p_tax_rate e;
     percent_tax := percent_tax e;
     adjustment_hours := adjustment_hours e;
     adjustment_amount := adjustment_amount e;
     total_tax_deductions := total_tax_deductions e;
     net_amount_received := net_amount_received e;
     net_amount_earned := net_amount_earned e |}.

Definition set_p_tax_rate (v : Q) (e : employee) : employee :=
  {| seq := seq e;
     account_no := account_no e;
     name := name e;
     hourly_rate := hourly_rate e;
     email := email e;
     work_email := work_email e;
     personal_email := personal_email e;
     periods := periods e;
     total_gross := total_gross e;
     tax_rate := tax_rate e;
     withholding_rate := withholding_rate e;
     withholding_amount := withholding_amount e;
     p_tax_rate := v;
     percent_tax := percent_tax e;
     adjustment_hours := adjustment_hours e;
     adjustment_amount := adjustment_amount e;
     total_tax_deductions := total_tax_deductions e;
     net_amount_received := net_amount_received e;
     net_amount_earned := net_amount_earned e |}.

Definition set_percent_tax (v : Q) (e : employee) : employee :=
  {| seq := seq e;
     account_no := account_no e;
     name := name e;
     hourly_rate := hourly_rate e;
     email := email e;
     work_email := work_email e;
     personal_email := personal_email e;
     periods := periods e;
     total_gross := total_gross e;
     tax_rate := tax_rate e;
     withholding_rate := withholding_rate e;
     withholding_amount := withholding_amount e;
     p_tax_rate := p_tax_rate e;
     percent_tax := v;
     adjustment_hours := adjustment_hours e;
     adjustment_amount := adjustment_amount e;
     total_tax_deductions := total_tax_deductions e;
     net_amount_received := net_amount_received e;
     net_amount_earned := net_amount_earned e |}.

Definition set_adjustment_hours (v : Q) (e : employee) : employee :=
  {| seq := seq e;
     account_no := account_no e;
     name := name e;
     hourly_rate := hourly_rate e;
     email := email e;
     work_email := work_email e;
     personal_email := personal_email e;
     periods := periods e;
     total_gross := total_gross e;
     tax_rate := tax_rate e;
     withholding_rate := withholding_rate e;
     withholding_amount := withholding_amount e;
     p_tax_rate := p_tax_rate e;
     percent_tax := percent_tax e;
     adjustment_hours := v;
     adjustment_amount := adjustment_amount e;
     total_tax_deductions := total_tax_deductions e;
     net_amount_received := net_amount_received e;
     net_amount_earned := net_amount_earned e |}.

Definition set_adjustment_amount (v : Q) (e : employee) : employee :=
  {| seq := seq e;
     account_no := account_no e;
     name := name e;
     hourly_rate := hourly_rate e;
     email := email e;
     work_email := work_email e;
     personal_email := personal_email e;
     periods := periods e;
     total_gross := total_gross e;
     tax_rate := tax_rate e;
     withholding_rate := withholding_rate e;
     withholding_amount := withholding_amount e;
     p_tax_rate := p_tax_rate e;
     percent_tax := percent_tax e;
     adjustment_hours := adjustment_hours e;
     adjustment_amount := v;
     total_tax_deductions := total_tax_deductions e;
     net_amount_received := net_amount_received e;
     net_amount_earned := net_amount_earned e |}.

Definition set_total_tax_deductions (v : Q) (e : employee) : employee :=
  {| seq := seq e;
     account_no := account_no e;
     name := name e;
     hourly_rate := hourly_rate e;
     email := email e;
     work_email := work_email e;
     personal_email := personal_email e;
     periods := periods e;
     total_gross := total_gross e;
     tax_rate := tax_rate e;
     withholding_rate := withholding_rate e;
     withholding_amount := withholding_amount e;
     p_tax_rate := p_tax_rate e;
     percent_tax := percent_tax e;
     adjustment_hours := adjustment_hours e;
     adjustment_amount := adjustment_amount e;
     total_tax_deductions := v;
     net_amount_received := net_amount_received e;
     net_amount_earned := net_amount_earned e |}.

Definition set_net_amount_received (v : Q) (e : employee) : employee :=
  {| seq := seq e;
     account_no := account_no e;
     name := name e;
     hourly_rate := hourly_rate e;
     email := email e;
     work_email := work_email e;
     personal_email := personal_email e;
     periods := periods e;
     total_gross := total_gross e;
     tax_rate := tax_rate e;
     withholding_rate := withholding_rate e;
     withholding_amount := withholding_amount e;
     p_tax_rate := p_tax_rate e;
     percent_tax := percent_tax e;
     adjustment_hours := adjustment_hours e;
     adjustment_amount := adjustment_amount e;
     total_tax_deductions := total_tax_deductions e;
     net_amount_received := v;
     net_amount_earned := net_amount_earned e |}.

Definition set_net_amount_earned (v : option Q) (e : employee) : employee :=
  {| seq := seq e;
     account_no := account_no e;
     name := name e;
     hourly_rate := hourly_rate e;
     email := email e;
     work_email := work_email e;
     personal_email := personal_email e;
     periods := periods e;
     total_gross := total_gross e;
     tax_rate := tax_rate e;
     withholding_rate := withholding_rate e;
     withholding_amount := withholding_amount e;
     p_tax_rate := p_tax_rate e;
     percent_tax := percent_tax e;
     adjustment_hours := adjustment_hours e;
     adjustment_amount := adjustment_amount e;
     total_tax_deductions := total_tax_deductions e;
     net_amount_received := net_amount_received e;
     net_amount_earned := v |}.

(** [d[k] = v] on a dict kept in insertion order. *)
Fixpoint dict_set {V} (k : str) (v : V) (d : list (str * V)) : list (str * V) :=
  match d with
  | [] => [(k, v)]
  | (k', v') :: d' =>
      if str_eqb k' k then (k, v) :: d' else (k', v') :: dict_set k v d'
  end.

(** [d.get(k)] *)
Fixpoint dict_get {V} (k : str) (d : list (str * V)) : option V :=
  match d with
  | [] => None
  | (k', v) :: d' => if str_eqb k' k then Some v else dict_get k d'
  end.

(** Truth value of a float. *)
Definition nonzero (x : Q) : bool := negb (Qeq_bool x 0).

(** ** Address book ([email_store.py]) *)

Definition opt_truthy (o : option str) : bool :=
  match o with
  | Some s => truthy s
  | None => false
  end.

Definition _clean (value : option str) : option str :=
  match value with
  | None => None
  | Some value =>
      let value := strip value in
      if truthy value then Some value else None
  end.

Definition _clean_lower `{Unicode} (value : option str) : option str :=
  let val := _clean value in
  match val with
  | Some v => if truthy v then Some (lower v) else None
  | None => None
  end.

Definition _clean_email `{Unicode} (value : option str) : option str :=
  let val := _clean value in
  match val with
  | Some v => if truthy v then Some (lower v) else None
  | None => None
  end.

(** A row of the table [email_addresses].  The columns [seq], [account_no]
    and [name_key] are UNIQUE, so a query [WHERE column = ? ORDER BY
    last_updated DESC LIMIT 1] ranges over at most one row and the
    timestamp column is left out. *)
Record db_row : Type := {
  db_id : nat;
  db_seq : option str;
  db_account_no : option str;
  db_name_key : option str;
  db_display_name : option str;
  db_email : str
}.

Record EmailStore : Type := {
  table : list db_row;
  (** the largest rowid handed out so far (AUTOINCREMENT) *)
  last_rowid : nat
}.

(** [column = ?]: NULL equals nothing. *)
Definition col_is (col : db_row -> option str) (v : str) (r : db_row) : bool :=
  match col r with
  | Some x => str_eqb x v
  | None => false
  end.

(** [SELECT email ... WHERE column = ?] under [if value:], then
    [fetchone] and [row[0]]. *)
Definition select_email (col : db_row -> option str) (v : option str)
  (t : list db_row) : option str :=
  match v with
  | Some x => if truthy x then option_map db_email (find (col_is col x) t) else None
  | None => None
  end.

Definition lookup `{Unicode} (st : EmailStore)
  (seq account_no name : option str) : option str :=
  let seq := _clean seq in
  let account_no := _clean account_no in
  let name_key := _clean_lower name in
  match select_email db_seq seq (table st) with
  | Some e => Some e
  | None =>
      match select_email db_account_no account_no (table st) with
      | Some e => Some e
      | None => select_email db_name_key name_key (table st)
      end
  end.

Definition apply_to_employees `{Unicode} (st : EmailStore)
  (employees : list employee) : list employee :=
  List.map
    (fun emp =>
       if opt_truthy (_clean_email (Some (email emp))) then emp
       else
         match lookup st (Some (seq emp)) (Some (account_no emp)) (Some (name emp)) with
         | Some e => if truthy e then set_email e emp else emp
         | None => emp
         end)
    employees.

Definition select_id (col : db_row -> option str) (v : option str)
  (t : list db_row) : option nat :=
  match v with
  | Some x => if truthy x then option_map db_id (find (col_is col x) t) else None
  | None => None
  end.

Definition coalesce (new old : option str) : option str :=
  match new with
  | Some _ => new
  | None => old
  end.

(** Two rows hold the same non-NULL value in a UNIQUE column. *)
Definition clash (col : db_row -> option str) (r r' : db_row) : bool :=
  match col r with
  | Some v => col_is col v r'
  | None => false
  end.

Definition unique_ok (t : list db_row) (r : db_row) : bool :=
  forallb
    (fun r' =>
       (db_id r' =? db_id r)
       || negb (clash db_seq r r' || clash db_account_no r r' || clash db_name_key r r'))
    t.

(** [UPDATE ... WHERE id = ?] *)
Definition update_row (id : nat) (f : db_row -> db_row) (t : list db_row) : list db_row :=
  List.map (fun r => if db_id r =? id then f r else r) t.

(** [_upsert]; a UNIQUE violation in the UPDATE raises before the commit,
    so nothing of the call is kept. *)
Definition _upsert (seq account_no name_key display_name : option str)
  (email : str) (st : EmailStore) : result EmailStore :=
  if negb (truthy email) then Ok st
  else
    let record_id :=
      match select_id db_seq seq (table st) with
      | Some i => Some i
      | None =>
          match select_id db_account_no account_no (table st) with
          | Some i => Some i
          | None => select_id db_name_key name_key (table st)
          end
      end in
    let inserted :=
      match record_id with
      | Some i => (st, i)
      | None =>
          let i := S (last_rowid st) in
          let r :=
            if opt_truthy seq || opt_truthy account_no || opt_truthy name_key then
              {| db_id := i; db_seq := seq; db_account_no := account_no;
                 db_name_key := name_key; db_display_name := display_name;
                 db_email := email |}
            else
              {| db_id := i; db_seq := None; db_account_no := None;
                 db_name_key := None;
                 db_display_name :=
                   Some (if opt_truthy display_name
                         then match display_name with Some d => d | None => email end
                         else email);
                 db_email := email |} in
          ({| table := table st ++ [r]; last_rowid := i |}, i)
      end in
    let (st1, id) := inserted in
    let upd r :=
      {| db_id := db_id r;
         db_seq := coalesce seq (db_seq r);
         db_account_no := coalesce account_no (db_account_no r);
         db_name_key := coalesce name_key (db_name_key r);
         db_display_name := coalesce display_name (db_display_name r);
         db_email := email |} in
    let t2 := update_row id upd (table st1) in
    if forallb (fun r => negb (db_id r =? id) || unique_ok t2 r) t2
    then Ok {| table := t2; last_rowid := last_rowid st1 |}
    else Raise IntegrityError.

Definition remember_from_employee `{Unicode} (st : EmailStore)
  (employee : employee) (email : option str) : result EmailStore :=
  let clean_email := _clean_email email in
  match clean_email with
  | Some ce =>
      if truthy ce then
        let seq := _clean (Some (seq employee)) in
        let account_no := _clean (Some (account_no employee)) in
        let name_key := _clean_lower (Some (name employee)) in
        let display_name := _clean (Some (name employee)) in
        _upsert seq account_no name_key display_name ce st
      else Ok st
  | None => Ok st
  end.

(** [to_dict]: the rows whose [seq] is neither NULL nor empty, as a dict
    from [seq] to [email].  The SELECT has no ORDER BY; the rows are taken
    in the order of the table, and the dict is only read key by key. *)
Definition to_dict_row (data : list (str * str)) (r : db_row) : list (str * str) :=
  match db_seq r with
  | Some sq =>
      if truthy sq
      then if truthy sq && truthy (db_email r) then dict_set sq (db_email r) data else data
      else data
  | None => data
  end.

Definition to_dict (st : EmailStore) : list (str * str) :=
  fold_left to_dict_row (table st) [].

(** A row of the legacy file [emails.csv] as [csv.DictReader] delivers
    it; a column that the file or the row lacks reads [None]. *)
Record csv_row : Type := {
  csv_seq : option str;
  csv_account_no : option str;
  csv_name : option str;
  csv_email : option str
}.

(** The body of the loop of [import_from_csv]. *)
Definition import_row `{Unicode} (row : csv_row) (st : EmailStore) : result EmailStore :=
  let email := _clean_email (csv_email row) in
  match email with
  | Some ce =>
      if truthy ce then
        let seq := _clean (csv_seq row) in
        let account_no := _clean (csv_account_no row) in
        let name := _clean_lower (csv_name row) in
        let display_name := _clean (csv_name row) in
        _upsert seq account_no name display_name ce st
      else Ok st
  | None => Ok st
  end.

Fixpoint import_rows `{Unicode} (rows : list csv_row) (st : EmailStore) : result EmailStore :=
  match rows with
  | [] => Ok st
  | row :: rows' =>
      do st' <- import_row row st;
      import_rows rows' st'
  end.

(** [import_from_csv]; [None] when the file does not exist. *)
Definition import_from_csv `{Unicode} (file : option (list csv_row)) (st : EmailStore)
  : result EmailStore :=
  match file with
  | None => Ok st
  | Some rows => import_rows rows st
  end.

(** ** The processor and its input *)

Record processor : Type := {
  self_periods : list period;
  self_employees : list employee;
  self_merged_headers : option (list str);
  (** [None]: the store could not be opened *)
  self_email_store : option EmailStore
}.

Inductive encoding : Type := utf_8 | latin_1 | cp1252 | iso_8859_1.

Definition encodings_to_try : list encoding := [utf_8; latin_1; cp1252; iso_8859_1].

(** The file as [csv.reader] delivers it under each encoding; [None] when
    decoding raises [UnicodeDecodeError]. *)
Definition csv_file := encoding -> option (list (list str)).

Section Loader.
Context `{Unicode}.

(** *** Header row *)

(** [' '.join([c.lower() for c in row if c])] *)
Definition joined (row : list str) : str :=
  join [c_space] (List.map lower (filter truthy row)).

(** First pass: the first row whose text contains ['per hour']. *)
Fixpoint find_per_hour (rows : list (list str)) (i : nat) : option nat :=
  match rows with
  | [] => None
  | row :: rows' =>
      if contains (u "per hour") (joined row) then Some i
      else find_per_hour rows' (S i)
  end.

(** [re.match(period_pattern, s)]: the name [period_pattern] is bound
    nowhere in the module, so evaluating the call raises. *)
Definition re_match_period_pattern (s : str) : result bool := Raise NameError.

(** [sum(1 for c in row if c and re.match(period_pattern, c.strip()))] *)
Fixpoint period_matches (row : list str) : result nat :=
  match row with
  | [] => Ok 0
  | c :: row' =>
      do m <- (if truthy c then re_match_period_pattern (strip c) else Ok false);
      do n <- period_matches row';
      Ok (if m then S n else n)
  end.

(** Second pass of [detect_periods]. *)
Fixpoint fallback_header_row (rows : list (list str)) (i : nat) : result (option nat) :=
  match rows with
  | [] => Ok None
  | row :: rows' =>
      do pm <- period_matches row;
      if (2 <=? pm) && (4 <=? List.length row) then Ok (Some i)
      else fallback_header_row rows' (S i)
  end.

(** Merged header of column [i]: the cell above, a space, the cell of the
    header row; an access [i < len(r) and r[i]] is [nth_error]. *)
Definition header_part (r : option (list str)) (i : nat) : list str :=
  match r with
  | Some r =>
      match nth_error r i with
      | Some c => if truthy c then [strip c] else []
      | None => []
      end
  | None => []
  end.

Definition merge_headers (rows : list (list str)) (header_row_idx : nat) : list str :=
  let prev_row :=
    if 0 <? header_row_idx then nth_error rows (header_row_idx - 1) else None in
  let cur_row := nth header_row_idx rows [] in
  let max_cols :=
    Nat.max (match prev_row with Some p => List.length p | None => 0 end)
            (List.length cur_row) in
  List.map
    (fun i =>
       let parts := header_part prev_row i ++ header_part (Some cur_row) i in
       _normalize_header_text (join [c_space] parts))
    (List.seq 0 max_cols).

Definition enumerate {A} (l : list A) : list (nat * A) :=
  combine (List.seq 0 (List.length l)) l.

(** *** detect_periods *)

Definition detected_period (ih : nat * str) : list period :=
  let (i, header) := ih in
  if _is_period_header header then
    let short_name :=
      match re_search PERIOD_HEADER_REGEX header with
      | Some m => _normalize_header_text m
      | None => _normalize_header_text header
      end in
    [ {| period_name := short_name;
         period_display_name := Some (_normalize_header_text header);
         column_index := i;
         hours_col := i;
         amount_col := None |} ]
  else [].

Definition set_self_periods (ps : list period) (st : processor) : processor :=
  {| self_periods := ps;
     self_employees := self_employees st;
     self_merged_headers := self_merged_headers st;
     self_email_store := self_email_store st |}.

Definition set_self_employees (es : list employee) (st : processor) : processor :=
  {| self_periods := self_periods st;
     self_employees := es;
     self_merged_headers := self_merged_headers st;
     self_email_store := self_email_store st |}.

Definition set_self_merged_headers (hs : list str) (st : processor) : processor :=
  {| self_periods := self_periods st;
     self_employees := self_employees st;
     self_merged_headers := Some hs;
     self_email_store := self_email_store st |}.

Definition set_self_email_store (s : option EmailStore) (st : processor) : processor :=
  {| self_periods := self_periods st;
     self_employees := self_employees st;
     self_merged_headers := self_merged_headers st;
     self_email_store := s |}.

(** The loop over the encodings.  The result is what the call returns or
    raises, with the processor as the call leaves it. *)
Fixpoint detect_periods_loop (encs : list encoding) (file : csv_file)
  (st : processor) : result bool * processor :=
  match encs with
  | [] => (Ok false, st)
  | enc :: encs' =>
      match file enc with
      | None => detect_periods_loop encs' file st
      | Some rows =>
          let header_row_idx :=
            match find_per_hour rows 0 with
            | Some i => Ok (Some i)
            | None => fallback_header_row rows 0
            end in
          match header_row_idx with
          | Raise e => (Raise e, st)
          | Ok None => detect_periods_loop encs' file st
          | Ok (Some h) =>
              let headers := merge_headers rows h in
              let st := set_self_merged_headers headers st in
              let st :=
                set_self_periods
                  (self_periods st ++ flat_map detected_period (enumerate headers)) st in
              if match self_periods st with [] => false | _ => true end
              then (Ok true, st)
              else detect_periods_loop encs' file st
          end
      end
  end.

Definition detect_periods (file : csv_file) (st : processor) : result bool * processor :=
  detect_periods_loop encodings_to_try file (set_self_periods [] st).

(** *** Columns *)

(** [{key(h): i for i, h in enumerate(headers)}] *)
Definition header_map (key : str -> str) (headers : list str) : list (str * nat) :=
  fold_left (fun d ih => dict_set (key (snd ih)) (fst ih) d) (enumerate headers) [].

Definition _norm (s : str) : str :=
  filter (fun c => is_az c || is_09 c) (lower s).

(** [find_col]: the index stored under the first key of
    [header_map_norm] that contains every normalised part. *)
Definition find_col (header_map_norm : list (str * nat)) (parts : list str) : option nat :=
  let parts_n := List.map _norm parts in
  option_map snd
    (find (fun hi => forallb (fun p => contains p (fst hi)) parts_n) header_map_norm).

(** [next((idx for h, idx in d.items() if test(h)), None)] *)
Definition first_idx (test : str -> bool) (d : list (str * nat)) : option nat :=
  option_map snd (find (fun hi => test (fst hi)) d).

(** [a or b] on column indices: [None] and [0] are false. *)
Definition idx_or (a b : option nat) : option nat :=
  match a with
  | Some (S _) => a
  | _ => b
  end.

(** *** One data row *)

(** [if idx is not None and idx < len(row) and row[idx].strip(): s = f(row[idx], s)] *)
Definition when_value {S} (row : list str) (idx : option nat)
  (f : str -> S -> S) (s : S) : result S :=
  match idx with
  | Some i =>
      if i <? List.length row then
        do c <- index row i;
        if truthy (strip c) then Ok (f c s) else Ok s
      else Ok s
  | None => Ok s
  end.

Definition remember_employee_email (store : option EmailStore)
  (emp : employee) (email : str) : option EmailStore :=
  match store with
  | None => None
  | Some st =>
      match remember_from_employee st emp (Some email) with
      | Ok st' => Some st'
      | Raise _ => Some st
      end
  end.

(** [abs(diff) > 1e-6] *)
Definition exceeds_epsilon (diff : Q) : bool :=
  negb (Qle_bool (Qabs diff) (1 # 1000000)).

(** [not x] for a float or [None]. *)
Definition falsy_opt (x : option Q) : bool :=
  match x with
  | Some v => negb (nonzero v)
  | None => true
  end.

(** The statements of lines 395-480, which sit inside the loop over the
    periods, under [if col_idx < len(row)]. *)
Definition summary_block (hm : list (str * nat)) (row : list str)
  (e : employee) (store : option EmailStore)
  : result (employee * option EmailStore) :=
  let idx_amt_earned := find_col hm [u "amount"; u "earned"] in
  let idx_net_amt := find_col hm [u "net"; u "amount"; u "earned"] in
  let idx_tax_rate := find_col hm [u "w"; u "tax"; u "rate"] in
  let idx_wh_tax := find_col hm [u "holding"; u "tax"] in
  let idx_p_rate := find_col hm [u "p"; u "tax"; u "rate"] in
  let idx_percent := find_col hm [u "percent"; u "tax"] in
  let idx_total_ded := find_col hm [u "total"; u "tax"; u "deduct"] in
  let idx_net_recv := find_col hm [u "net"; u "amount"; u "received"] in
  let idx_adj_hours := find_col hm [u "adjust"; u "hour"] in
  let idx_adj_amount :=
    idx_or (find_col hm [u "adjust"; u "amount"])
      (idx_or (find_col hm [u "adjust"; u "add"; u "tax"])
         (idx_or (find_col hm [u "addl"; u "tax"])
            (find_col hm [u "adjustment"; u "tax"]))) in
  do e <- when_value row idx_adj_hours
            (fun c e => set_adjustment_hours (safe_float_or c 0) e) e;
  do adj_amount_from_csv <- when_value row idx_adj_amount
            (fun c _ => Some (safe_float_or c 0)) None;
  do e <- when_value row idx_amt_earned
            (fun c e => set_total_gross (safe_float_or c (total_gross e)) e) e;
  do en <- when_value row idx_net_amt
            (fun c en =>
               let net_amt_from_csv := safe_float_none c in
               (set_net_amount_earned net_amt_from_csv (fst en), net_amt_from_csv))
            (e, None);
  let e := fst en in
  let net_amt_from_csv := snd en in
  let calc_adj := (adjustment_hours e * hourly_rate e)%Q in
  let e :=
    match adj_amount_from_csv with
    | Some a => set_adjustment_amount a e
    | None =>
        if nonzero calc_adj then set_adjustment_amount calc_adj e
        else set_adjustment_amount 0 e
    end in
  let e :=
    if falsy_opt adj_amount_from_csv then
      match net_amt_from_csv with
      | Some net =>
          let gross := total_gross e in
          let diff := (gross - net)%Q in
          if exceeds_epsilon diff then set_adjustment_amount diff e else e
      | None => e
      end
    else e in
  do e <- when_value row idx_tax_rate
            (fun c e => set_tax_rate (parse_percent (Some c) (tax_rate e)) e) e;
  do e <- when_value row idx_wh_tax
            (fun c e =>
               let raw_wh := strip c in
               if contains [c_percent] raw_wh
               then set_withholding_rate (parse_percent (Some raw_wh) (withholding_rate e)) e
               else set_withholding_amount (safe_float_or raw_wh (withholding_amount e)) e)
            e;
  do e <- when_value row idx_p_rate
            (fun c e => set_p_tax_rate (parse_percent (Some c) (p_tax_rate e)) e) e;
  do e <- when_value row idx_percent
            (fun c e => set_percent_tax (safe_float_or c (percent_tax e)) e) e;
  do e <- when_value row idx_total_ded
            (fun c e => set_total_tax_deductions (safe_float_or c (total_tax_deductions e)) e) e;
  do e <- when_value row idx_net_recv
            (fun c e => set_net_amount_received (safe_float_or c (net_amount_received e)) e) e;
  let primary_email := find truthy [email e; work_email e; personal_email e] in
  match primary_email with
  | Some pe =>
      let e := set_email pe e in
      Ok (e, remember_employee_email store e pe)
  | None => Ok (e, store)
  end.

(** Body of [for period in self.periods]. *)
Definition period_step (headers : list str) (hm : list (str * nat))
  (row : list str) (p : period) (es : employee * option EmailStore)
  : result (employee * option EmailStore) :=
  let (e, store) := es in
  let col_idx := column_index p in
  if col_idx <? List.length row then
    do c <- index row col_idx;
    let raw_val := strip c in
    let hours := safe_float_or raw_val 0 in
    let rate := hourly_rate e in
    let amount := if nonzero rate then (hours * rate)%Q else 0%Q in
    let period_data := {| hours := hours; amount := amount; raw := raw_val |} in
    let canonical_name :=
      if truthy (period_name p) then period_name p
      else _normalize_header_text (nth col_idx headers []) in
    let e := set_periods (dict_set canonical_name period_data (periods e)) e in
    let e :=
      match period_display_name p with
      | Some display_name =>
          if truthy display_name && negb (str_eqb display_name canonical_name)
          then set_periods (dict_set display_name period_data (periods e)) e
          else e
      | None => e
      end in
    let e := set_total_gross (total_gross e + amount)%Q e in
    summary_block hm row e store
  else Ok (e, store).

Fixpoint for_periods (headers : list str) (hm : list (str * nat))
  (row : list str) (ps : list period) (es : employee * option EmailStore)
  : result (employee * option EmailStore) :=
  match ps with
  | [] => Ok es
  | p :: ps' =>
      do es' <- period_step headers hm row p es;
      for_periods headers hm row ps' es'
  end.

(** The column indices fixed before the loop over the rows. *)
Record columns : Type := {
  seq_idx : nat;
  name_idx : nat;
  rate_idx : option nat;
  idx_email : option nat;
  idx_work_email : option nat;
  idx_personal_email : option nat
}.

(** The [try] block of one data row that passed the gate. *)
Definition process_row (headers : list str) (hm : list (str * nat))
  (cols : columns) (ps : list period) (row : list str)
  (store : option EmailStore) : result (employee * option EmailStore) :=
  do c_seq <- index row (seq_idx cols);
  do acct <- (if 1 <? List.length row
              then do c <- index row 1; Ok (strip c) else Ok []);
  do nm <- (if name_idx cols <? List.length row
            then do c <- index row (name_idx cols); Ok (strip c) else Ok []);
  do rate <- match rate_idx cols with
             | Some r =>
                 if r <? List.length row
                 then do c <- index row r; Ok (safe_float_or c 0) else Ok 0%Q
             | None => Ok 0%Q
             end;
  let employee :=
    {| seq := strip c_seq; account_no := acct; name := nm; hourly_rate := rate;
       email := []; work_email := []; personal_email := [];
       periods := [];
       total_gross := 0; tax_rate := 0; withholding_rate := 0;
       withholding_amount := 0; p_tax_rate := 0; percent_tax := 0;
       adjustment_hours := 0; adjustment_amount := 0;
       total_tax_deductions := 0; net_amount_received := 0;
       net_amount_earned := None |} in
  do employee <- when_value row (idx_email cols)
                   (fun c e => set_email (strip c) e) employee;
  do employee <- when_value row (idx_work_email cols)
                   (fun c e => set_work_email (strip c) e) employee;
  do employee <- when_value row (idx_personal_email cols)
                   (fun c e => set_personal_email (strip c) e) employee;
  for_periods headers hm row ps (employee, store).

(** The gate in front of the [try] block. *)
Definition is_data_row (cols : columns) (row : list str) : bool :=
  match row with
  | [] => false
  | _ =>
      match nth_error row (seq_idx cols) with
      | Some c => isdigit (strip c)
      | None => false
      end
  end.

(** [for row in data_rows]: the employees appended and the store. *)
Fixpoint for_rows (headers : list str) (hm : list (str * nat))
  (cols : columns) (ps : list period) (data_rows : list (list str))
  (acc : list employee * option EmailStore) : list employee * option EmailStore :=
  match data_rows with
  | [] => acc
  | row :: rest =>
      let (employees, store) := acc in
      if is_data_row cols row then
        match process_row headers hm cols ps row store with
        | Ok (employee, store') =>
            for_rows headers hm cols ps rest (employees ++ [employee], store')
        | Raise _ =>
            for_rows headers hm cols ps rest (employees, store)
        end
      else for_rows headers hm cols ps rest acc
  end.

(** *** load_employee_data *)

(** The fallback of [load_employee_data]: its [if] stands after the loop
    over the rows, so it reads [period_matches] and [row] as the last
    iteration left them. *)
Fixpoint last_period_matches (rows : list (list str)) (pm : option nat)
  : result (option nat) :=
  match rows with
  | [] => Ok pm
  | row :: rows' =>
      do n <- period_matches row;
      last_period_matches rows' (Some n)
  end.

Definition load_fallback (rows : list (list str)) : result bool :=
  do pm <- last_period_matches rows None;
  match pm with
  | None => Raise UnboundLocalError
  | Some n => Ok ((2 <=? n) && (4 <=? List.length (last rows [])))
  end.

Definition period_of_header (jh : nat * str) : list period :=
  let (j, h) := jh in
  if _is_period_header h then
    [ {| period_name := _normalize_header_text h;
         period_display_name := None;
         column_index := j;
         hours_col := j;
         amount_col := None |} ]
  else [].

Definition resolve_columns (headers : list str) : columns :=
  let header_map_lower := header_map lower headers in
  let header_map_norm := header_map _norm headers in
  {| seq_idx :=
       match first_idx (fun h => contains (u "seq") h || contains (u "sequence") h)
                       header_map_lower with
       | Some i => i
       | None => 0
       end;
     name_idx :=
       match first_idx (contains (u "name")) header_map_lower with
       | Some i => i
       | None => if 2 <? List.length headers then 2 else 1
       end;
     rate_idx :=
       first_idx (fun h => contains (u "per hour") h || contains (u "hour") h
                           || contains (u "rate") h)
                 header_map_lower;
     idx_email := find_col header_map_norm [u "email"];
     idx_work_email := find_col header_map_norm [u "work"; u "email"];
     idx_personal_email := find_col header_map_norm [u "personal"; u "email"] |}.

Definition _attach_persistent_emails (st : processor) : processor :=
  match self_email_store st with
  | None => st
  | Some store => set_self_employees (apply_to_employees store (self_employees st)) st
  end.

(** How the body of the loop over the encodings ends. *)
Inductive flow : Type :=
| Continue (st : processor)
| Break (st : processor)
| Return (b : bool) (st : processor).

Definition load_with_header (rows : list (list str)) (header_row_idx : nat)
  (st : processor) : flow :=
  let headers := merge_headers rows header_row_idx in
  let header_map_norm := header_map _norm headers in
  let st :=
    match self_periods st with
    | [] => set_self_periods (flat_map period_of_header (enumerate headers)) st
    | _ => st
    end in
  let cols := resolve_columns headers in
  let data_rows := skipn (S header_row_idx) rows in
  let (employees, store) :=
    for_rows headers header_map_norm cols (self_periods st) data_rows
      (self_employees st, self_email_store st) in
  let st := set_self_email_store store (set_self_employees employees st) in
  match employees with
  | [] => Continue st
  | _ => Return true (_attach_persistent_emails st)
  end.

Definition load_body (rows : list (list str)) (st : processor) : flow :=
  match find_per_hour rows 0 with
  | Some h => load_with_header rows h st
  | None =>
      match load_fallback rows with
      | Raise _ => Continue st
      | Ok true => Break st
      | Ok false => Continue st
      end
  end.

Fixpoint load_loop (encs : list encoding) (file : csv_file) (st : processor)
  : bool * processor :=
  match encs with
  | [] => (false, st)
  | enc :: encs' =>
      match file enc with
      | None => load_loop encs' file st
      | Some rows =>
          match load_body rows st with
          | Continue st' => load_loop encs' file st'
          | Break st' => (false, st')
          | Return b st' => (b, st')
          end
      end
  end.

Definition load_employee_data (file : csv_file) (st : processor) : bool * processor :=
  load_loop encodings_to_try file (set_self_employees [] st).

End Loader.

(** ** Payroll Calculator *)

Local Open Scope Q_scope.

Record payroll : Type := {
  gross_pay : Q;
  sub_total : Q;
  w_tax : Q;
  withholding : Q;
  p_tax : Q;
  total_deductions : Q;
  net_pay : Q
}.

Definition calculate_employee_payroll (employee : employee) : payroll :=
  let gross := total_gross employee in
  let adj := adjustment_amount employee in
  let sub_total := gross - adj in
  let w_tax := gross * tax_rate employee in
  let withholding := gross * withholding_rate employee in
  let p_tax := gross * p_tax_rate employee in
  let total_deductions := w_tax + withholding + p_tax in
  let net_pay := sub_total - total_deductions in
  {| gross_pay := gross;
     sub_total := sub_total;
     w_tax := w_tax;
     withholding := withholding;
     p_tax := p_tax;
     total_deductions := total_deductions;
     net_pay := net_pay |}.

(** [x or y] on floats. *)
Definition q_or (x y : Q) : Q := if nonzero x then x else y.

(** [placement or 'both'] *)
Definition placement_or_both (placement : option str) : str :=
  match placement with
  | Some p => if truthy p then p else u "both"
  | None => u "both"
  end.

(** The figures of the payroll summary that the ReportLab branch of
    [generate_pdf_payslip] puts on the page. *)
Record pdf_figures : Type := {
  pdf_gross : Q;
  pdf_w_amount : Q;
  pdf_p_amount : Q;
  pdf_w_15 : Q;
  pdf_w_30 : Q;
  pdf_p_15 : Q;
  pdf_p_30 : Q;
  pdf_total_15 : Q;
  pdf_total_30 : Q;
  pdf_total_deductions : Q;
  pdf_net_pay : Q;
  pdf_display_w_rate : Q;
  pdf_display_p_rate : Q
}.

(** [split_amount] of [generate_pdf_payslip] *)
Definition pdf_split_amount (amount : Q) (place : str) : Q * Q :=
  if str_eqb place (u "both") then (amount / 2, amount / 2)
  else if str_eqb place (u "15") then (amount, 0)
  else (0, amount).

Definition generate_pdf_payslip (employee : employee)
  (withholding_placement : option str) : pdf_figures :=
  let total_salary :=
    fold_left (fun acc kv => acc + hours (snd kv) * hourly_rate employee)
              (periods employee) 0 in
  let w_rate := withholding_rate employee in
  let p_rate := p_tax_rate employee in
  let gross := q_or (total_gross employee) total_salary in
  let w_amount := withholding_amount employee in
  let w_amount :=
    if Qeq_bool w_amount 0 && nonzero w_rate then gross * w_rate else w_amount in
  let p_amount := percent_tax employee in
  let p_amount :=
    if Qeq_bool p_amount 0 && nonzero p_rate then gross * p_rate else p_amount in
  let wp := placement_or_both withholding_placement in
  let (w_15, w_30) := pdf_split_amount w_amount wp in
  let (p_15, p_30) := pdf_split_amount p_amount wp in
  let total_15 := w_15 + p_15 in
  let total_30 := w_30 + p_30 in
  let total_deductions := total_15 + total_30 in
  let net_pay := gross - total_deductions in
  {| pdf_gross := gross;
     pdf_w_amount := w_amount;
     pdf_p_amount := p_amount;
     pdf_w_15 := w_15; pdf_w_30 := w_30;
     pdf_p_15 := p_15; pdf_p_30 := p_30;
     pdf_total_15 := total_15;
     pdf_total_30 := total_30;
     pdf_total_deductions := total_deductions;
     pdf_net_pay := net_pay;
     pdf_display_w_rate := q_or (withholding_rate employee) (q_or (tax_rate employee) 0);
     pdf_display_p_rate := p_rate |}.

(** [round(x)] to the nearest integer, ties to the even one. *)
Definition round_half_even (x : Q) : Z :=
  let f := Qfloor x in
  match Qcompare (x - inject_Z f) (1 # 2) with
  | Lt => f
  | Gt => (f + 1)%Z
  | Eq => if Z.even f then f else (f + 1)%Z
  end.

(** [round(x, 2)] *)
Definition round2 (x : Q) : Q := round_half_even (x * 100) # 100.

(** The figures that [_excel_fill_template] writes into the sheet. *)
Record excel_figures : Type := {
  xl_total_hours : Q;
  xl_sal_earned : Q;
  xl_sub_total : Q;
  xl_w_rate : Q;
  xl_p_rate : Q;
  xl_w_amt : Q;
  xl_p_amt : Q;
  xl_w_15 : Q;
  xl_w_30 : Q;
  xl_p_15 : Q;
  xl_p_30 : Q;
  xl_total_15 : Q;
  xl_total_30 : Q;
  xl_total_ded : Q;
  xl_net_pay : Q
}.

(** [split_amount] of [_excel_fill_template] *)
Definition excel_split_amount (place : str) (v : Q) : Q * Q :=
  if str_eqb place (u "15") then (v, 0)
  else if str_eqb place (u "30") then (0, v)
  else (v / 2, v / 2).

Definition _excel_fill_template `{Unicode} (self_periods : list period)
  (employee : employee) (placement : option str) : excel_figures :=
  let rate := hourly_rate employee in
  let adj_amt := adjustment_amount employee in
  let period_entries :=
    flat_map
      (fun p =>
         let lbl := period_name p in
         match dict_get lbl (periods employee) with
         | Some rec => [(lbl, hours rec)]
         | None => []
         end)
      self_periods in
  let period_entries :=
    match period_entries with
    | [] => [([], 0)]
    | _ => period_entries
    end in
  let total_hours := fold_left (fun acc lh => acc + snd lh) period_entries 0 in
  let sal_earned := round2 (rate * total_hours) in
  let sub_total := round2 (sal_earned - adj_amt) in
  let gross_for_tax := sal_earned in
  let w_rate := q_or (withholding_rate employee) (q_or (tax_rate employee) 0) in
  let p_rate := p_tax_rate employee in
  let w_amt := withholding_amount employee in
  let w_amt :=
    if Qeq_bool w_amt 0 && nonzero w_rate then round2 (gross_for_tax * w_rate) else w_amt in
  let p_amt := percent_tax employee in
  let p_amt :=
    if Qeq_bool p_amt 0 && nonzero p_rate then round2 (gross_for_tax * p_rate) else p_amt in
  let w_rate :=
    if negb (nonzero w_rate) && nonzero w_amt && nonzero gross_for_tax
    then w_amt / gross_for_tax else w_rate in
  let p_rate :=
    if negb (nonzero p_rate) && nonzero p_amt && nonzero gross_for_tax
    then p_amt / gross_for_tax else p_rate in
  let place := lower (placement_or_both placement) in
  let (w_15, w_30) := excel_split_amount place w_amt in
  let (p_15, p_30) := excel_split_amount place p_amt in
  let total_15 := round2 (w_15 + p_15) in
  let total_30 := round2 (w_30 + p_30) in
  let total_ded := round2 (total_15 + total_30) in
  let net_pay := round2 (sub_total - total_ded) in
  {| xl_total_hours := total_hours;
     xl_sal_earned := sal_earned;
     xl_sub_total := sub_total;
     xl_w_rate := w_rate;
     xl_p_rate := p_rate;
     xl_w_amt := w_amt;
     xl_p_amt := p_amt;
     xl_w_15 := w_15; xl_w_30 := w_30;
     xl_p_15 := p_15; xl_p_30 := p_30;
     xl_total_15 := total_15;
     xl_total_30 := total_30;
     xl_total_ded := total_ded;
     xl_net_pay := net_pay |}.

Local Close Scope Q_scope.

(** ** File names of the payslips *)

Local Open Scope N_scope.

Fixpoint uint_digits (d : Decimal.uint) : str :=
  match d with
  | Decimal.Nil => []
  | Decimal.D0 d => 48 :: uint_digits d
  | Decimal.D1 d => 49 :: uint_digits d
  | Decimal.D2 d => 50 :: uint_digits d
  | Decimal.D3 d => 51 :: uint_digits d
  | Decimal.D4 d => 52 :: uint_digits d
  | Decimal.D5 d => 53 :: uint_digits d
  | Decimal.D6 d => 54 :: uint_digits d
  | Decimal.D7 d => 55 :: uint_digits d
  | Decimal.D8 d => 56 :: uint_digits d
  | Decimal.D9 d => 57 :: uint_digits d
  end.

(** [f"{n:03d}"] for a number that is not negative. *)
Definition format_03d (n : N) : str :=
  let digits := uint_digits (N.to_uint n) in
  repeat 48 (3 - List.length digits) ++ digits.

Section FileNames.
Context `{Unicode}.

(** Two more tables of the interpreter: [str.isalnum] on one character,
    and [int] on a string. *)
Variable isalnum : char -> bool.
Variable py_int : str -> result N.

(** ["".join(c for c in name if c.isalnum() or c in (' ', '-', '_')).rstrip()] *)
Definition clean_name (name : str) : str :=
  rstrip (filter (fun c => isalnum c || (c =? 32) || (c =? 45) || (c =? 95)) name).

(** The file name that [process_payroll_to_pdfs], [send_all_payslips] and
    [generate_pdf_from_excel_template] build for an entry, with the
    extension [ext] after the dot. *)
Definition payslip_filename (employee : employee) (ext : str) : result str :=
  let clean_name := clean_name (name employee) in
  do seq_num <- (if isdigit (seq employee) then py_int (seq employee) else Ok 0);
  Ok (u "payslip_" ++ format_03d seq_num ++ u "_"
      ++ replace_chr c_space [95] clean_name ++ u "." ++ ext).

End FileNames.

Local Close Scope N_scope.

(** * Specification *)

(** The definitions in which the properties are stated, and the sample
    files on which the code is run. *)

Local Open Scope Q_scope.

(** ** Entries *)

(** An entry that carries the given gross, adjustment and rates; the other
    fields are those of [e]. *)
Definition with_rates (gross adj tax wh ptax : Q) (e : employee) : employee :=
  set_total_gross gross
    (set_adjustment_amount adj
       (set_tax_rate tax
          (set_withholding_rate wh
             (set_p_tax_rate ptax e)))).

(** An entry with every number zero and every text empty. *)
Definition blank_entry : employee :=
  {| seq := []; account_no := []; name := []; hourly_rate := 0;
     email := []; work_email := []; personal_email := [];
     periods := [];
     total_gross := 0; tax_rate := 0; withholding_rate := 0;
     withholding_amount := 0; p_tax_rate := 0; percent_tax := 0;
     adjustment_hours := 0; adjustment_amount := 0;
     total_tax_deductions := 0; net_amount_received := 0;
     net_amount_earned := None |}.

(** An entry of forty hours at 100 with a withholding amount of 125.372,
    and the period it was loaded with. *)
Definition jan_1_15 : period :=
  {| period_name := u "Jan 1-15"; period_display_name := None;
     column_index := 4; hours_col := 4; amount_col := None |}.

Definition forty_hours : employee :=
  {| seq := u "1"; account_no := u "A1"; name := u "Bob"; hourly_rate := 100;
     email := []; work_email := []; personal_email := [];
     periods := [(u "Jan 1-15", {| hours := 40; amount := 4000; raw := u "40" |})];
     total_gross := 4000; tax_rate := 0; withholding_rate := 0;
     withholding_amount := 125372 # 1000; p_tax_rate := 0; percent_tax := 0;
     adjustment_hours := 0; adjustment_amount := 0;
     total_tax_deductions := 0; net_amount_received := 0;
     net_amount_earned := None |}.

(** ** Numerals *)

(** A numeral: an optional minus sign, digits, and possibly a dot followed
    by digits. *)
Definition frac_digits (frac : option str) : str :=
  match frac with
  | Some fp => fp
  | None => []
  end.

Definition numeral (neg : bool) (ip : str) (frac : option str) : str :=
  (if neg then [c_minus] else [])
  ++ ip
  ++ match frac with
     | Some fp => c_dot :: fp
     | None => []
     end.

Definition well_formed (ip : str) (frac : option str) : Prop :=
  forallb is_09 ip = true /\ forallb is_09 (frac_digits frac) = true
  /\ truthy (ip ++ frac_digits frac) = true.

(** Its value: the digits read in base ten, over ten to the number of
    digits behind the dot. *)
Definition numeral_value (neg : bool) (ip : str) (frac : option str) : Q :=
  let v := Z.of_N (digits_val (ip ++ frac_digits frac))
           # pow10 (List.length (frac_digits frac)) in
  if neg then - v else v.

(** The wording of the specification: one [%] at the end is dropped. *)
Definition strip_trailing_percent (s : str) : str :=
  match rev (strip s) with
  | c :: r => if chr_eqb c c_percent then rev r else strip s
  | [] => []
  end.

Local Close Scope Q_scope.
Local Open Scope nat_scope.

(** ** Frames of the address book *)








(** ** Cells of a data row *)

(** The cell that a guarded access [idx is not None and idx < len(row) and
    row[idx].strip()] lets through. *)
Definition cell_value (row : list str) (idx : option nat) : option str :=
  match idx with
  | Some i =>
      match nth_error row i with
      | Some c => if truthy (strip c) then Some c else None
      | None => None
      end
  | None => None
  end.

(** The update that a guarded statement makes once its cell is known. *)
Definition upd {S} (o : option str) (f : str -> S -> S) (s : S) : S :=
  match o with
  | Some c => f c s
  | None => s
  end.

Section LedgerSpec.
Context `{U : Unicode}.

(** The keys that only the first half of the summary block writes. *)
Definition same_ledger_head (e e' : employee) : Prop :=
  seq e' = seq e /\ hourly_rate e' = hourly_rate e /\
  adjustment_hours e' = adjustment_hours e /\
  total_gross e' = total_gross e /\
  adjustment_amount e' = adjustment_amount e /\
  net_amount_earned e' = net_amount_earned e /\
  periods e' = periods e.

(** The state in which the summary block leaves the adjustment keys. *)
Definition adjusted (e : employee) (adj net : option Q) : employee :=
  let calc_adj := (adjustment_hours e * hourly_rate e)%Q in
  let e :=
    match adj with
    | Some a => set_adjustment_amount a e
    | None =>
        if nonzero calc_adj then set_adjustment_amount calc_adj e
        else set_adjustment_amount 0 e
    end in
  if falsy_opt adj then
    match net with
    | Some n =>
        if exceeds_epsilon (total_gross e - n)
        then set_adjustment_amount (total_gross e - n)%Q e else e
    | None => e
    end
  else e.

Definition adj_amount_col (hm : list (str * nat)) : option nat :=
  idx_or (find_col hm [u "adjust"; u "amount"])
    (idx_or (find_col hm [u "adjust"; u "add"; u "tax"])
       (idx_or (find_col hm [u "addl"; u "tax"])
          (find_col hm [u "adjustment"; u "tax"]))).

(** The adjustment as the summary block computes it from the explicit
    amount, the net amount earned, the gross, and hours and rate. *)
Definition adjust_amount (adj net : option Q) (gross hours rate : Q) : Q :=
  let calc_adj := (hours * rate)%Q in
  let base :=
    match adj with
    | Some a => a
    | None => if nonzero calc_adj then calc_adj else 0%Q
    end in
  if falsy_opt adj then
    match net with
    | Some n => if exceeds_epsilon (gross - n) then (gross - n)%Q else base
    | None => base
    end
  else base.

(** The cells that the adjustment reads. *)
Definition explicit_adjustment (hm : list (str * nat)) (row : list str) : option Q :=
  match cell_value row (adj_amount_col hm) with
  | Some c => Some (safe_float_or c 0)
  | None => None
  end.

Definition net_earned (hm : list (str * nat)) (row : list str) : option Q :=
  match cell_value row (find_col hm [u "net"; u "amount"; u "earned"]) with
  | Some c => safe_float_none c
  | None => None
  end.

Definition adjust_hours (hm : list (str * nat)) (row : list str) : Q :=
  match cell_value row (find_col hm [u "adjust"; u "hour"]) with
  | Some c => safe_float_or c 0
  | None => 0%Q
  end.

Definition earned_cell (hm : list (str * nat)) (row : list str) : option str :=
  cell_value row (find_col hm [u "amount"; u "earned"]).

(** What holds of an entry once the summary block has run on it. *)
Definition summarised (hm : list (str * nat)) (row : list str) (e : employee) : Prop :=
  adjustment_hours e = adjust_hours hm row /\
  adjustment_amount e
  = adjust_amount (explicit_adjustment hm row) (net_earned hm row)
      (total_gross e) (adjustment_hours e) (hourly_rate e).

Definition hours_unset_or_read (hm : list (str * nat)) (row : list str)
  (e : employee) : Prop :=
  adjustment_hours e = 0%Q \/ adjustment_hours e = adjust_hours hm row.

Definition in_range (row : list str) (p : period) : bool :=
  column_index p <? List.length row.

(** The adjustment by priority: the explicit amount; else the gross less
    the net amount earned, when there is one and the difference exceeds the
    epsilon; else hours times rate. *)
Definition expected_adjustment (explicit net : option Q) (gross hours rate : Q) : Q :=
  match explicit with
  | Some a => a
  | None =>
      match net with
      | Some n => if exceeds_epsilon (gross - n) then (gross - n)%Q else (hours * rate)%Q
      | None => (hours * rate)%Q
      end
  end.

(** The explicit amount, when there is one, is not zero. *)
Definition explicit_not_zero (explicit : option Q) : Prop :=
  match explicit with
  | Some a => nonzero a = true
  | None => True
  end.

(** The value of a non-blank "amount earned" cell, when it parses. *)
Definition parsed_override (hm : list (str * nat)) (row : list str) : option Q :=
  match earned_cell hm row with
  | Some c =>
      match py_float (keep_numeric c) with
      | Ok v => Some v
      | Raise _ => None
      end
  | None => None
  end.

(** Hours times rate of one period. *)
Definition period_amount (row : list str) (rate : Q) (p : period) : Q :=
  (safe_float_or (strip (nth (column_index p) row [])) 0 * rate)%Q.

Definition add_period (row : list str) (rate : Q) (g : Q) (p : period) : Q :=
  if in_range row p then (g + period_amount row rate p)%Q else g.

(** The sum over the periods whose cell lies in the row. *)
Definition period_sum (row : list str) (rate : Q) (ps : list period) (g : Q) : Q :=
  fold_left (add_period row rate) ps g.

End LedgerSpec.

(** ** Sample files *)

(** A fresh processor with an empty address book. *)
Definition new_processor : processor :=
  {| self_periods := []; self_employees := []; self_merged_headers := None;
     self_email_store := Some {| table := []; last_rowid := 0 |} |}.

(** An ASCII file, which reads the same under every encoding. *)
Definition ascii_file (rows : list (list string)) : csv_file :=
  fun _ => Some (List.map (List.map u) rows).

Local Open Scope string_scope.

(** Two periods, one row without and one with an explicit amount earned. *)
Definition csv_two_periods : csv_file :=
  ascii_file
    [ ["Seq"; "Acct"; "Name"; "Rate per hour"; "Jan 1-15"; "Jan 16-31"; "Amount Earned"];
      ["1"; "A1"; "Bob"; "20"; "10"; "5"; ""];
      ["2"; "A2"; "Al"; "20"; "10"; "5"; "250"] ].

(** No period column, an explicit amount earned. *)
Definition csv_amount_only : csv_file :=
  ascii_file
    [ ["Seq"; "Acct"; "Name"; "Rate per hour"; "Amount Earned"];
      ["1"; "A1"; "Bob"; "20"; "250"] ].

(** The period columns to the right of the amount earned, and a row that
    ends before them. *)
Definition csv_short_row : csv_file :=
  ascii_file
    [ ["Seq"; "Acct"; "Name"; "Rate per hour"; "Amount Earned"; "Jan 1-15"; "Jan 16-31"];
      ["1"; "A1"; "Bob"; "20"; "250"] ].

(** No period column; summary, tax and email columns filled in. *)
Definition csv_no_periods : csv_file :=
  ascii_file
    [ ["Seq"; "Acct"; "Name"; "Rate per hour"; "W/ Tax Rate"; "W/Holding Tax";
       "P-Tax Rate"; "Percent. Tax"; "Adjustment Amount"; "Total Tax Deductions";
       "Net Amount Received"; "Email"; "Work Email"];
      ["1"; "A1"; "Bob"; "20"; "10%"; "25"; "3%"; "7.5"; "12"; "32.5"; "205";
       ""; "bob@x.com"] ].

(** The same columns behind one period column. *)
Definition csv_one_period : csv_file :=
  ascii_file
    [ ["Seq"; "Acct"; "Name"; "Rate per hour"; "Jan 1-15"; "W/ Tax Rate"; "W/Holding Tax";
       "P-Tax Rate"; "Percent. Tax"; "Adjustment Amount"; "Total Tax Deductions";
       "Net Amount Received"; "Email"; "Work Email"];
      ["1"; "A1"; "Bob"; "20"; "10"; "10%"; "25"; "3%"; "7.5"; "12"; "32.5"; "205";
       ""; "bob@x.com"] ].

(** Period headers, but no cell that says "per hour". *)
Definition csv_no_per_hour : csv_file :=
  ascii_file
    [ ["Seq"; "Name"; "Jan 1-15"; "Jan 16-31"];
      ["1"; "Bob"; "10"; "5"] ].

(** Nothing that looks like a header at all. *)
Definition csv_no_header : csv_file :=
  ascii_file [ ["a"; "b"]; ["1"; "2"] ].

(** Adjustment hours and a net amount earned, no adjustment amount. *)
Definition csv_adjustment : csv_file :=
  ascii_file
    [ ["Seq"; "Acct"; "Name"; "Rate per hour"; "Jan 1-15"; "Adjustment Hours";
       "Amount Earned"; "Net Amount Earned"];
      ["1"; "A1"; "Bob"; "20"; "50"; "2"; "1000"; "900"] ].

Local Close Scope string_scope.

(** The entries that a load leaves in the processor. *)
Definition loaded (file : csv_file) : list employee :=
  self_employees (snd (@load_employee_data ascii_tables file new_processor)).

Definition load_result (file : csv_file) : bool * processor :=
  @load_employee_data ascii_tables file new_processor.

Definition detect_result (file : csv_file) : result bool * processor :=
  @detect_periods ascii_tables file new_processor.

(** The entries after [detect_periods] and then [load_employee_data], the
    order of [process_payroll_to_pdfs]. *)
Definition detected_then_loaded (file : csv_file) : list employee :=
  self_employees
    (snd (@load_employee_data ascii_tables file (snd (detect_result file)))).

(** The rows of a file, and what the loader derives from its header row
    (the first row) for the first data row (the second). *)
Definition rows_of (file : csv_file) : list (list str) :=
  match file utf_8 with
  | Some rows => rows
  | None => []
  end.

Definition headers_of (file : csv_file) : list str :=
  merge_headers (rows_of file) 0.

Definition hm_of (file : csv_file) : list (str * nat) :=
  header_map (@_norm ascii_tables) (headers_of file).

Definition cols_of (file : csv_file) : columns :=
  @resolve_columns ascii_tables (headers_of file).

Definition periods_of (file : csv_file) : list period :=
  flat_map (@period_of_header ascii_tables) (enumerate (headers_of file)).

Definition row1_of (file : csv_file) : list str := nth 1 (rows_of file) [].

(** The entry of the first data row; [blank_entry] if the block raised. *)
Definition first_entry (file : csv_file) : employee :=
  match @process_row ascii_tables (headers_of file) (hm_of file) (cols_of file)
          (periods_of file) (row1_of file) None with
  | Ok (e, _) => e
  | Raise _ => blank_entry
  end.

(** ** The table of the address book *)

(** Two rows hold the same value in one of the UNIQUE columns. *)
Definition key_clash (r r' : db_row) : bool :=
  clash db_seq r r' || clash db_account_no r r' || clash db_name_key r r'.

(** What the schema and [_upsert] keep true of the table: row ids are
    distinct and not above [last_rowid], no two rows share a key, and no
    email is empty. *)
Definition store_ok (st : EmailStore) : Prop :=
  NoDup (List.map db_id (table st)) /\
  Forall (fun r => db_id r <= last_rowid st) (table st) /\
  Forall (fun r => truthy (db_email r) = true) (table st) /\
  (forall r r', In r (table st) -> In r' (table st) ->
                key_clash r r' = true -> db_id r = db_id r').

(** The row that the UPDATE of [_upsert] writes over [r]. *)
Definition upserted (seq account_no name_key display_name : option str)
  (email : str) (r : db_row) : db_row :=
  {| db_id := db_id r;
     db_seq := coalesce seq (db_seq r);
     db_account_no := coalesce account_no (db_account_no r);
     db_name_key := coalesce name_key (db_name_key r);
     db_display_name := coalesce display_name (db_display_name r);
     db_email := email |}.

(** An identity key of the entry is not blank. *)
Definition has_identity (e : employee) : bool :=
  truthy (strip (seq e)) || truthy (strip (account_no e)) || truthy (strip (name e)).

(** The row holds the key [k] in the column [col]. *)
Definition key_given (k : option str) (col : db_row -> option str) (r : db_row) : bool :=
  match k with
  | Some v => col_is col v r
  | None => false
  end.

(** The row holds one of the keys passed to [_upsert]. *)
Definition holds_key (seq account_no name_key : option str) (r : db_row) : bool :=
  key_given seq db_seq r || key_given account_no db_account_no r
  || key_given name_key db_name_key r.

(** The row holds one of the keys under which the entry is remembered. *)
Definition holds_key_of `{Unicode} (emp : employee) (r : db_row) : bool :=
  holds_key (_clean (Some (seq emp))) (_clean (Some (account_no emp)))
    (_clean_lower (Some (name emp))) r.

(** The keys of the entry lie in two rows of the table. *)
Definition keys_in_two_rows `{Unicode} (st : EmailStore) (emp : employee) : Prop :=
  exists r r', In r (table st) /\ In r' (table st) /\ db_id r <> db_id r' /\
               holds_key_of emp r = true /\ holds_key_of emp r' = true.

(** A UNIQUE column of the table with the key passed for it. *)
Definition column_of (seq account_no name_key : option str)
  (col : db_row -> option str) (k : option str) : Prop :=
  (col = db_seq /\ k = seq) \/ (col = db_account_no /\ k = account_no)
  \/ (col = db_name_key /\ k = name_key).

(** An entry with the given sequence number, account number and name, and
    nothing else. *)
Definition identified (s a n : str) : employee :=
  {| seq := s; account_no := a; name := n; hourly_rate := 0%Q;
     email := []; work_email := []; personal_email := [];
     periods := [];
     total_gross := 0%Q; tax_rate := 0%Q; withholding_rate := 0%Q;
     withholding_amount := 0%Q; p_tax_rate := 0%Q; percent_tax := 0%Q;
     adjustment_hours := 0%Q; adjustment_amount := 0%Q;
     total_tax_deductions := 0%Q; net_amount_received := 0%Q;
     net_amount_earned := None |}.

(** A table with the two rows of Bob and of Cy. *)
Definition two_addresses : EmailStore :=
  {| table :=
       [ {| db_id := 1; db_seq := Some (u "1"); db_account_no := Some (u "A1");
            db_name_key := Some (u "bob"); db_display_name := Some (u "Bob");
            db_email := u "bob@x.com" |};
         {| db_id := 2; db_seq := Some (u "2"); db_account_no := None;
            db_name_key := Some (u "cy"); db_display_name := Some (u "Cy");
            db_email := u "cy@x.com" |} ];
     last_rowid := 2 |}.



(** The table after [remember_from_employee]; the table as it was if the
    call raised. *)
Definition remembered (st : EmailStore) (emp : employee) (email : str) : EmailStore :=
  match @remember_from_employee ascii_tables st emp (Some email) with
  | Ok st' => st'
  | Raise _ => st
  end.

(** ** Header text *)

(** Every white-space character is a plain space with no white space
    behind it. *)
Fixpoint single_spaced (s : str) : bool :=
  match s with
  | [] => true
  | c :: s' =>
      (if isspace c
       then chr_eqb c c_space
            && match s' with
               | c' :: _ => negb (isspace c')
               | [] => true
               end
       else true)
      && single_spaced s'
  end.

(** No en dash and no em dash. *)
Definition plain_dashes (s : str) : bool :=
  forallb (fun c => negb (chr_eqb c c_endash || chr_eqb c c_emdash)) s.

(** The texts that a regular expression denotes: one block for each item,
    of characters of its class, as many as its bounds allow. *)
Fixpoint matches (re : regex) (m : str) : Prop :=
  match re with
  | [] => m = []
  | a :: re' =>
      exists b m',
        m = b ++ m' /\ forallb (cls a) b = true /\ rmin a <= List.length b /\
        match rmax a with
        | Some k => List.length b <= k
        | None => True
        end /\
        matches re' m'
  end.

(** ** Header maps *)

(** What a search through a header map returns: the key of the first
    header whose key passes the test, with the index of the last header
    that has this key; nothing when no header passes. *)
Definition located (key : str -> str) (test : str -> bool) (hs : list str)
  (r : option (str * nat)) : Prop :=
  match r with
  | Some (k, i) =>
      exists j hj,
        nth_error hs j = Some hj /\ key hj = k /\ test k = true /\
        (forall j' h', j' < j -> nth_error hs j' = Some h' -> test (key h') = false) /\
        j <= i /\
        exists hi,
          nth_error hs i = Some hi /\ key hi = k /\
          forall i' h', i < i' -> nth_error hs i' = Some h' -> key h' <> k
  | None => forall h, In h hs -> test (key h) = false
  end.

(** The test of [find_col]: every normalised part occurs in the key. *)
Definition has_parts `{Unicode} (parts : list str) (k : str) : bool :=
  forallb (fun p => contains p k) (List.map _norm parts).

(** ** The deductions and the email of a row *)

Section RowSpec.
Context `{U : Unicode}.

(** A rate cell and an amount cell, read over a value already there. *)
Definition percent_or (o : option str) (d : Q) : Q :=
  match o with
  | Some c => parse_percent (Some c) d
  | None => d
  end.

Definition amount_or (o : option str) (d : Q) : Q :=
  match o with
  | Some c => safe_float_or c d
  | None => d
  end.

(** The withholding cell is a rate when it holds a percent sign, and an
    amount otherwise. *)
Definition withholding_rate_or (o : option str) (d : Q) : Q :=
  match o with
  | Some c =>
      if contains [c_percent] (strip c) then parse_percent (Some (strip c)) d else d
  | None => d
  end.

Definition withholding_amount_or (o : option str) (d : Q) : Q :=
  match o with
  | Some c =>
      if contains [c_percent] (strip c) then d else safe_float_or (strip c) d
  | None => d
  end.

(** The deduction keys of [e] are those of [d], each one replaced by the
    value of its cell where the row has that cell, not blank, and it
    parses. *)
Definition deductions_read (hm : list (str * nat)) (row : list str)
  (d e : employee) : Prop :=
  tax_rate e
  = percent_or (cell_value row (find_col hm [u "w"; u "tax"; u "rate"])) (tax_rate d) /\
  withholding_rate e
  = withholding_rate_or (cell_value row (find_col hm [u "holding"; u "tax"]))
      (withholding_rate d) /\
  withholding_amount e
  = withholding_amount_or (cell_value row (find_col hm [u "holding"; u "tax"]))
      (withholding_amount d) /\
  p_tax_rate e
  = percent_or (cell_value row (find_col hm [u "p"; u "tax"; u "rate"])) (p_tax_rate d) /\
  percent_tax e
  = amount_or (cell_value row (find_col hm [u "percent"; u "tax"])) (percent_tax d) /\
  total_tax_deductions e
  = amount_or (cell_value row (find_col hm [u "total"; u "tax"; u "deduct"]))
      (total_tax_deductions d) /\
  net_amount_received e
  = amount_or (cell_value row (find_col hm [u "net"; u "amount"; u "received"]))
      (net_amount_received d).

(** The first of three addresses that is not empty; the first if all are. *)
Definition pick_email (a b c : str) : str :=
  match find truthy [a; b; c] with
  | Some pe => pe
  | None => a
  end.

(** The email keys of [e] are those of [d] with the primary one chosen. *)
Definition emails_picked (d e : employee) : Prop :=
  email e = pick_email (email d) (work_email d) (personal_email d) /\
  work_email e = work_email d /\ personal_email e = personal_email d.

(** The deduction and email keys are the same. *)
Definition same_summary (d e : employee) : Prop :=
  tax_rate e = tax_rate d /\ withholding_rate e = withholding_rate d /\
  withholding_amount e = withholding_amount d /\ p_tax_rate e = p_tax_rate d /\
  percent_tax e = percent_tax d /\
  total_tax_deductions e = total_tax_deductions d /\
  net_amount_received e = net_amount_received d /\
  email e = email d /\ work_email e = work_email d /\
  personal_email e = personal_email d.

(** The stripped text of a cell; empty when the cell is missing or blank. *)
Definition cell_text (row : list str) (idx : option nat) : str :=
  match cell_value row idx with
  | Some c => strip c
  | None => []
  end.

End RowSpec.

(** ** Entries that differ in their periods only *)

Definition same_but_periods (e e' : employee) : Prop :=
  exists P, e' = set_periods P e.

(** The address book of a processor, when it has one, is well-formed. *)
Definition store_ok_opt (o : option EmailStore) : Prop :=
  match o with
  | Some st => store_ok st
  | None => True
  end.

(** ** File names *)

(** Not a dot, a slash, a backslash or a space. *)
Definition plain_char (c : char) : bool :=
  negb ((c =? 46) || (c =? 47) || (c =? 92) || (c =? 32))%N.

(** The two tables on ASCII text. *)
Definition ascii_isalnum (c : char) : bool := is_09 c || is_az c || is_AZ c.
Definition ascii_int (s : str) : result N := Ok (digits_val s).

(** ** The legacy file of addresses *)

(** A legacy file of two rows, the second without an address. *)
Definition two_csv_rows : list csv_row :=
  [ {| csv_seq := Some (u "7"); csv_account_no := None;
       csv_name := Some (u " Ann Lee"); csv_email := Some (u "Ann@X.org") |};
    {| csv_seq := Some (u "8"); csv_account_no := None;
       csv_name := Some (u "Dee"); csv_email := Some (u " ") |} ].

(** The table after an import; the table as it was if the import raised. *)
Definition imported (rows : list csv_row) (st : EmailStore) : EmailStore :=
  match @import_from_csv ascii_tables (Some rows) st with
  | Ok st' => st'
  | Raise _ => st
  end.

(** * Properties *)

(** ** Payroll Calculator *)

Local Open Scope Q_scope.

(** C1: [calculate_employee_payroll] returns sub_total = total_gross -
    adjustment_amount, total_deductions = the sum of the three deduction
    components (each gross times its rate) and net_pay = sub_total -
    total_deductions; with gross 1000, adjustment 100 and rates 0.1, 0.05,
    0.02 this gives 900, 170 and 730. *)
Theorem calculate_employee_payroll_totals :
  (forall e : employee,
     let p := calculate_employee_payroll e in
     gross_pay p = total_gross e /\
     sub_total p = total_gross e - adjustment_amount e /\
     w_tax p = total_gross e * tax_rate e /\
     withholding p = total_gross e * withholding_rate e /\
     p_tax p = total_gross e * p_tax_rate e /\
     total_deductions p = w_tax p + withholding p + p_tax p /\
     net_pay p = sub_total p - total_deductions p) /\
  (forall e : employee,
     let p := calculate_employee_payroll
                (with_rates 1000 100 (1 # 10) (5 # 100) (2 # 100) e) in
     sub_total p == 900 /\ total_deductions p == 170 /\ net_pay p == 730).
Proof.
  split.
  - intros e p. subst p. unfold calculate_employee_payroll. cbn.
    repeat split; reflexivity.
  - intros e p. subst p. unfold calculate_employee_payroll, with_rates. cbn.
    repeat split; reflexivity.
Qed.

(** *** Placement *)

Lemma pdf_split_amount_sum (a : Q) (place : str) :
  fst (pdf_split_amount a place) + snd (pdf_split_amount a place) == a.
Proof.
  unfold pdf_split_amount.
  destruct (str_eqb place (u "both")); [cbn; field|].
  destruct (str_eqb place (u "15")); cbn; ring.
Qed.

Lemma excel_split_amount_sum (place : str) (v : Q) :
  fst (excel_split_amount place v) + snd (excel_split_amount place v) == v.
Proof.
  unfold excel_split_amount.
  destruct (str_eqb place (u "15")); [cbn; ring|].
  destruct (str_eqb place (u "30")); cbn; [ring|field].
Qed.

Lemma pdf_totals (e : employee) (pl : option str) :
  let f := generate_pdf_payslip e pl in
  pdf_total_deductions f == pdf_w_amount f + pdf_p_amount f /\
  pdf_net_pay f == pdf_gross f - (pdf_w_amount f + pdf_p_amount f).
Proof.
  unfold generate_pdf_payslip.
  set (gross := q_or _ _).
  set (wa := if Qeq_bool (withholding_amount e) 0 && _ then _ else _).
  set (pa := if Qeq_bool (percent_tax e) 0 && _ then _ else _).
  set (wp := placement_or_both pl).
  pose proof (pdf_split_amount_sum wa wp) as Hw.
  pose proof (pdf_split_amount_sum pa wp) as Hp.
  destruct (pdf_split_amount wa wp) as [w15 w30].
  destruct (pdf_split_amount pa wp) as [p15 p30].
  cbn in *.
  assert (E : w15 + p15 + (w30 + p30) == wa + pa).
  { rewrite <- Hw, <- Hp. ring. }
  split; [exact E | rewrite E; reflexivity].
Qed.

Lemma pdf_amounts_placement (e : employee) (pl1 pl2 : option str) :
  pdf_gross (generate_pdf_payslip e pl1) = pdf_gross (generate_pdf_payslip e pl2) /\
  pdf_w_amount (generate_pdf_payslip e pl1) = pdf_w_amount (generate_pdf_payslip e pl2) /\
  pdf_p_amount (generate_pdf_payslip e pl1) = pdf_p_amount (generate_pdf_payslip e pl2).
Proof.
  unfold generate_pdf_payslip.
  destruct (pdf_split_amount _ (placement_or_both pl1)),
           (pdf_split_amount _ (placement_or_both pl1)),
           (pdf_split_amount _ (placement_or_both pl2)),
           (pdf_split_amount _ (placement_or_both pl2)).
  cbn. repeat split.
Qed.

Lemma round2_comp (x y : Q) : x == y -> round2 x = round2 y.
Proof.
  intros E. unfold round2, round_half_even.
  assert (F : Qfloor (x * 100) = Qfloor (y * 100)) by (rewrite E; reflexivity).
  rewrite F.
  assert (C : Qcompare (x * 100 - inject_Z (Qfloor (y * 100))) (1 # 2)
              = Qcompare (y * 100 - inject_Z (Qfloor (y * 100))) (1 # 2))
    by (rewrite E; reflexivity).
  rewrite C. reflexivity.
Qed.

Section ExcelPlacement.
Context `{Unicode}.

Lemma lower_literal (s : str) :
  forallb is_ascii s = true -> forallb is_AZ s = false ->
  List.map ascii_lower s = s -> lower s = s.
Proof. intros A _ E. rewrite lower_ascii by exact A. exact E. Qed.

Lemma place_15 : lower (placement_or_both (Some (u "15"))) = u "15".
Proof. apply lower_literal; reflexivity. Qed.

Lemma place_30 : lower (placement_or_both (Some (u "30"))) = u "30".
Proof. apply lower_literal; reflexivity. Qed.

Lemma place_both : lower (placement_or_both (Some (u "both"))) = u "both".
Proof. apply lower_literal; reflexivity. Qed.

Lemma excel_split_sums (ps : list period) (e : employee) (pl : option str) :
  let x := _excel_fill_template ps e pl in
  xl_w_15 x + xl_w_30 x == xl_w_amt x /\ xl_p_15 x + xl_p_30 x == xl_p_amt x.
Proof.
  unfold _excel_fill_template.
  set (place := lower (placement_or_both pl)).
  set (wa := if Qeq_bool (withholding_amount e) 0 && _ then _ else _).
  set (pa := if Qeq_bool (percent_tax e) 0 && _ then _ else _).
  pose proof (excel_split_amount_sum place wa) as Hw.
  pose proof (excel_split_amount_sum place pa) as Hp.
  destruct (excel_split_amount place wa) as [w15 w30].
  destruct (excel_split_amount place pa) as [p15 p30].
  cbn in *. split; assumption.
Qed.

Lemma excel_15_30 (ps : list period) (e : employee) :
  let a := _excel_fill_template ps e (Some (u "15")) in
  let b := _excel_fill_template ps e (Some (u "30")) in
  xl_total_ded a = xl_total_ded b /\ xl_net_pay a = xl_net_pay b /\
  xl_w_15 a = xl_w_amt a /\ xl_w_30 a = 0 /\
  xl_p_15 a = xl_p_amt a /\ xl_p_30 a = 0 /\
  xl_w_15 b = 0 /\ xl_w_30 b = xl_w_amt b /\
  xl_p_15 b = 0 /\ xl_p_30 b = xl_p_amt b.
Proof.
  unfold _excel_fill_template. rewrite place_15, place_30.
  set (wa := if Qeq_bool (withholding_amount e) 0 && _ then _ else _).
  set (pa := if Qeq_bool (percent_tax e) 0 && _ then _ else _).
  change (excel_split_amount (u "15") wa) with (wa, 0).
  change (excel_split_amount (u "15") pa) with (pa, 0).
  change (excel_split_amount (u "30") wa) with (0, wa).
  change (excel_split_amount (u "30") pa) with (0, pa).
  cbn beta iota zeta delta [xl_total_ded xl_net_pay xl_w_15 xl_w_30 xl_p_15 xl_p_30 xl_w_amt xl_p_amt].
  split; [|split; [|repeat split]].
  - apply round2_comp; ring.
  - apply round2_comp.
    rewrite (round2_comp (round2 (wa + pa) + round2 (0 + 0))
                         (round2 (0 + 0) + round2 (wa + pa))) by ring.
    reflexivity.
Qed.

End ExcelPlacement.

Lemma nonzero_false (x : Q) : nonzero x = false -> x == 0.
Proof.
  unfold nonzero. intros E. apply Qeq_bool_iff.
  destruct (Qeq_bool x 0); [reflexivity | discriminate].
Qed.

Lemma nonzero_Qeq_bool (x : Q) : Qeq_bool x 0 = negb (nonzero x).
Proof. unfold nonzero. rewrite negb_involutive. reflexivity. Qed.

(** The amount of one deduction as both rendering paths choose it. *)
Lemma prefer_amount (amt rate gross : Q) (f : Q -> Q) :
  (forall x y, x == y -> f x == f y) -> f 0 == 0 ->
  (if Qeq_bool amt 0 && nonzero rate then f (gross * rate) else amt)
  == (if nonzero amt then amt else f (gross * rate)).
Proof.
  intros Fc F0. rewrite nonzero_Qeq_bool.
  destruct (nonzero amt) eqn:A; cbn; [reflexivity|].
  destruct (nonzero rate) eqn:R; [reflexivity|].
  apply nonzero_false in A. apply nonzero_false in R.
  rewrite A. symmetry. rewrite <- F0. apply Fc. rewrite R. ring.
Qed.

Section ExcelAmounts.
Context `{Unicode}.

Lemma excel_both (ps : list period) (e : employee) :
  let x := _excel_fill_template ps e (Some (u "both")) in
  xl_w_15 x = xl_w_amt x / 2 /\ xl_w_30 x = xl_w_amt x / 2 /\
  xl_p_15 x = xl_p_amt x / 2 /\ xl_p_30 x = xl_p_amt x / 2.
Proof.
  unfold _excel_fill_template. rewrite place_both.
  set (wa := if Qeq_bool (withholding_amount e) 0 && _ then _ else _).
  set (pa := if Qeq_bool (percent_tax e) 0 && _ then _ else _).
  change (excel_split_amount (u "both") wa) with (wa / 2, wa / 2).
  change (excel_split_amount (u "both") pa) with (pa / 2, pa / 2).
  cbn. repeat split; reflexivity.
Qed.

Lemma excel_amounts (ps : list period) (e : employee) (pl : option str) :
  let x := _excel_fill_template ps e pl in
  let w_rate := q_or (withholding_rate e) (q_or (tax_rate e) 0) in
  let p_rate := p_tax_rate e in
  xl_w_amt x ==
    (if nonzero (withholding_amount e) then withholding_amount e
     else round2 (xl_sal_earned x * w_rate)) /\
  xl_p_amt x ==
    (if nonzero (percent_tax e) then percent_tax e
     else round2 (xl_sal_earned x * p_rate)) /\
  xl_w_rate x =
    (if negb (nonzero w_rate) && nonzero (xl_w_amt x) && nonzero (xl_sal_earned x)
     then xl_w_amt x / xl_sal_earned x else w_rate) /\
  xl_p_rate x =
    (if negb (nonzero p_rate) && nonzero (xl_p_amt x) && nonzero (xl_sal_earned x)
     then xl_p_amt x / xl_sal_earned x else p_rate).
Proof.
  unfold _excel_fill_template.
  set (place := lower (placement_or_both pl)).
  set (sal := round2 (hourly_rate e * _)).
  set (wa := if Qeq_bool (withholding_amount e) 0 && _ then _ else _).
  set (pa := if Qeq_bool (percent_tax e) 0 && _ then _ else _).
  destruct (excel_split_amount place wa) as [w15 w30].
  destruct (excel_split_amount place pa) as [p15 p30].
  cbn beta iota zeta delta [xl_w_amt xl_p_amt xl_w_rate xl_p_rate xl_sal_earned].
  repeat split; try reflexivity.
  - subst wa. apply (prefer_amount _ _ _ round2).
    + intros x y E. rewrite (round2_comp x y E). reflexivity.
    + reflexivity.
  - subst pa. apply (prefer_amount _ _ _ round2).
    + intros x y E. rewrite (round2_comp x y E). reflexivity.
    + reflexivity.
Qed.

End ExcelAmounts.

Lemma pdf_amounts (e : employee) (pl : option str) :
  let f := generate_pdf_payslip e pl in
  pdf_w_amount f ==
    (if nonzero (withholding_amount e) then withholding_amount e
     else pdf_gross f * withholding_rate e) /\
  pdf_p_amount f ==
    (if nonzero (percent_tax e) then percent_tax e
     else pdf_gross f * p_tax_rate e).
Proof.
  unfold generate_pdf_payslip.
  set (gross := q_or _ _).
  set (wa := if Qeq_bool (withholding_amount e) 0 && _ then _ else _).
  set (pa := if Qeq_bool (percent_tax e) 0 && _ then _ else _).
  destruct (pdf_split_amount wa _) as [w15 w30].
  destruct (pdf_split_amount pa _) as [p15 p30].
  cbn beta iota zeta delta [pdf_w_amount pdf_p_amount pdf_gross].
  split.
  - subst wa. apply (prefer_amount _ _ _ (fun x => x)).
    + intros x y E; exact E.
    + reflexivity.
  - subst pa. apply (prefer_amount _ _ _ (fun x => x)).
    + intros x y E; exact E.
    + reflexivity.
Qed.

Lemma pdf_split (e : employee) :
  (let f := generate_pdf_payslip e (Some (u "both")) in
   pdf_w_15 f = pdf_w_amount f / 2 /\ pdf_w_30 f = pdf_w_amount f / 2 /\
   pdf_p_15 f = pdf_p_amount f / 2 /\ pdf_p_30 f = pdf_p_amount f / 2) /\
  (let f := generate_pdf_payslip e (Some (u "15")) in
   pdf_w_15 f = pdf_w_amount f /\ pdf_w_30 f = 0 /\
   pdf_p_15 f = pdf_p_amount f /\ pdf_p_30 f = 0) /\
  (let f := generate_pdf_payslip e (Some (u "30")) in
   pdf_w_15 f = 0 /\ pdf_w_30 f = pdf_w_amount f /\
   pdf_p_15 f = 0 /\ pdf_p_30 f = pdf_p_amount f).
Proof.
  unfold generate_pdf_payslip.
  set (wa := if Qeq_bool (withholding_amount e) 0 && _ then _ else _).
  set (pa := if Qeq_bool (percent_tax e) 0 && _ then _ else _).
  change (placement_or_both (Some (u "both"))) with (u "both").
  change (placement_or_both (Some (u "15"))) with (u "15").
  change (placement_or_both (Some (u "30"))) with (u "30").
  change (pdf_split_amount wa (u "both")) with (wa / 2, wa / 2).
  change (pdf_split_amount pa (u "both")) with (pa / 2, pa / 2).
  change (pdf_split_amount wa (u "15")) with (wa, 0).
  change (pdf_split_amount pa (u "15")) with (pa, 0).
  change (pdf_split_amount wa (u "30")) with (0, wa).
  change (pdf_split_amount pa (u "30")) with (0, pa).
  cbn. repeat split; reflexivity.
Qed.

(** C5, as the claim states it, fails: for an entry with gross 1000 and an
    explicit withholding amount of 50, [calculate_employee_payroll] reports
    a withholding of 0 and total deductions of 0, where the rendering
    computations take the 50; and the ReportLab one, which takes it, derives
    no rate from it. *)
Lemma calculate_ignores_absolute_amounts :
  let e := set_total_gross 1000 (set_withholding_amount 50 blank_entry) in
  let p := calculate_employee_payroll e in
  withholding_amount e == 50 /\
  withholding p == 0 /\ total_deductions p == 0 /\
  ~ withholding p == withholding_amount e /\
  pdf_w_amount (generate_pdf_payslip e None) == 50 /\
  pdf_display_w_rate (generate_pdf_payslip e None) == 0 /\
  xl_w_amt (@_excel_fill_template ascii_tables [] e None) == 50.
Proof.
  cbv zeta. repeat split; try (vm_compute; reflexivity).
  intros E. vm_compute in E. discriminate E.
Qed.

(** C5 (amended): the two rendering computations prefer a non-zero
    absolute amount on the entry (withholding_amount, percent_tax) and fall
    back to gross times the rate, rounded to cents in the Excel one, where
    gross is the rounded salary and the withholding rate falls back to
    tax_rate; the Excel one back-derives a zero rate as amount / gross when
    the amount and the gross are not zero. *)
Theorem deduction_components :
  (forall (e : employee) (pl : option str),
     let f := generate_pdf_payslip e pl in
     pdf_w_amount f ==
       (if nonzero (withholding_amount e) then withholding_amount e
        else pdf_gross f * withholding_rate e) /\
     pdf_p_amount f ==
       (if nonzero (percent_tax e) then percent_tax e
        else pdf_gross f * p_tax_rate e)) /\
  (forall (U : Unicode) (ps : list period) (e : employee) (pl : option str),
     let x := _excel_fill_template ps e pl in
     let w_rate := q_or (withholding_rate e) (q_or (tax_rate e) 0) in
     let p_rate := p_tax_rate e in
     xl_w_amt x ==
       (if nonzero (withholding_amount e) then withholding_amount e
        else round2 (xl_sal_earned x * w_rate)) /\
     xl_p_amt x ==
       (if nonzero (percent_tax e) then percent_tax e
        else round2 (xl_sal_earned x * p_rate)) /\
     xl_w_rate x =
       (if negb (nonzero w_rate) && nonzero (xl_w_amt x) && nonzero (xl_sal_earned x)
        then xl_w_amt x / xl_sal_earned x else w_rate) /\
     xl_p_rate x =
       (if negb (nonzero p_rate) && nonzero (xl_p_amt x) && nonzero (xl_sal_earned x)
        then xl_p_amt x / xl_sal_earned x else p_rate)).
Proof.
  split.
  - intros e pl. apply pdf_amounts.
  - intros U ps e pl. apply excel_amounts.
Qed.

(** C7, as the claim states it, fails.  With the token ["15th"] the
    ReportLab computation puts nothing on the 15th and the Excel one splits
    evenly; and with the tokens of the code the Excel computation, which
    rounds each sub-total to cents, reports total deductions of 125.37 for
    ["15"] and 125.38 for ["both"], and net pays that differ as well. *)
Lemma placement_changes_totals :
  let e := forty_hours in
  let xl := @_excel_fill_template ascii_tables [jan_1_15] e in
  pdf_w_15 (generate_pdf_payslip e (Some (u "15th"))) == 0 /\
  pdf_w_30 (generate_pdf_payslip e (Some (u "15th"))) == 125372 # 1000 /\
  xl_w_15 (xl (Some (u "15th"))) == 62686 # 1000 /\
  xl_total_ded (xl (Some (u "15"))) == 12537 # 100 /\
  xl_total_ded (xl (Some (u "both"))) == 12538 # 100 /\
  xl_net_pay (xl (Some (u "15"))) == 387463 # 100 /\
  xl_net_pay (xl (Some (u "both"))) == 387462 # 100 /\
  ~ xl_total_ded (xl (Some (u "15"))) == xl_total_ded (xl (Some (u "both"))) /\
  ~ xl_net_pay (xl (Some (u "15"))) == xl_net_pay (xl (Some (u "both"))).
Proof.
  cbv zeta.
  repeat split; try (vm_compute; reflexivity);
    intros E; vm_compute in E; discriminate E.
Qed.

(** C7 (amended): with the placements ["15"], ["30"] and ["both"] of the
    code, both computations put half of each withholding and percent-tax
    amount on each date for ["both"] and the full amount on the chosen date
    for ["15"] and ["30"], and the two shares of an amount add up to it
    under every placement.  In the ReportLab computation total_deductions,
    the sum of the two sub-totals, and net_pay are the same for all
    placements; in the Excel computation they are the same for ["15"] and
    ["30"]. *)
Theorem placement_keeps_totals :
  (forall (e : employee) (pl1 pl2 : option str),
     pdf_total_deductions (generate_pdf_payslip e pl1)
       == pdf_total_deductions (generate_pdf_payslip e pl2) /\
     pdf_net_pay (generate_pdf_payslip e pl1)
       == pdf_net_pay (generate_pdf_payslip e pl2)) /\
  (forall (e : employee) (pl : option str),
     let f := generate_pdf_payslip e pl in
     pdf_total_15 f + pdf_total_30 f = pdf_total_deductions f /\
     pdf_w_15 f + pdf_w_30 f == pdf_w_amount f /\
     pdf_p_15 f + pdf_p_30 f == pdf_p_amount f) /\
  (forall e : employee,
     (let f := generate_pdf_payslip e (Some (u "both")) in
      pdf_w_15 f = pdf_w_amount f / 2 /\ pdf_w_30 f = pdf_w_amount f / 2 /\
      pdf_p_15 f = pdf_p_amount f / 2 /\ pdf_p_30 f = pdf_p_amount f / 2) /\
     (let f := generate_pdf_payslip e (Some (u "15")) in
      pdf_w_15 f = pdf_w_amount f /\ pdf_w_30 f = 0 /\
      pdf_p_15 f = pdf_p_amount f /\ pdf_p_30 f = 0) /\
     (let f := generate_pdf_payslip e (Some (u "30")) in
      pdf_w_15 f = 0 /\ pdf_w_30 f = pdf_w_amount f /\
      pdf_p_15 f = 0 /\ pdf_p_30 f = pdf_p_amount f)) /\
  (forall (U : Unicode) (ps : list period) (e : employee) (pl : option str),
     let x := _excel_fill_template ps e pl in
     xl_w_15 x + xl_w_30 x == xl_w_amt x /\ xl_p_15 x + xl_p_30 x == xl_p_amt x) /\
  (forall (U : Unicode) (ps : list period) (e : employee),
     let x := _excel_fill_template ps e (Some (u "both")) in
     xl_w_15 x = xl_w_amt x / 2 /\ xl_w_30 x = xl_w_amt x / 2 /\
     xl_p_15 x = xl_p_amt x / 2 /\ xl_p_30 x = xl_p_amt x / 2) /\
  (forall (U : Unicode) (ps : list period) (e : employee),
     let a := _excel_fill_template ps e (Some (u "15")) in
     let b := _excel_fill_template ps e (Some (u "30")) in
     xl_total_ded a = xl_total_ded b /\ xl_net_pay a = xl_net_pay b /\
     xl_w_15 a = xl_w_amt a /\ xl_w_30 a = 0 /\
     xl_p_15 a = xl_p_amt a /\ xl_p_30 a = 0 /\
     xl_w_15 b = 0 /\ xl_w_30 b = xl_w_amt b /\
     xl_p_15 b = 0 /\ xl_p_30 b = xl_p_amt b).
Proof.
  repeat match goal with |- _ /\ _ => split end.
  - intros e pl1 pl2.
    destruct (pdf_totals e pl1) as [D1 N1], (pdf_totals e pl2) as [D2 N2].
    destruct (pdf_amounts_placement e pl1 pl2) as [G [W P]].
    split.
    + rewrite D1, D2, W, P. reflexivity.
    + rewrite N1, N2, G, W, P. reflexivity.
  - intros e pl f. subst f. unfold generate_pdf_payslip.
    set (wa := if Qeq_bool (withholding_amount e) 0 && _ then _ else _).
    set (pa := if Qeq_bool (percent_tax e) 0 && _ then _ else _).
    pose proof (pdf_split_amount_sum wa (placement_or_both pl)) as Hw.
    pose proof (pdf_split_amount_sum pa (placement_or_both pl)) as Hp.
    destruct (pdf_split_amount wa _) as [w15 w30].
    destruct (pdf_split_amount pa _) as [p15 p30].
    cbn in *. repeat split; assumption.
  - intros e. apply pdf_split.
  - intros U ps e pl. apply excel_split_sums.
  - intros U ps e. apply excel_both.
  - intros U ps e. apply excel_15_30.
Qed.

(** ** Numeric Normalizer *)

Lemma str_eqb_eq (a b : str) : str_eqb a b = true <-> a = b.
Proof.
  revert b. induction a as [|x a IH]; intros [|y b]; cbn; split;
    try reflexivity; try discriminate.
  - intros E. apply andb_true_iff in E. destruct E as [E1 E2].
    apply N.eqb_eq in E1. apply IH in E2. congruence.
  - intros E. injection E as -> ->. apply andb_true_iff. split.
    + apply N.eqb_refl.
    + apply IH. reflexivity.
Qed.

Lemma str_in_In (s : str) (l : list str) : str_in s l = true <-> In s l.
Proof.
  unfold str_in. rewrite existsb_exists. split.
  - intros [x [I E]]. apply str_eqb_eq in E. subst. exact I.
  - intros I. exists s. split; [exact I | apply str_eqb_eq; reflexivity].
Qed.

Ltac bool_to_prop :=
  repeat match goal with
  | H : _ || _ = true |- _ => apply orb_true_iff in H; destruct H as [H | H]
  | H : _ && _ = true |- _ => apply andb_true_iff in H; destruct H as [? H]
  | H : (_ <=? _)%N = true |- _ => apply N.leb_le in H
  | H : (_ =? _)%N = true |- _ => apply N.eqb_eq in H
  | H : chr_eqb _ _ = true |- _ => apply N.eqb_eq in H
  end.

Lemma isspace_not_numeric (c : char) : isspace c = true -> is_numeric c = false.
Proof.
  intros S. apply not_true_is_false. intros D.
  unfold isspace in S. unfold is_numeric, is_09, c_dot, c_minus in D.
  bool_to_prop; lia.
Qed.

Lemma keep_numeric_cons (c : char) (s : str) :
  keep_numeric (c :: s) = if is_numeric c then c :: keep_numeric s else keep_numeric s.
Proof. reflexivity. Qed.

Lemma keep_numeric_lstrip (s : str) : keep_numeric (lstrip s) = keep_numeric s.
Proof.
  induction s as [|c s IH]; [reflexivity|].
  cbn [lstrip]. destruct (isspace c) eqn:S; [|reflexivity].
  rewrite IH, keep_numeric_cons, (isspace_not_numeric c S). reflexivity.
Qed.

Lemma keep_numeric_app (s t : str) :
  keep_numeric (s ++ t) = keep_numeric s ++ keep_numeric t.
Proof. apply filter_app. Qed.

Lemma keep_numeric_rev (s : str) : keep_numeric (rev s) = rev (keep_numeric s).
Proof.
  induction s as [|c s IH]; [reflexivity|].
  cbn [rev]. rewrite keep_numeric_app, IH, (keep_numeric_cons c s), (keep_numeric_cons c []).
  destruct (is_numeric c); cbn [rev]; [reflexivity | apply app_nil_r].
Qed.

Lemma keep_numeric_strip (s : str) : keep_numeric (strip s) = keep_numeric s.
Proof.
  unfold strip, rstrip.
  rewrite keep_numeric_rev, keep_numeric_lstrip, keep_numeric_rev, rev_involutive.
  apply keep_numeric_lstrip.
Qed.

Lemma keep_numeric_replace (c : char) (s : str) :
  is_numeric c = false -> keep_numeric (replace_chr c [] s) = keep_numeric s.
Proof.
  intros Nc. unfold replace_chr.
  induction s as [|x s IH]; [reflexivity|].
  rewrite keep_numeric_cons. cbn [flat_map]. destruct (chr_eqb x c) eqn:E.
  - apply N.eqb_eq in E. subst x. rewrite Nc. exact IH.
  - cbn [app]. rewrite keep_numeric_cons, IH. reflexivity.
Qed.

Lemma keep_numeric_idem (s : str) : keep_numeric (keep_numeric s) = keep_numeric s.
Proof.
  induction s as [|c s IH]; [reflexivity|].
  rewrite keep_numeric_cons. destruct (is_numeric c) eqn:E; [|exact IH].
  rewrite keep_numeric_cons, E, IH. reflexivity.
Qed.

(** What [safe_float] returns is decided by the digits, dots and minus
    signs of the text alone; the tests in front of the substitution change
    nothing. *)
Lemma safe_float_eq {A} (inj : Q -> A) (s : str) (d : A) :
  safe_float inj (Some s) d =
  match py_float (keep_numeric s) with
  | Ok v => inj v
  | Raise _ => d
  end.
Proof.
  unfold safe_float.
  assert (K : keep_numeric
                (keep_numeric (replace_chr c_dollar [] (replace_chr c_comma [] (strip s))))
              = keep_numeric s).
  { rewrite keep_numeric_idem, !keep_numeric_replace by reflexivity.
    apply keep_numeric_strip. }
  rewrite keep_numeric_idem in K.
  destruct (negb (truthy (strip s)) || str_in (strip s) dashes) eqn:T.
  - apply orb_true_iff in T. rewrite <- keep_numeric_strip.
    destruct T as [T | T].
    + destruct (strip s); [reflexivity | discriminate].
    + apply str_in_In in T. cbn in T.
      destruct T as [T | [T | [T | []]]]; rewrite <- T; reflexivity.
  - rewrite K.
    destruct (str_in (keep_numeric s) [[]; [c_dot]; [c_minus]]) eqn:I; cbn [negb].
    + apply str_in_In in I. cbn in I.
      destruct I as [I | [I | [I | []]]]; rewrite <- I; reflexivity.
    + reflexivity.
Qed.

Lemma span_digits_spec (s : str) :
  forall d r, span_digits s = (d, r) ->
  s = d ++ r /\ forallb is_09 d = true
  /\ match r with c :: _ => is_09 c = false | [] => True end.
Proof.
  induction s as [|c s IH]; intros d r E; cbn in E.
  - injection E as <- <-. repeat split.
  - destruct (is_09 c) eqn:D.
    + destruct (span_digits s) as [d' r'] eqn:S. injection E as <- <-.
      destruct (IH d' r' eq_refl) as [E1 [E2 E3]].
      repeat split.
      * cbn. rewrite <- E1. reflexivity.
      * cbn. rewrite D, E2. reflexivity.
      * exact E3.
    + injection E as <- <-. repeat split. exact D.
Qed.

Lemma span_digits_app (d r : str) :
  forallb is_09 d = true ->
  match r with c :: _ => is_09 c = false | [] => True end ->
  span_digits (d ++ r) = (d, r).
Proof.
  intros D R. induction d as [|c d IH]; cbn.
  - destruct r as [|c r]; [reflexivity|]. cbn. rewrite R. reflexivity.
  - cbn in D. apply andb_true_iff in D. destruct D as [D1 D2].
    rewrite D1, (IH D2). reflexivity.
Qed.

Lemma unsigned_float_numeral (ip : str) (frac : option str) :
  well_formed ip frac ->
  unsigned_float (numeral false ip frac) = Ok (numeral_value false ip frac).
Proof.
  intros [Hi [Hf T]]. unfold unsigned_float, numeral, numeral_value. cbn [app].
  destruct frac as [fp|]; cbn [frac_digits] in *.
  - rewrite (span_digits_app ip (c_dot :: fp) Hi eq_refl).
    change (chr_eqb c_dot c_dot) with true. cbn iota.
    pose proof (span_digits_app fp [] Hf Logic.I) as S.
    rewrite app_nil_r in S. rewrite S. cbn [truthy].
    destruct ip as [|a ip].
    + cbn [app] in *. rewrite T. reflexivity.
    + reflexivity.
  - rewrite app_nil_r in *. pose proof (span_digits_app ip [] Hi Logic.I) as S.
    rewrite app_nil_r in S. rewrite S, T. reflexivity.
Qed.

Lemma numeral_head (ip : str) (frac : option str) :
  well_formed ip frac ->
  match numeral false ip frac with
  | c :: _ => chr_eqb c c_minus = false
  | [] => False
  end.
Proof.
  intros [I [F T]]. unfold numeral. cbn [app].
  destruct ip as [|a ip].
  - destruct frac as [fp|]; [reflexivity | discriminate T].
  - cbn in I. apply andb_true_iff in I. destruct I as [I _].
    cbn [app]. apply not_true_is_false. intros E.
    unfold is_09, c_minus in *. bool_to_prop. lia.
Qed.

Lemma py_float_numeral (neg : bool) (ip : str) (frac : option str) :
  well_formed ip frac ->
  py_float (numeral neg ip frac) = Ok (numeral_value neg ip frac).
Proof.
  intros W. pose proof (unsigned_float_numeral ip frac W) as U.
  pose proof (numeral_head ip frac W) as Hd.
  destruct neg.
  - change (numeral true ip frac) with (c_minus :: numeral false ip frac).
    unfold py_float. change (chr_eqb c_minus c_minus) with true. cbn iota.
    rewrite U. reflexivity.
  - unfold py_float. destruct (numeral false ip frac) as [|c r]; [contradiction|].
    rewrite Hd. exact U.
Qed.

Lemma unsigned_float_inv (s : str) (v : Q) :
  unsigned_float s = Ok v ->
  exists ip frac, well_formed ip frac /\ s = numeral false ip frac.
Proof.
  unfold unsigned_float. destruct (span_digits s) as [ip r] eqn:S.
  destruct (span_digits_spec s ip r S) as [E [I _]].
  destruct r as [|c r'].
  - destruct (truthy ip) eqn:T; [|discriminate]. intros _.
    exists ip, None. unfold well_formed, numeral. cbn [frac_digits app].
    rewrite !app_nil_r in *. repeat split; try assumption; reflexivity.
  - destruct (chr_eqb c c_dot) eqn:C; [|discriminate].
    destruct (span_digits r') as [fp r''] eqn:S'.
    destruct (span_digits_spec r' fp r'' S') as [E' [F _]].
    destruct r'' as [|x r'']; [|discriminate]. cbn [truthy].
    destruct (truthy ip || truthy fp) eqn:T; [|discriminate]. intros _.
    exists ip, (Some fp). unfold well_formed, numeral. cbn [frac_digits app].
    apply N.eqb_eq in C. subst c. rewrite app_nil_r in E'. subst r'.
    repeat split; try assumption.
    destruct ip, fp; try reflexivity. discriminate T.
Qed.

Lemma py_float_inv (s : str) (v : Q) :
  py_float s = Ok v ->
  exists neg ip frac, well_formed ip frac /\ s = numeral neg ip frac.
Proof.
  unfold py_float. destruct s as [|c s']; [discriminate|].
  destruct (chr_eqb c c_minus) eqn:C.
  - destruct (unsigned_float s') as [w|] eqn:U; [|discriminate]. intros _.
    destruct (unsigned_float_inv s' w U) as [ip [frac [W E]]].
    exists true, ip, frac. split; [exact W|].
    apply N.eqb_eq in C. subst. reflexivity.
  - intros U. destruct (unsigned_float_inv (c :: s') v U) as [ip [frac [W E]]].
    exists false, ip, frac. split; assumption.
Qed.

Lemma parse_percent_eq (s : str) (d : Q) :
  parse_percent (Some s) d =
  match py_float (keep_numeric s) with
  | Ok v => (v / 100)%Q
  | Raise _ => d
  end.
Proof.
  unfold parse_percent.
  destruct (negb (truthy (strip s)) || str_in (strip s) dashes) eqn:T.
  - apply orb_true_iff in T. rewrite <- keep_numeric_strip.
    destruct T as [T | T].
    + destruct (strip s); [reflexivity | discriminate].
    + apply str_in_In in T. cbn in T.
      destruct T as [T | [T | [T | []]]]; rewrite <- T; reflexivity.
  - rewrite safe_float_eq, keep_numeric_strip,
      keep_numeric_replace, keep_numeric_strip by reflexivity.
    destruct (py_float (keep_numeric s)); reflexivity.
Qed.

Lemma keep_numeric_strip_trailing_percent (s : str) :
  keep_numeric (strip_trailing_percent s) = keep_numeric s.
Proof.
  unfold strip_trailing_percent. rewrite <- (keep_numeric_strip s).
  destruct (rev (strip s)) as [|c r] eqn:R.
  - apply (f_equal (@rev char)) in R. rewrite rev_involutive in R.
    rewrite R. reflexivity.
  - destruct (chr_eqb c c_percent) eqn:C; [|reflexivity].
    apply (f_equal (@rev char)) in R. rewrite rev_involutive in R.
    rewrite R. cbn [rev]. rewrite keep_numeric_app.
    apply N.eqb_eq in C. subst c. cbn. rewrite app_nil_r. reflexivity.
Qed.

(** C9: [safe_float] (parse_number) returns the value of the numeral that
    is left once everything but digits, dots and minus signs is removed from
    the text, and the default when what is left is no numeral, in
    particular for the empty string, ["-"] and the en and em dashes; it
    returns in every case.  [parse_percent] is that value over 100 (or the
    default), also when read as the specification words it: drop a trailing
    [%], parse, divide.  ["$1,234.50"] gives 1234.50, ["12%"] gives 0.12 and
    the empty string with default 0.05 gives 0.05. *)
Theorem numeric_normalizer :
  (forall (s : str) (d : Q) (neg : bool) (ip : str) (frac : option str),
     well_formed ip frac ->
     keep_numeric s = numeral neg ip frac ->
     safe_float_or s d = numeral_value neg ip frac /\
     safe_float_none s = Some (numeral_value neg ip frac) /\
     parse_percent (Some s) d = (numeral_value neg ip frac / 100)%Q) /\
  (forall (s : str) (d : Q),
     (forall neg ip frac, well_formed ip frac -> keep_numeric s <> numeral neg ip frac) ->
     safe_float_or s d = d /\ safe_float_none s = None /\
     parse_percent (Some s) d = d) /\
  (forall (s : str) (d : Q),
     In (strip s) [[]; [c_minus]; [c_endash]; [c_emdash]] ->
     safe_float_or s d = d /\ safe_float_none s = None /\
     parse_percent (Some s) d = d) /\
  (forall d : Q, safe_float (fun v => v) None d = d /\ parse_percent None d = d) /\
  (forall (s : str) (d : Q),
     parse_percent (Some s) d =
     match safe_float_none (strip_trailing_percent s) with
     | Some v => (v / 100)%Q
     | None => d
     end) /\
  safe_float_or (u "$1,234.50") 0 == 123450 # 100 /\
  parse_percent (Some (u "12%")) 0 == 12 # 100 /\
  parse_percent (Some (u "")) (5 # 100) == 5 # 100.
Proof.
  assert (D : forall (s : str) (d : Q),
             (forall neg ip frac, well_formed ip frac ->
                keep_numeric s <> numeral neg ip frac) ->
             safe_float_or s d = d /\ safe_float_none s = None /\
             parse_percent (Some s) d = d).
  { intros s d N. unfold safe_float_or, safe_float_none.
    rewrite !safe_float_eq, parse_percent_eq.
    destruct (py_float (keep_numeric s)) as [v|e] eqn:P; [|repeat split].
    destruct (py_float_inv _ _ P) as [neg [ip [frac [W E]]]].
    destruct (N neg ip frac W E). }
  repeat match goal with |- _ /\ _ => split end.
  - intros s d neg ip frac W K. unfold safe_float_or, safe_float_none.
    rewrite !safe_float_eq, parse_percent_eq, K, (py_float_numeral neg ip frac W).
    repeat split.
  - exact D.
  - intros s d I. unfold safe_float_or, safe_float_none.
    rewrite !safe_float_eq, parse_percent_eq, <- keep_numeric_strip.
    cbn in I. destruct I as [I | [I | [I | [I | []]]]]; rewrite <- I; repeat split.
  - intros d. split; reflexivity.
  - intros s d. unfold safe_float_none.
    rewrite safe_float_eq, parse_percent_eq, keep_numeric_strip_trailing_percent.
    destruct (py_float (keep_numeric s)); reflexivity.
  - vm_compute. reflexivity.
  - vm_compute. reflexivity.
  - vm_compute. reflexivity.
Qed.

Lemma numeral_not_nil (neg : bool) (ip : str) (frac : option str) :
  well_formed ip frac -> numeral neg ip frac <> [].
Proof.
  intros [_ [_ T]] E. unfold numeral in E.
  destruct neg; [discriminate E|].
  destruct ip as [|a ip]; [|discriminate E].
  destruct frac as [fp|]; [discriminate E | discriminate T].
Qed.

(** The parts of C9 that have premises, at ["$1,234.50"], at ["n/a"] and at
    an em dash between blanks. *)
Lemma numeric_normalizer_witness :
  safe_float_or (u "$1,234.50") 0 = numeral_value false (u "1234") (Some (u "50")) /\
  safe_float_or (u "n/a") 7 = 7 /\
  parse_percent (Some (u " " ++ [c_emdash] ++ u " ")) (5 # 100) = 5 # 100.
Proof.
  destruct numeric_normalizer as [V [D [B _]]].
  split; [|split].
  - apply (V (u "$1,234.50") 0 false (u "1234") (Some (u "50"))).
    + repeat split.
    + reflexivity.
  - apply (D (u "n/a") 7). intros neg ip frac W E.
    apply (numeral_not_nil neg ip frac W). symmetry. exact E.
  - apply (B (u " " ++ [c_emdash] ++ u " ") (5 # 100)).
    vm_compute. right. right. right. left. reflexivity.
Defined.

(** ** Address book *)

Local Close Scope Q_scope.
Local Open Scope nat_scope.












Section AddressBook.
Context `{U : Unicode}.

Lemma _clean_Some (x : str) :
  _clean (Some x) = if truthy (strip x) then Some (strip x) else None.
Proof. reflexivity. Qed.

Lemma _clean_lower_Some (x : str) :
  _clean_lower (Some x) = if truthy (strip x) then Some (lower (strip x)) else None.
Proof.
  unfold _clean_lower. rewrite _clean_Some.
  destruct (truthy (strip x)) eqn:T; [rewrite T|]; reflexivity.
Qed.


Lemma _clean_email_truthy (s : str) :
  opt_truthy (_clean_email (Some s)) = truthy (strip s).
Proof.
  unfold _clean_email, _clean.
  destruct (truthy (strip s)) eqn:T; [|reflexivity].
  rewrite T. cbn. rewrite lower_truthy. exact T.
Qed.




End AddressBook.


(** ** Ledger Builder *)

Lemma index_nth_error {A} (l : list A) (i : nat) (a : A) :
  nth_error l i = Some a -> index l i = Ok a.
Proof. unfold index. intros ->. reflexivity. Qed.

Lemma ltb_nth_error {A} (l : list A) (i : nat) :
  (i <? List.length l) = match nth_error l i with Some _ => true | None => false end.
Proof.
  destruct (nth_error l i) eqn:E.
  - apply Nat.ltb_lt. apply nth_error_Some. congruence.
  - apply Nat.ltb_ge. apply nth_error_None. exact E.
Qed.

Lemma when_value_ok {S} (row : list str) (idx : option nat)
  (f : str -> S -> S) (s : S) :
  when_value row idx f s = Ok (upd (cell_value row idx) f s).
Proof.
  unfold when_value, cell_value, upd. destruct idx as [i|]; [|reflexivity].
  rewrite ltb_nth_error. unfold index.
  destruct (nth_error row i) as [c|]; [|reflexivity].
  cbn [bind]. destruct (truthy (strip c)); reflexivity.
Qed.

Lemma bind_total {A B} (m : result A) (k : A -> result B) :
  (exists a, m = Ok a) -> (forall a, exists b, k a = Ok b) ->
  exists b, bind m k = Ok b.
Proof. intros [a ->] K. apply K. Qed.

Lemma bind_inv {A B} (m : result A) (k : A -> result B) (b : B) :
  bind m k = Ok b -> exists a, m = Ok a /\ k a = Ok b.
Proof. destruct m as [a|e]; [|discriminate]. intros E. exists a. split; [reflexivity | exact E]. Qed.

Section LedgerFacts.
Context `{U : Unicode}.

Ltac total_step :=
  apply bind_total; [eexists; apply when_value_ok | intros ?].

Lemma summary_block_total (hm : list (str * nat)) (row : list str)
  (e : employee) (store : option EmailStore) :
  exists r, summary_block hm row e store = Ok r.
Proof.
  unfold summary_block. cbv zeta.
  do 4 total_step. do 6 total_step.
  destruct (find truthy _); eexists; reflexivity.
Qed.

Lemma period_step_total (headers : list str) (hm : list (str * nat))
  (row : list str) (p : period) (es : employee * option EmailStore) :
  exists r, period_step headers hm row p es = Ok r.
Proof.
  unfold period_step. destruct es as [e store].
  rewrite ltb_nth_error. unfold index.
  destruct (nth_error row (column_index p)) as [c|]; [|eexists; reflexivity].
  cbn [bind]. apply summary_block_total.
Qed.

Lemma for_periods_total (headers : list str) (hm : list (str * nat))
  (row : list str) (ps : list period) (es : employee * option EmailStore) :
  exists r, for_periods headers hm row ps es = Ok r.
Proof.
  revert es. induction ps as [|p ps IH]; intros es; cbn [for_periods].
  - eexists; reflexivity.
  - apply bind_total; [apply period_step_total | intros es'; apply IH].
Qed.

Lemma bind_when_inv {S B} (row : list str) (idx : option nat)
  (f : str -> S -> S) (s : S) (k : S -> result B) (b : B) :
  bind (when_value row idx f s) k = Ok b ->
  exists x, upd (cell_value row idx) f s = x /\ k x = Ok b.
Proof.
  rewrite when_value_ok. cbn [bind]. intros E. eexists. split; [reflexivity | exact E].
Qed.

Ltac inv_step H x Hx :=
  apply bind_when_inv in H; destruct H as [x [Hx H]].

Lemma same_ledger_head_upd (o : option str) (f : str -> employee -> employee)
  (e0 e : employee) :
  (forall c e', same_ledger_head e' (f c e')) ->
  same_ledger_head e0 e -> same_ledger_head e0 (upd o f e).
Proof.
  intros F S0. destruct o as [c|]; [|exact S0]. cbn [upd].
  destruct (F c e) as [A1 [A2 [A3 [A4 [A5 [A6 A7]]]]]].
  destruct S0 as [B1 [B2 [B3 [B4 [B5 [B6 B7]]]]]].
  unfold same_ledger_head. repeat split; congruence.
Qed.

Ltac head_kept :=
  intros; cbn beta;
  repeat match goal with
  | |- context [if ?b then _ else _] => destruct b
  end; unfold same_ledger_head; repeat split.

(** Where the summary block leaves the keys it writes first. *)
Lemma summary_block_head (hm : list (str * nat)) (row : list str)
  (e e' : employee) (store store' : option EmailStore) :
  summary_block hm row e store = Ok (e', store') ->
  let e1 := upd (cell_value row (find_col hm [u "adjust"; u "hour"]))
              (fun c e => set_adjustment_hours (safe_float_or c 0) e) e in
  let adj := upd (cell_value row (adj_amount_col hm))
               (fun c _ => Some (safe_float_or c 0)) None in
  let e2 := upd (cell_value row (find_col hm [u "amount"; u "earned"]))
              (fun c e => set_total_gross (safe_float_or c (total_gross e)) e) e1 in
  let net := upd (cell_value row (find_col hm [u "net"; u "amount"; u "earned"]))
               (fun c _ => safe_float_none c) None in
  let e3 := upd (cell_value row (find_col hm [u "net"; u "amount"; u "earned"]))
              (fun c e => set_net_amount_earned (safe_float_none c) e) e2 in
  same_ledger_head (adjusted e3 adj net) e'.
Proof.
  intros H. unfold summary_block in H. cbv zeta in H.
  inv_step H e1 H1. inv_step H adj H2. inv_step H e2 H3. inv_step H en H4.
  inv_step H e5 H5. inv_step H e6 H6. inv_step H e7 H7. inv_step H e8 H8.
  inv_step H e9 H9. inv_step H e10 H10.
  intros f1 fadj f2 fnet f3.
  assert (En : en = (f3, fnet)).
  { subst en f3 fnet f2 f1 e2 e1.
    destruct (cell_value row (find_col hm [u "net"; u "amount"; u "earned"]));
      reflexivity. }
  assert (S5 : same_ledger_head (adjusted f3 fadj fnet) e5).
  { subst e5. apply same_ledger_head_upd; [head_kept|].
    rewrite En. cbn [fst snd]. fold (adj_amount_col hm) in H2.
    subst adj fadj. unfold adjusted, same_ledger_head. repeat split. }
  assert (S10 : same_ledger_head (adjusted f3 fadj fnet) e10).
  { subst e10 e9 e8 e7 e6.
    repeat (apply same_ledger_head_upd; [head_kept|]). exact S5. }
  destruct (find truthy _) as [pe|]; injection H as <- _.
  - destruct S10 as [B1 [B2 [B3 [B4 [B5 [B6 B7]]]]]].
    unfold same_ledger_head. cbn. repeat split; assumption.
  - exact S10.
Qed.

Lemma adjusted_fields (e : employee) (adj net : option Q) :
  adjustment_amount (adjusted e adj net)
  = adjust_amount adj net (total_gross e) (adjustment_hours e) (hourly_rate e) /\
  seq (adjusted e adj net) = seq e /\
  hourly_rate (adjusted e adj net) = hourly_rate e /\
  adjustment_hours (adjusted e adj net) = adjustment_hours e /\
  total_gross (adjusted e adj net) = total_gross e /\
  net_amount_earned (adjusted e adj net) = net_amount_earned e /\
  periods (adjusted e adj net) = periods e.
Proof.
  unfold adjusted, adjust_amount.
  destruct adj as [a|]; cbn [falsy_opt].
  - destruct (negb (nonzero a)); [|repeat split].
    destruct net as [n|]; [|repeat split].
    cbn [total_gross set_adjustment_amount].
    destruct (exceeds_epsilon _); repeat split.
  - destruct (nonzero (adjustment_hours e * hourly_rate e));
      (destruct net as [n|]; [|repeat split]);
      cbn [total_gross set_adjustment_amount];
      destruct (exceeds_epsilon _); repeat split.
Qed.

Lemma summary_block_fields (hm : list (str * nat)) (row : list str)
  (e e' : employee) (store store' : option EmailStore) :
  summary_block hm row e store = Ok (e', store') ->
  seq e' = seq e /\ hourly_rate e' = hourly_rate e /\ periods e' = periods e /\
  total_gross e'
  = match earned_cell hm row with
    | Some c => safe_float_or c (total_gross e)
    | None => total_gross e
    end /\
  adjustment_hours e'
  = match cell_value row (find_col hm [u "adjust"; u "hour"]) with
    | Some c => safe_float_or c 0
    | None => adjustment_hours e
    end /\
  adjustment_amount e'
  = adjust_amount (explicit_adjustment hm row) (net_earned hm row)
      (total_gross e') (adjustment_hours e') (hourly_rate e').
Proof.
  intros H. pose proof (summary_block_head _ _ _ _ _ _ H) as S.
  cbv zeta in S.
  set (e1 := upd (cell_value row (find_col hm [u "adjust"; u "hour"])) _ e) in S.
  set (adj := upd (cell_value row (adj_amount_col hm)) _ None) in S.
  set (e2 := upd (cell_value row (find_col hm [u "amount"; u "earned"])) _ e1) in S.
  set (net := upd (cell_value row (find_col hm [u "net"; u "amount"; u "earned"]))
                (fun c _ => safe_float_none c) None) in S.
  set (e3 := upd (cell_value row (find_col hm [u "net"; u "amount"; u "earned"])) _ e2) in S.
  destruct S as [B1 [B2 [B3 [B4 [B5 [B6 B7]]]]]].
  destruct (adjusted_fields e3 adj net) as [A0 [A1 [A2 [A3 [A4 [A5 A6]]]]]].
  assert (F3 : seq e3 = seq e2 /\ hourly_rate e3 = hourly_rate e2 /\
               adjustment_hours e3 = adjustment_hours e2 /\
               total_gross e3 = total_gross e2 /\ periods e3 = periods e2).
  { subst e3. destruct (cell_value row (find_col hm [u "net"; u "amount"; u "earned"]));
      repeat split. }
  assert (F2 : seq e2 = seq e1 /\ hourly_rate e2 = hourly_rate e1 /\
               adjustment_hours e2 = adjustment_hours e1 /\ periods e2 = periods e1 /\
               total_gross e2 = match earned_cell hm row with
                                | Some c => safe_float_or c (total_gross e1)
                                | None => total_gross e1
                                end).
  { subst e2. unfold earned_cell.
    destruct (cell_value row (find_col hm [u "amount"; u "earned"])); repeat split. }
  assert (F1 : seq e1 = seq e /\ hourly_rate e1 = hourly_rate e /\
               total_gross e1 = total_gross e /\ periods e1 = periods e /\
               adjustment_hours e1
               = match cell_value row (find_col hm [u "adjust"; u "hour"]) with
                 | Some c => safe_float_or c 0
                 | None => adjustment_hours e
                 end).
  { subst e1.
    destruct (cell_value row (find_col hm [u "adjust"; u "hour"])); repeat split. }
  destruct F3 as [G1 [G2 [G3 [G4 G5]]]], F2 as [K1 [K2 [K3 [K4 K5]]]],
           F1 as [L1 [L2 [L3 [L4 L5]]]].
  repeat split; try congruence.
  - rewrite B4, A4, G4, K5, L3. reflexivity.
  - rewrite B5, A0, B4, A4, B3, A3, B2, A2. reflexivity.
Qed.

Lemma summary_block_summarised (hm : list (str * nat)) (row : list str)
  (e e' : employee) (store store' : option EmailStore) :
  summary_block hm row e store = Ok (e', store') ->
  hours_unset_or_read hm row e ->
  summarised hm row e'.
Proof.
  intros H I0.
  destruct (summary_block_fields _ _ _ _ _ _ H) as [_ [_ [_ [_ [Hh Ha]]]]].
  split; [|exact Ha].
  rewrite Hh. unfold adjust_hours.
  destruct (cell_value row (find_col hm [u "adjust"; u "hour"])) eqn:C; [reflexivity|].
  destruct I0 as [I0 | I0]; [exact I0|].
  rewrite I0. unfold adjust_hours. rewrite C. reflexivity.
Qed.

Lemma period_step_summarised (headers : list str) (hm : list (str * nat))
  (row : list str) (p : period) (e0 e : employee) (s0 s : option EmailStore) :
  period_step headers hm row p (e0, s0) = Ok (e, s) ->
  hours_unset_or_read hm row e0 ->
  seq e = seq e0 /\ hourly_rate e = hourly_rate e0 /\
  (if in_range row p then summarised hm row e else e = e0).
Proof.
  unfold period_step, in_range. intros H I0.
  destruct (column_index p <? List.length row) eqn:R.
  - apply bind_inv in H. destruct H as [c [_ H]].
    match type of H with summary_block _ _ ?x _ = _ => set (ep := x) in H end.
    assert (P : seq ep = seq e0 /\ hourly_rate ep = hourly_rate e0 /\
                adjustment_hours ep = adjustment_hours e0).
    { subst ep. destruct (period_display_name p) as [d|]; [|repeat split].
      destruct (truthy d && negb (str_eqb d _)); repeat split. }
    destruct P as [P1 [P2 P3]].
    destruct (summary_block_fields _ _ _ _ _ _ H) as [A [B _]].
    apply summary_block_summarised in H.
    + split; [congruence | split; [congruence | exact H]].
    + unfold hours_unset_or_read in *. rewrite P3. exact I0.
  - injection H as <- _. repeat split.
Qed.

Lemma summarised_hours (hm : list (str * nat)) (row : list str) (e : employee) :
  summarised hm row e -> hours_unset_or_read hm row e.
Proof. intros [A _]. right. exact A. Qed.

Lemma for_periods_summarised (headers : list str) (hm : list (str * nat))
  (row : list str) (ps : list period) (e0 e : employee) (s0 s : option EmailStore) :
  for_periods headers hm row ps (e0, s0) = Ok (e, s) ->
  hours_unset_or_read hm row e0 ->
  seq e = seq e0 /\ hourly_rate e = hourly_rate e0 /\
  (if existsb (in_range row) ps then summarised hm row e else e = e0).
Proof.
  revert e0 s0. induction ps as [|p ps IH]; intros e0 s0 H I0; cbn [for_periods] in H.
  - injection H as <- _. repeat split.
  - apply bind_inv in H. destruct H as [[e1 s1] [H1 H]].
    destruct (period_step_summarised _ _ _ _ _ _ _ _ H1 I0) as [A1 [B1 C1]].
    assert (I1 : hours_unset_or_read hm row e1).
    { destruct (in_range row p); [apply summarised_hours; exact C1 | subst e1; exact I0]. }
    destruct (IH _ _ H I1) as [A [B C]].
    repeat split; try congruence.
    cbn [existsb]. destruct (in_range row p); cbn [orb].
    + destruct (existsb (in_range row) ps); [exact C | subst e; exact C1].
    + subst e1. exact C.
Qed.

(** The [try] block of a row that passed the gate raises nothing. *)
Lemma process_row_total (headers : list str) (hm : list (str * nat))
  (cols : columns) (ps : list period) (row : list str)
  (store : option EmailStore) :
  is_data_row cols row = true ->
  exists e store',
    process_row headers hm cols ps row store = Ok (e, store') /\
    seq e = strip (nth (seq_idx cols) row []) /\
    isdigit (seq e) = true.
Proof.
  intros G. unfold is_data_row in G.
  assert (N : exists c, nth_error row (seq_idx cols) = Some c /\ isdigit (strip c) = true).
  { destruct row; [discriminate|].
    destruct (nth_error _ (seq_idx cols)) as [c|]; [|discriminate].
    exists c. split; [reflexivity | exact G]. }
  destruct N as [c [N D]].
  unfold process_row. rewrite (index_nth_error _ _ _ N). cbn [bind].
  set (acct := if 1 <? List.length row then _ else _).
  assert (A : exists a, acct = Ok a).
  { subst acct. rewrite ltb_nth_error. unfold index.
    destruct (nth_error row 1); eexists; reflexivity. }
  destruct A as [a ->]. cbn [bind].
  set (nm := if name_idx cols <? List.length row then _ else _).
  assert (A : exists a, nm = Ok a).
  { subst nm. rewrite ltb_nth_error. unfold index.
    destruct (nth_error row (name_idx cols)); eexists; reflexivity. }
  destruct A as [n ->]. cbn [bind].
  set (rt := match rate_idx cols with Some _ => _ | None => _ end).
  assert (A : exists a, rt = Ok a).
  { subst rt. destruct (rate_idx cols) as [r|]; [|eexists; reflexivity].
    rewrite ltb_nth_error. unfold index.
    destruct (nth_error row r); eexists; reflexivity. }
  destruct A as [r ->]. cbn [bind].
  do 3 (rewrite when_value_ok; cbn [bind]).
  match goal with |- context [for_periods headers hm row ps (?x, store)] => set (e0 := x) end.
  destruct (for_periods_total headers hm row ps (e0, store)) as [[e s] F].
  exists e, s. split; [exact F|].
  assert (S0 : seq e0 = strip c /\ adjustment_hours e0 = 0%Q).
  { subst e0. unfold upd.
    destruct (cell_value row (idx_personal_email cols)),
             (cell_value row (idx_work_email cols)),
             (cell_value row (idx_email cols)); split; reflexivity. }
  destruct S0 as [S0 H0].
  destruct (for_periods_summarised _ _ _ _ _ _ _ _ F (or_introl H0)) as [A _].
  rewrite A, S0. rewrite (nth_error_nth _ _ _ N). split; [reflexivity | exact D].
Qed.

Lemma process_row_summarised (headers : list str) (hm : list (str * nat))
  (cols : columns) (ps : list period) (row : list str)
  (store store' : option EmailStore) (e : employee) :
  process_row headers hm cols ps row store = Ok (e, store') ->
  existsb (in_range row) ps = true ->
  summarised hm row e.
Proof.
  intros H X. unfold process_row in H.
  apply bind_inv in H. destruct H as [c [_ H]].
  apply bind_inv in H. destruct H as [a [_ H]].
  apply bind_inv in H. destruct H as [n [_ H]].
  apply bind_inv in H. destruct H as [r [_ H]].
  cbv zeta in H.
  inv_step H e1 H1. inv_step H e2 H2. inv_step H e3 H3.
  apply for_periods_summarised in H.
  - rewrite X in H. apply H.
  - left. subst e3 e2 e1. unfold upd.
    destruct (cell_value row (idx_personal_email cols)),
             (cell_value row (idx_work_email cols)),
             (cell_value row (idx_email cols)); reflexivity.
Qed.

(** The rows of the ledger: one entry for each row that passes the gate,
    in the order of the rows. *)
Lemma for_rows_spec (headers : list str) (hm : list (str * nat))
  (cols : columns) (ps : list period) (rows : list (list str)) :
  forall (emps0 : list employee) (store : option EmailStore),
  exists es : list employee,
    fst (for_rows headers hm cols ps rows (emps0, store)) = emps0 ++ es /\
    List.map seq es
    = List.map (fun row => strip (nth (seq_idx cols) row []))
        (filter (is_data_row cols) rows) /\
    Forall (fun e => isdigit (seq e) = true) es.
Proof.
  induction rows as [|row rows IH]; intros emps0 store; cbn [for_rows filter].
  - exists []. rewrite app_nil_r. repeat split. constructor.
  - destruct (is_data_row cols row) eqn:G.
    + destruct (process_row_total headers hm cols ps row store G)
        as [e [s [P [Sq D]]]].
      rewrite P. destruct (IH (emps0 ++ [e]) s) as [es [E1 [E2 E3]]].
      exists (e :: es). rewrite E1, <- app_assoc. cbn [app List.map].
      rewrite E2, Sq. repeat split. constructor; assumption.
    + apply IH.
Qed.

Lemma for_rows_app (headers : list str) (hm : list (str * nat))
  (cols : columns) (ps : list period) (rows1 rows2 : list (list str)) :
  forall acc,
    for_rows headers hm cols ps (rows1 ++ rows2) acc
    = for_rows headers hm cols ps rows2 (for_rows headers hm cols ps rows1 acc).
Proof.
  induction rows1 as [|row rows1 IH]; intros [emps store]; [reflexivity|].
  cbn [app for_rows]. destruct (is_data_row cols row); [|apply IH].
  destruct (process_row headers hm cols ps row store) as [[e s]|x]; apply IH.
Qed.

Lemma adjust_amount_expected (explicit net : option Q) (gross hours rate : Q) :
  explicit_not_zero explicit ->
  (adjust_amount explicit net gross hours rate
   == expected_adjustment explicit net gross hours rate)%Q.
Proof.
  unfold adjust_amount, expected_adjustment, explicit_not_zero. intros X.
  destruct explicit as [a|]; cbn [falsy_opt].
  - rewrite X. reflexivity.
  - assert (B : ((if nonzero (hours * rate) then hours * rate else 0) == hours * rate)%Q).
    { destruct (nonzero (hours * rate)%Q) eqn:Z; [reflexivity|].
      symmetry. apply nonzero_false. exact Z. }
    destruct net as [n|]; [|exact B].
    destruct (exceeds_epsilon (gross - n)); [reflexivity | exact B].
Qed.

(** *** The gross of a row *)

Lemma period_sum_comp (row : list str) (rate : Q) (ps : list period) (g g' : Q) :
  (g == g')%Q -> (period_sum row rate ps g == period_sum row rate ps g')%Q.
Proof.
  revert g g'. induction ps as [|p ps IH]; intros g g' E; [exact E|].
  cbn [period_sum fold_left]. apply IH. unfold add_period.
  destruct (in_range row p); [rewrite E; reflexivity | exact E].
Qed.

Lemma period_step_gross (headers : list str) (hm : list (str * nat))
  (row : list str) (p : period) (e0 e1 : employee) (s0 s1 : option EmailStore) :
  period_step headers hm row p (e0, s0) = Ok (e1, s1) ->
  hourly_rate e1 = hourly_rate e0 /\
  (total_gross e1
   == if in_range row p then
        match parsed_override hm row with
        | Some v => v
        | None => total_gross e0 + period_amount row (hourly_rate e0) p
        end
      else total_gross e0)%Q.
Proof.
  unfold period_step, in_range. intros H.
  destruct (column_index p <? List.length row) eqn:R.
  - apply bind_inv in H. destruct H as [c [C H]].
    assert (Cn : c = nth (column_index p) row []).
    { unfold index in C. destruct (nth_error row (column_index p)) eqn:N; [|discriminate].
      injection C as <-. symmetry. apply nth_error_nth. exact N. }
    match type of H with summary_block _ _ ?x _ = _ => set (ep := x) in H end.
    destruct (summary_block_fields _ _ _ _ _ _ H) as [_ [Hr [_ [Hg _]]]].
    assert (P : hourly_rate ep = hourly_rate e0 /\
                (total_gross ep
                 == total_gross e0 + period_amount row (hourly_rate e0) p)%Q).
    { subst ep. unfold period_amount. rewrite <- Cn.
      assert (A : ((if nonzero (hourly_rate e0)
                    then safe_float_or (strip c) 0 * hourly_rate e0 else 0)
                   == safe_float_or (strip c) 0 * hourly_rate e0)%Q).
      { destruct (nonzero (hourly_rate e0)) eqn:Z; [reflexivity|].
        apply nonzero_false in Z. rewrite Z. ring. }
      destruct (period_display_name p) as [d|];
        [destruct (truthy d && negb (str_eqb d _))|];
        (split; [reflexivity|]); cbn [total_gross set_total_gross set_periods];
        rewrite A; reflexivity. }
    destruct P as [P1 P2]. split; [congruence|].
    rewrite Hg. unfold parsed_override.
    destruct (earned_cell hm row) as [c'|]; [|exact P2].
    unfold safe_float_or. rewrite safe_float_eq.
    destruct (py_float (keep_numeric c')); [reflexivity | exact P2].
  - injection H as <- _. split; reflexivity.
Qed.

Lemma for_periods_gross (headers : list str) (hm : list (str * nat))
  (row : list str) (ps : list period) :
  forall (e0 e : employee) (s0 s : option EmailStore),
  for_periods headers hm row ps (e0, s0) = Ok (e, s) ->
  hourly_rate e = hourly_rate e0 /\
  (total_gross e
   == match parsed_override hm row with
      | Some v => if existsb (in_range row) ps then v else total_gross e0
      | None => period_sum row (hourly_rate e0) ps (total_gross e0)
      end)%Q.
Proof.
  induction ps as [|p ps IH]; intros e0 e s0 s H; cbn [for_periods] in H.
  - injection H as <- _. split; [reflexivity|].
    destruct (parsed_override hm row); reflexivity.
  - apply bind_inv in H. destruct H as [[e1 s1] [H1 H]].
    destruct (period_step_gross _ _ _ _ _ _ _ _ H1) as [R1 G1].
    destruct (IH _ _ _ _ H) as [R G].
    split; [congruence|]. rewrite G. cbn [existsb period_sum fold_left].
    rewrite R1. unfold add_period.
    destruct (parsed_override hm row) as [v|].
    + destruct (in_range row p); cbn [orb].
      * destruct (existsb (in_range row) ps); [reflexivity | exact G1].
      * destruct (existsb (in_range row) ps); [reflexivity | exact G1].
    + apply period_sum_comp. exact G1.
Qed.

(** The gross of an accepted row: the parsed "amount earned" cell, once a
    period cell lies in the row; else the sum over the periods. *)
Lemma process_row_gross (headers : list str) (hm : list (str * nat))
  (cols : columns) (ps : list period) (row : list str)
  (store store' : option EmailStore) (e : employee) :
  process_row headers hm cols ps row store = Ok (e, store') ->
  (total_gross e
   == match parsed_override hm row with
      | Some v => if existsb (in_range row) ps then v else 0
      | None => period_sum row (hourly_rate e) ps 0
      end)%Q.
Proof.
  intros H. unfold process_row in H.
  apply bind_inv in H. destruct H as [c [_ H]].
  apply bind_inv in H. destruct H as [a [_ H]].
  apply bind_inv in H. destruct H as [n [_ H]].
  apply bind_inv in H. destruct H as [r [_ H]].
  cbv zeta in H.
  inv_step H e1 H1. inv_step H e2 H2. inv_step H e3 H3.
  destruct (for_periods_gross _ _ _ _ _ _ _ _ H) as [R G].
  assert (Z : total_gross e3 = 0%Q).
  { subst e3 e2 e1. unfold upd.
    destruct (cell_value row (idx_personal_email cols)),
             (cell_value row (idx_work_email cols)),
             (cell_value row (idx_email cols)); reflexivity. }
  rewrite G, Z, R. reflexivity.
Qed.

(** *** The fallback pass *)

Lemma period_matches_spec (row : list str) :
  period_matches row = if existsb truthy row then Raise NameError else Ok 0.
Proof.
  induction row as [|c row IH]; [reflexivity|].
  cbn [period_matches existsb]. destruct (truthy c); [reflexivity|].
  cbn [bind orb]. rewrite IH. destruct (existsb truthy row); reflexivity.
Qed.

Lemma fallback_header_row_spec (rows : list (list str)) (i : nat) :
  fallback_header_row rows i
  = if existsb (existsb truthy) rows then Raise NameError else Ok None.
Proof.
  revert i. induction rows as [|row rows IH]; intros i; [reflexivity|].
  cbn [fallback_header_row existsb]. rewrite period_matches_spec.
  destruct (existsb truthy row); [reflexivity|].
  cbn [bind orb andb Nat.leb]. apply IH.
Qed.

(** [detect_periods] raises as soon as the first readable encoding gives
    rows without "per hour" and with a cell that is not empty. *)
Lemma detect_periods_name_error (file : csv_file) (st : processor)
  (rows : list (list str)) :
  file utf_8 = Some rows ->
  find_per_hour rows 0 = None ->
  existsb (existsb truthy) rows = true ->
  fst (detect_periods file st) = Raise NameError.
Proof.
  intros F P X. unfold detect_periods, encodings_to_try.
  cbn [detect_periods_loop]. rewrite F, P, fallback_header_row_spec, X.
  reflexivity.
Qed.

End LedgerFacts.

(** C8: below the header a row becomes an entry of the ledger exactly when
    its sequence cell lies within the row and its stripped text is made of
    digits.  The [try] block of such a row raises nothing, the entries are
    those rows in their order, so their number is the number of rows with a
    numeric sequence cell, and the loop goes on after every row. *)
Theorem ledger_rows :
  forall (U : Unicode) (headers : list str) (hm : list (str * nat))
         (cols : columns) (ps : list period),
    (forall (rows : list (list str)) (store : option EmailStore),
       let ledger := fst (for_rows headers hm cols ps rows ([], store)) in
       List.map seq ledger
       = List.map (fun row => strip (nth (seq_idx cols) row []))
           (filter (is_data_row cols) rows) /\
       List.length ledger = List.length (filter (is_data_row cols) rows) /\
       Forall (fun e => isdigit (seq e) = true) ledger) /\
    (forall (row : list str),
       is_data_row cols row
       = match nth_error row (seq_idx cols) with
         | Some c => isdigit (strip c)
         | None => false
         end) /\
    (forall (row : list str) (store : option EmailStore),
       is_data_row cols row = true ->
       exists e store', process_row headers hm cols ps row store = Ok (e, store')) /\
    (forall (rows1 rows2 : list (list str)) acc,
       for_rows headers hm cols ps (rows1 ++ rows2) acc
       = for_rows headers hm cols ps rows2 (for_rows headers hm cols ps rows1 acc)) /\
    (forall (row : list str) (rows : list (list str)) acc,
       is_data_row cols row = false ->
       for_rows headers hm cols ps (row :: rows) acc
       = for_rows headers hm cols ps rows acc).
Proof.
  intros U headers hm cols ps.
  split; [|repeat match goal with |- _ /\ _ => split end].
  - intros rows store ledger. subst ledger.
    destruct (for_rows_spec headers hm cols ps rows [] store) as [es [E1 [E2 E3]]].
    cbn [app] in E1. rewrite E1. split; [exact E2 | split; [|exact E3]].
    rewrite <- (length_map seq es), E2, length_map. reflexivity.
  - intros row. unfold is_data_row. destruct row as [|c row]; [|reflexivity].
    destruct (seq_idx cols); reflexivity.
  - intros row store G.
    destruct (process_row_total headers hm cols ps row store G) as [e [s [P _]]].
    exists e, s. exact P.
  - intros rows1 rows2 acc. apply for_rows_app.
  - intros row rows [emps store] G. cbn [for_rows]. rewrite G. reflexivity.
Qed.

(** ** Running the loader *)

(** C8, its parts with a premise: the row of [csv_adjustment] passes the
    gate and its block returns, and a row with a blank sequence cell in
    front of it is passed over. *)
Lemma ledger_rows_witness :
  (exists e store',
     @process_row ascii_tables (headers_of csv_adjustment) (hm_of csv_adjustment)
       (cols_of csv_adjustment) (periods_of csv_adjustment)
       (row1_of csv_adjustment) None = Ok (e, store')) /\
  (forall acc,
     @for_rows ascii_tables (headers_of csv_adjustment) (hm_of csv_adjustment)
       (cols_of csv_adjustment) (periods_of csv_adjustment)
       ([u " "; u "total"] :: skipn 1 (rows_of csv_adjustment)) acc
     = @for_rows ascii_tables (headers_of csv_adjustment) (hm_of csv_adjustment)
         (cols_of csv_adjustment) (periods_of csv_adjustment)
         (skipn 1 (rows_of csv_adjustment)) acc).
Proof.
  destruct (ledger_rows ascii_tables (headers_of csv_adjustment)
              (hm_of csv_adjustment) (cols_of csv_adjustment)
              (periods_of csv_adjustment)) as [_ [_ [T [_ S]]]].
  split.
  - apply T. vm_compute. reflexivity.
  - intros acc. apply S. vm_compute. reflexivity.
Defined.

(** C6, as the claim states it, fails: the row of [csv_adjustment] has no
    adjustment-amount column and adjustment hours 2 at rate 20, a computed
    adjustment of 40; the net amount earned 900 against a gross of 1000
    still triggers the inference, and the adjustment is 100. *)
Lemma adjustment_inferred_over_hours :
  match loaded csv_adjustment with
  | [e] =>
      @explicit_adjustment ascii_tables (hm_of csv_adjustment)
        (row1_of csv_adjustment) = None /\
      (adjustment_hours e * hourly_rate e == 40)%Q /\
      (total_gross e == 1000)%Q /\
      net_amount_earned e = Some (900 # 1)%Q /\
      (adjustment_amount e == 100)%Q /\
      ~ (adjustment_amount e == adjustment_hours e * hourly_rate e)%Q
  | _ => False
  end.
Proof.
  vm_compute. repeat split; try reflexivity. intros E. discriminate E.
Qed.

(** C6 (amended): for an accepted row with a period column inside it,
    adjustment_hours is the parsed adjustment-hours cell, or 0 without one;
    and, provided an explicit adjustment amount is not zero,
    adjustment_amount is that explicit amount when its column is present
    and not blank; otherwise total_gross less the net amount earned when
    that cell is present, parses, and the difference exceeds 1e-6 in
    absolute value, whether or not there are adjustment hours; and
    otherwise adjustment_hours times hourly_rate. *)
Theorem adjustment_amount_priority :
  forall (U : Unicode) (headers : list str) (hm : list (str * nat))
         (cols : columns) (ps : list period) (row : list str)
         (store store' : option EmailStore) (e : employee),
    @process_row U headers hm cols ps row store = Ok (e, store') ->
    existsb (in_range row) ps = true ->
    explicit_not_zero (@explicit_adjustment U hm row) ->
    adjustment_hours e = @adjust_hours U hm row /\
    (adjustment_amount e
     == expected_adjustment (@explicit_adjustment U hm row) (@net_earned U hm row)
          (total_gross e) (adjustment_hours e) (hourly_rate e))%Q.
Proof.
  intros U headers hm cols ps row store store' e P X N.
  destruct (process_row_summarised _ _ _ _ _ _ _ _ P X) as [H A].
  split; [exact H|]. rewrite A. apply adjust_amount_expected. exact N.
Qed.

(** C6 (amended) on the row of [csv_adjustment]: the adjustment is 100. *)
Lemma adjustment_amount_priority_witness :
  @process_row ascii_tables (headers_of csv_adjustment) (hm_of csv_adjustment)
    (cols_of csv_adjustment) (periods_of csv_adjustment)
    (row1_of csv_adjustment) None
  = Ok (first_entry csv_adjustment, None) /\
  (adjustment_amount (first_entry csv_adjustment) == 100)%Q.
Proof.
  assert (P : @process_row ascii_tables (headers_of csv_adjustment)
                (hm_of csv_adjustment) (cols_of csv_adjustment)
                (periods_of csv_adjustment) (row1_of csv_adjustment) None
              = Ok (first_entry csv_adjustment, None))
    by (vm_compute; reflexivity).
  split; [exact P|].
  assert (X : existsb (in_range (row1_of csv_adjustment))
                (periods_of csv_adjustment) = true) by (vm_compute; reflexivity).
  assert (N : explicit_not_zero
                (@explicit_adjustment ascii_tables (hm_of csv_adjustment)
                   (row1_of csv_adjustment)))
    by (vm_compute; exact I).
  apply (Qeq_trans _ _ _
           (proj2 (adjustment_amount_priority ascii_tables
                     (headers_of csv_adjustment) (hm_of csv_adjustment)
                     (cols_of csv_adjustment) (periods_of csv_adjustment)
                     (row1_of csv_adjustment)
                     None None (first_entry csv_adjustment) P X N))).
  vm_compute. reflexivity.
Defined.

(** C2: the explicit amount earned is read only while a period cell of the
    row is being handled.  In [csv_short_row] two periods are detected but
    the row ends before their columns, in [csv_amount_only] there is no
    period column: the amount earned of 250 is not taken and the gross of
    the entry is 0.  With period cells in the row ([csv_two_periods]) the
    gross is the sum 300 for the row without an amount earned and the
    explicit 250 for the row with one. *)
Theorem amount_earned_needs_a_period :
  fst (detect_result csv_short_row) = Ok true /\
  List.length (self_periods (snd (detect_result csv_short_row))) = 2 /\
  match detected_then_loaded csv_short_row with
  | [e] =>
      @earned_cell ascii_tables (hm_of csv_short_row) (row1_of csv_short_row)
      = Some (u "250") /\
      (total_gross e == 0)%Q
  | _ => False
  end /\
  match loaded csv_amount_only with
  | [e] =>
      @earned_cell ascii_tables (hm_of csv_amount_only) (row1_of csv_amount_only)
      = Some (u "250") /\
      (safe_float_or (u "250") 0 == 250)%Q /\
      (total_gross e == 0)%Q
  | _ => False
  end /\
  match loaded csv_two_periods with
  | [e1; e2] => (total_gross e1 == 300)%Q /\ (total_gross e2 == 250)%Q
  | _ => False
  end.
Proof. vm_compute. repeat split. Qed.

(** C3: with no period column ([csv_no_periods]) the load succeeds and the
    row is accepted, but none of the summary and tax fields is resolved and
    the work email does not become the email of the entry, nor reach the
    address book; behind one period column ([csv_one_period]) the same cells
    are all resolved. *)
Theorem zero_periods_skip_summary :
  fst (load_result csv_no_periods) = true /\
  self_periods (snd (load_result csv_no_periods)) = [] /\
  self_email_store (snd (load_result csv_no_periods))
  = Some {| table := []; last_rowid := 0 |} /\
  match loaded csv_no_periods with
  | [e] =>
      seq e = u "1" /\ work_email e = u "bob@x.com" /\ email e = [] /\
      (tax_rate e == 0)%Q /\ (withholding_amount e == 0)%Q /\
      (p_tax_rate e == 0)%Q /\ (percent_tax e == 0)%Q /\
      (adjustment_amount e == 0)%Q /\ (total_tax_deductions e == 0)%Q /\
      (net_amount_received e == 0)%Q
  | _ => False
  end /\
  match loaded csv_one_period with
  | [e] =>
      seq e = u "1" /\ work_email e = u "bob@x.com" /\ email e = u "bob@x.com" /\
      (tax_rate e == 1 # 10)%Q /\ (withholding_amount e == 25)%Q /\
      (p_tax_rate e == 3 # 100)%Q /\ (percent_tax e == 75 # 10)%Q /\
      (adjustment_amount e == 12)%Q /\ (total_tax_deductions e == 325 # 10)%Q /\
      (net_amount_received e == 205)%Q
  | _ => False
  end.
Proof. vm_compute. repeat split. Qed.

(** C4: on a file without "per hour" whose first row holds two period
    headers and four cells ([csv_no_per_hour]), and on a file with no header
    at all ([csv_no_header]), [detect_periods] raises [NameError] where the
    claim has it fall back, or return [False]; [load_employee_data] returns
    [False] on the same files. *)
Theorem detect_periods_raises :
  fst (detect_result csv_no_per_hour) = Raise NameError /\
  fst (detect_result csv_no_header) = Raise NameError /\
  self_periods (snd (detect_result csv_no_per_hour)) = [] /\
  fst (load_result csv_no_per_hour) = false /\
  fst (load_result csv_no_header) = false.
Proof. vm_compute. repeat split. Qed.

(** * Further properties *)

(** ** The address book: what is remembered is found *)

Lemma select_id_In (col : db_row -> option str) (v : option str)
  (t : list db_row) (i : nat) :
  select_id col v t = Some i -> exists r, In r t /\ db_id r = i.
Proof.
  unfold select_id. destruct v as [x|]; [|discriminate].
  destruct (truthy x); [|discriminate].
  destruct (find (col_is col x) t) as [r|] eqn:F; [|discriminate].
  cbn. intros E. injection E as <-. apply find_some in F. exists r. tauto.
Qed.

Lemma select_id_key (col : db_row -> option str) (v : option str)
  (t : list db_row) (i : nat) :
  select_id col v t = Some i ->
  exists r x, In r t /\ db_id r = i /\ v = Some x /\ col r = Some x.
Proof.
  unfold select_id. destruct v as [x|]; [|discriminate].
  destruct (truthy x); [|discriminate].
  destruct (find (col_is col x) t) as [r|] eqn:F; [|discriminate].
  cbn. intros E. injection E as <-. apply find_some in F. destruct F as [F1 F2].
  exists r, x. repeat split; try assumption.
  unfold col_is in F2. destruct (col r) as [y|]; [|discriminate].
  apply str_eqb_eq in F2. congruence.
Qed.

Lemma select_id_None (col : db_row -> option str) (x : str) (t : list db_row) :
  select_id col (Some x) t = None -> truthy x = true ->
  forall r, In r t -> col r <> Some x.
Proof.
  unfold select_id. intros E T r I C. rewrite T in E.
  destruct (find (col_is col x) t) as [r'|] eqn:F; [discriminate|].
  apply (find_none _ _ F) in I. unfold col_is in I. rewrite C in I.
  assert (X : str_eqb x x = true) by (apply str_eqb_eq; reflexivity).
  congruence.
Qed.

Lemma In_update_row (i : nat) (f : db_row -> db_row) (t : list db_row) (r : db_row) :
  In r (update_row i f t) <->
  exists r0, In r0 t /\ r = if db_id r0 =? i then f r0 else r0.
Proof.
  unfold update_row. rewrite in_map_iff. split.
  - intros [r0 [E I]]. exists r0. split; [exact I | symmetry; exact E].
  - intros [r0 [I E]]. exists r0. split; [symmetry; exact E | exact I].
Qed.

(** How a call of [_upsert] that returns leaves the table: the rows of one
    id, old or fresh, are overwritten and clash with no other row. *)
Lemma upsert_shape (seq account_no name_key display_name : option str)
  (email : str) (st st' : EmailStore) :
  _upsert seq account_no name_key display_name email st = Ok st' ->
  truthy email = true ->
  exists (i : nat) (t1 : list db_row),
    (exists r0, In r0 t1 /\ db_id r0 = i) /\
    table st' = update_row i (upserted seq account_no name_key display_name email) t1 /\
    (forall r r', In r (table st') -> In r' (table st') ->
                  db_id r = i -> key_clash r r' = true -> db_id r' = i) /\
    ((t1 = table st /\ last_rowid st' = last_rowid st /\
      (exists r0 x, In r0 (table st) /\ db_id r0 = i /\
         ((seq = Some x /\ db_seq r0 = Some x) \/
          (account_no = Some x /\ db_account_no r0 = Some x) \/
          (name_key = Some x /\ db_name_key r0 = Some x)))) \/
     (exists rn, t1 = table st ++ [rn] /\ db_id rn = i /\
        i = S (last_rowid st) /\ last_rowid st' = i /\
        select_id db_seq seq (table st) = None /\
        select_id db_account_no account_no (table st) = None /\
        select_id db_name_key name_key (table st) = None /\
        upserted seq account_no name_key display_name email rn
        = upserted seq account_no name_key display_name email
            {| db_id := i; db_seq := None; db_account_no := None;
               db_name_key := None; db_display_name := db_display_name rn;
               db_email := email |} /\
        (opt_truthy seq || opt_truthy account_no || opt_truthy name_key = false ->
         db_seq rn = None /\ db_account_no rn = None /\ db_name_key rn = None))).
Proof.
  unfold _upsert. intros H T. rewrite T in H. cbn [negb] in H.
  set (rid := match select_id db_seq seq (table st) with
              | Some i => Some i
              | None =>
                  match select_id db_account_no account_no (table st) with
                  | Some i => Some i
                  | None => select_id db_name_key name_key (table st)
                  end
              end) in H.
  assert (Fin : forall i t1 lr,
            (if forallb
                  (fun r => negb (db_id r =? i)
                            || unique_ok
                                 (update_row i
                                    (upserted seq account_no name_key display_name email) t1) r)
                  (update_row i (upserted seq account_no name_key display_name email) t1)
             then Ok {| table := update_row i
                                   (upserted seq account_no name_key display_name email) t1;
                        last_rowid := lr |}
             else Raise IntegrityError) = Ok st' ->
            table st' = update_row i (upserted seq account_no name_key display_name email) t1 /\
            last_rowid st' = lr /\
            (forall r r', In r (table st') -> In r' (table st') ->
                          db_id r = i -> key_clash r r' = true -> db_id r' = i)).
  { intros i t1 lr E.
    destruct (forallb _ _) eqn:F; [|discriminate]. injection E as <-.
    cbn [table last_rowid]. repeat split.
    intros r r' Ir Ir' Di K. rewrite forallb_forall in F.
    specialize (F r Ir). rewrite Di, Nat.eqb_refl in F. cbn in F.
    unfold unique_ok in F. rewrite forallb_forall in F. specialize (F r' Ir').
    apply orb_true_iff in F. destruct F as [F | F].
    - apply Nat.eqb_eq in F. congruence.
    - unfold key_clash in K. rewrite K in F. discriminate F. }
  destruct rid as [i|] eqn:R.
  - cbv beta iota zeta in H.
    apply Fin in H. destruct H as [H1 [H2 H3]].
    exists i, (table st). split; [|split; [exact H1 | split; [exact H3|]]].
    + subst rid.
      destruct (select_id db_seq seq (table st)) eqn:S1;
        [injection R as ->; eapply select_id_In; eassumption|].
      destruct (select_id db_account_no account_no (table st)) eqn:S2;
        [injection R as ->; eapply select_id_In; eassumption|].
      eapply select_id_In; eassumption.
    + left. split; [reflexivity | split; [exact H2|]].
      subst rid.
      destruct (select_id db_seq seq (table st)) eqn:S1.
      { injection R as ->. destruct (select_id_key _ _ _ _ S1) as [r0 [x [A [B [C D]]]]].
        exists r0, x. repeat split; try assumption. left. split; assumption. }
      destruct (select_id db_account_no account_no (table st)) eqn:S2.
      { injection R as ->. destruct (select_id_key _ _ _ _ S2) as [r0 [x [A [B [C D]]]]].
        exists r0, x. repeat split; try assumption. right. left. split; assumption. }
      destruct (select_id_key _ _ _ _ R) as [r0 [x [A [B [C D]]]]].
      exists r0, x. repeat split; try assumption. right. right. split; assumption.
  - cbv zeta in H.
    assert (N : select_id db_seq seq (table st) = None /\
                select_id db_account_no account_no (table st) = None /\
                select_id db_name_key name_key (table st) = None).
    { subst rid. destruct (select_id db_seq seq (table st)); [discriminate|].
      destruct (select_id db_account_no account_no (table st)); [discriminate|].
      repeat split. exact R. }
    destruct N as [N1 [N2 N3]].
    cbv beta iota zeta in H. cbn [table last_rowid] in H.
    apply Fin in H. destruct H as [H1 [H2 H3]].
    match type of H1 with
    | _ = update_row _ _ (_ ++ [?x]) => set (rn := x) in *
    end.
    exists (S (last_rowid st)), (table st ++ [rn]).
    split; [|split; [exact H1 | split; [exact H3|]]].
    + exists rn. split; [apply in_or_app; right; left; reflexivity|].
      subst rn. destruct (opt_truthy seq || opt_truthy account_no || opt_truthy name_key);
        reflexivity.
    + right. exists rn.
      assert (D : db_id rn = S (last_rowid st)).
      { subst rn. destruct (opt_truthy seq || opt_truthy account_no || opt_truthy name_key);
          reflexivity. }
      split; [reflexivity|]. split; [exact D|]. split; [reflexivity|].
      split; [exact H2|]. split; [exact N1|]. split; [exact N2|].
      split; [exact N3|]. split.
      * subst rn. unfold upserted.
        destruct (opt_truthy seq || opt_truthy account_no || opt_truthy name_key);
          cbn; [|reflexivity].
        destruct seq, account_no, name_key; reflexivity.
      * subst rn. intros ->. repeat split.
Qed.


Lemma In_update_row_id (i : nat) (f : db_row -> db_row) (t : list db_row) (r : db_row) :
  (forall r0, db_id (f r0) = db_id r0) ->
  In r (update_row i f t) -> db_id r = i -> exists r0, In r0 t /\ db_id r0 = i /\ r = f r0.
Proof.
  intros Fi I D. apply In_update_row in I. destruct I as [r0 [I E]].
  destruct (db_id r0 =? i) eqn:B.
  - apply Nat.eqb_eq in B. exists r0. repeat split; assumption.
  - subst r. apply Nat.eqb_neq in B. contradiction.
Qed.


Section Remember.
Context `{U : Unicode}.

Lemma _clean_email_Some (x : str) :
  _clean_email (Some x) = if truthy (strip x) then Some (lower (strip x)) else None.
Proof.
  unfold _clean_email. rewrite _clean_Some.
  destruct (truthy (strip x)) eqn:T; [rewrite T|]; reflexivity.
Qed.


End Remember.



(** ** The address book: what the table keeps *)

Lemma clash_iff (col : db_row -> option str) (r r' : db_row) :
  clash col r r' = true <-> exists v, col r = Some v /\ col r' = Some v.
Proof.
  unfold clash, col_is. split.
  - destruct (col r) as [v|]; [|discriminate].
    destruct (col r') as [v'|]; [|discriminate].
    intros E. apply str_eqb_eq in E. subst. exists v. split; reflexivity.
  - intros [v [-> ->]]. apply str_eqb_eq. reflexivity.
Qed.

Lemma key_given_iff (k : option str) (col : db_row -> option str) (r : db_row) :
  key_given k col r = true <-> exists v, k = Some v /\ col r = Some v.
Proof.
  unfold key_given, col_is. split.
  - destruct k as [v|]; [|discriminate].
    destruct (col r) as [v'|]; [|discriminate].
    intros E. apply str_eqb_eq in E. subst. exists v. split; reflexivity.
  - intros [v [-> ->]]. apply str_eqb_eq. reflexivity.
Qed.

Lemma key_clash_col (s a n : option str) (r r' : db_row) :
  key_clash r r' = true <-> exists c k, column_of s a n c k /\ clash c r r' = true.
Proof.
  unfold key_clash, column_of. split.
  - intros K. apply orb_true_iff in K. destruct K as [K | K];
      [apply orb_true_iff in K; destruct K as [K | K]|].
    + exists db_seq, s. split; [left; split; reflexivity | exact K].
    + exists db_account_no, a. split; [right; left; split; reflexivity | exact K].
    + exists db_name_key, n. split; [right; right; split; reflexivity | exact K].
  - intros [c [k [[[-> _] | [[-> _] | [-> _]]] K]]]; rewrite K, ?orb_true_r; reflexivity.
Qed.

Lemma holds_key_col (s a n : option str) (r : db_row) :
  holds_key s a n r = true <-> exists c k, column_of s a n c k /\ key_given k c r = true.
Proof.
  unfold holds_key, column_of. split.
  - intros K. apply orb_true_iff in K. destruct K as [K | K];
      [apply orb_true_iff in K; destruct K as [K | K]|].
    + exists db_seq, s. split; [left; split; reflexivity | exact K].
    + exists db_account_no, a. split; [right; left; split; reflexivity | exact K].
    + exists db_name_key, n. split; [right; right; split; reflexivity | exact K].
  - intros [c [k [[[-> ->] | [[-> ->] | [-> ->]]] K]]]; rewrite K, ?orb_true_r; reflexivity.
Qed.

Lemma upserted_col (s a n d : option str) (e : str) (c : db_row -> option str)
  (k : option str) (r : db_row) :
  column_of s a n c k -> c (upserted s a n d e r) = coalesce k (c r).
Proof. intros [[-> ->] | [[-> ->] | [-> ->]]]; reflexivity. Qed.

Lemma key_clash_sym (r r' : db_row) : key_clash r r' = true -> key_clash r' r = true.
Proof.
  intros K. apply (key_clash_col None None None) in K.
  destruct K as [c [k [C K]]]. apply (key_clash_col None None None).
  exists c, k. split; [exact C|]. apply clash_iff in K. destruct K as [v [A B]].
  apply clash_iff. exists v. split; assumption.
Qed.

Lemma map_id_update_row (i : nat) (f : db_row -> db_row) (t : list db_row) :
  (forall r, db_id (f r) = db_id r) ->
  List.map db_id (update_row i f t) = List.map db_id t.
Proof.
  intros F. unfold update_row. rewrite map_map. apply map_ext.
  intros r. destruct (db_id r =? i); [apply F | reflexivity].
Qed.

Lemma In_update_row_other (i : nat) (f : db_row -> db_row) (t : list db_row) (r : db_row) :
  (forall r0, db_id (f r0) = db_id r0) ->
  db_id r <> i -> (In r (update_row i f t) <-> In r t).
Proof.
  intros F D. rewrite In_update_row. split.
  - intros [r0 [I E]]. destruct (db_id r0 =? i) eqn:X.
    + apply Nat.eqb_eq in X. subst r. rewrite F in D. contradiction.
    + subst r. exact I.
  - intros I. exists r. split; [exact I|].
    apply Nat.eqb_neq in D. rewrite D. reflexivity.
Qed.

Lemma upsert_ok (seq account_no name_key display_name : option str)
  (email : str) (st st' : EmailStore) :
  store_ok st ->
  _upsert seq account_no name_key display_name email st = Ok st' ->
  store_ok st' /\ last_rowid st <= last_rowid st' /\
  exists l, List.map db_id (table st') = List.map db_id (table st) ++ l /\
            List.length l <= 1.
Proof.
  intros [N [B [E Q]]] H.
  destruct (truthy email) eqn:T.
  2:{ unfold _upsert in H. rewrite T in H. cbn in H. injection H as <-.
      split; [repeat split; assumption|]. split; [lia|].
      exists []. rewrite app_nil_r. split; [reflexivity | cbn; lia]. }
  destruct (upsert_shape _ _ _ _ _ _ _ H T) as [i [t1 [[r00 [I00 D00]] [Et [Uq Cases]]]]].
  set (up := upserted seq account_no name_key display_name email) in *.
  assert (Ids : List.map db_id (table st') = List.map db_id t1)
    by (rewrite Et; apply map_id_update_row; reflexivity).
  assert (T1 : (t1 = table st /\ last_rowid st' = last_rowid st) \/
               (exists rn, t1 = table st ++ [rn] /\ db_id rn = i /\
                           i = S (last_rowid st) /\ last_rowid st' = i)).
  { destruct Cases as [[A [B' _]] | [rn [A [B' [C [D _]]]]]];
      [left; tauto | right; exists rn; tauto]. }
  rewrite Forall_forall in B, E.
  assert (Old : forall r, In r (table st') -> db_id r <> i -> In r (table st)).
  { intros r I D. rewrite Et in I.
    apply (In_update_row_other i up t1 r (fun _ => eq_refl) D) in I.
    destruct T1 as [[-> _] | [rn [-> [Dn _]]]]; [exact I|].
    apply in_app_or in I. destruct I as [I | [<- | []]]; [exact I | contradiction]. }
  split; [split; [|split; [|split]]|split].
  - rewrite Ids. destruct T1 as [[-> _] | [rn [-> [Dn [Di _]]]]]; [exact N|].
    rewrite map_app. apply NoDup_app; [exact N | repeat constructor; intros [] |].
    intros a Ia [<- | []]. apply in_map_iff in Ia. destruct Ia as [r [Er Ir]].
    apply B in Ir. lia.
  - apply Forall_forall. intros r I.
    destruct (Nat.eq_dec (db_id r) i) as [D | D].
    + destruct T1 as [[-> L] | [rn [_ [_ [_ L]]]]]; [|lia].
      rewrite L, D, <- D00. apply B. exact I00.
    + apply (Old r I) in D. apply B in D.
      destruct T1 as [[_ L] | [rn [_ [_ [Di L]]]]]; lia.
  - apply Forall_forall. intros r I.
    destruct (Nat.eq_dec (db_id r) i) as [D | D].
    + rewrite Et in I.
      destruct (In_update_row_id i up t1 r (fun _ => eq_refl) I D) as [r0 [_ [_ ->]]].
      exact T.
    + apply E. apply Old; assumption.
  - intros r r' I I' K.
    destruct (Nat.eq_dec (db_id r) i) as [D | D].
    { rewrite D. symmetry. apply (Uq r r' I I' D K). }
    destruct (Nat.eq_dec (db_id r') i) as [D' | D'].
    { rewrite D'. apply (Uq r' r I' I D'). apply key_clash_sym. exact K. }
    apply Q; [apply Old | apply Old | exact K]; assumption.
  - destruct T1 as [[_ L] | [rn [_ [_ [Di L]]]]]; lia.
  - rewrite Ids. destruct T1 as [[-> _] | [rn [-> _]]].
    + exists []. rewrite app_nil_r. split; [reflexivity | cbn; lia].
    + exists [db_id rn]. rewrite map_app. split; [reflexivity | cbn; lia].
Qed.

(** X2: [_upsert] keeps the table well-formed (distinct row ids below
    [last_rowid], no key in two rows, no empty email); it deletes no row and
    adds at most one, at the end. *)
Theorem upsert_keeps_store_ok :
  forall (seq account_no name_key display_name : option str)
         (email : str) (st st' : EmailStore),
    store_ok st ->
    _upsert seq account_no name_key display_name email st = Ok st' ->
    store_ok st' /\ last_rowid st <= last_rowid st' /\
    exists l, List.map db_id (table st') = List.map db_id (table st) ++ l /\
              List.length l <= 1.
Proof. exact upsert_ok. Qed.

Lemma two_addresses_ok : store_ok two_addresses.
Proof.
  unfold store_ok. split; [|split; [|split]].
  - cbn. apply NoDup_cons; [intros [D | []]; discriminate D|].
    apply NoDup_cons; [intros [] | apply NoDup_nil].
  - cbn. repeat constructor.
  - cbn. repeat constructor.
  - intros r r' I I' K. cbn in I, I'.
    destruct I as [<- | [<- | []]], I' as [<- | [<- | []]];
      try reflexivity; vm_compute in K; discriminate K.
Qed.

Lemma upsert_keeps_store_ok_witness :
  store_ok (remembered two_addresses (identified (u "7") (u "") (u "Ann Lee"))
              (u " Ann@X.org ")) /\
  List.length (table (remembered two_addresses (identified (u "7") (u "") (u "Ann Lee"))
                        (u " Ann@X.org "))) = 3.
Proof.
  destruct (upsert_keeps_store_ok (Some (u "7")) None (Some (u "ann lee"))
              (Some (u "Ann Lee")) (u "ann@x.org") two_addresses
              (remembered two_addresses (identified (u "7") (u "") (u "Ann Lee"))
                 (u " Ann@X.org ")) two_addresses_ok) as [S1 _].
  - vm_compute. reflexivity.
  - split; [exact S1 | vm_compute; reflexivity].
Defined.

Lemma update_row_fresh (i : nat) (f : db_row -> db_row) (t : list db_row) (rn : db_row) :
  (forall r, In r t -> db_id r <> i) -> db_id rn = i ->
  update_row i f (t ++ [rn]) = t ++ [f rn].
Proof.
  intros F D. unfold update_row. rewrite map_app. cbn [List.map].
  rewrite D, Nat.eqb_refl. f_equal.
  rewrite <- (map_id t) at 2. apply map_ext_in. intros r I.
  apply F in I. apply Nat.eqb_neq in I. rewrite I. reflexivity.
Qed.

Lemma select_email_snoc (col : db_row -> option str) (v : option str)
  (t : list db_row) (r : db_row) :
  col r = None -> select_email col v (t ++ [r]) = select_email col v t.
Proof.
  intros C. unfold select_email. destruct v as [x|]; [|reflexivity].
  destruct (truthy x); [|reflexivity]. f_equal.
  induction t as [|r0 t IH]; cbn.
  - unfold col_is. rewrite C. reflexivity.
  - destruct (col_is col x r0); [reflexivity | exact IH].
Qed.

(** [_upsert] without a key: a row without keys is appended. *)
Lemma upsert_no_key (d : option str) (email : str) (st : EmailStore) :
  store_ok st -> truthy email = true ->
  exists rn,
    _upsert None None None d email st
    = Ok {| table := table st ++ [rn]; last_rowid := S (last_rowid st) |} /\
    db_seq rn = None /\ db_account_no rn = None /\ db_name_key rn = None.
Proof.
  intros [N [B [E Q]]] T. rewrite Forall_forall in B.
  unfold _upsert. rewrite T. cbn [negb select_id opt_truthy orb].
  cbv beta iota zeta. cbn [table last_rowid].
  match goal with
  | |- context [update_row _ ?f (table st ++ [?r])] =>
      set (up := f); set (rn := r)
  end.
  assert (F : forall r, In r (table st) -> db_id r <> S (last_rowid st)).
  { intros r I. apply B in I. lia. }
  rewrite (update_row_fresh (S (last_rowid st)) up (table st) rn F eq_refl).
  exists (up rn).
  assert (C : forallb
                (fun r => negb (db_id r =? S (last_rowid st))
                          || unique_ok (table st ++ [up rn]) r)
                (table st ++ [up rn]) = true).
  { apply forallb_forall. intros r I. apply in_app_or in I.
    destruct I as [I | [<- | []]].
    - apply F in I. apply Nat.eqb_neq in I. rewrite I. reflexivity.
    - apply orb_true_iff. right. unfold unique_ok. apply forallb_forall.
      intros r' _. apply orb_true_r. }
  rewrite C. repeat split.
Qed.

Section Anonymous.
Context `{U : Unicode}.

Lemma remember_without_identity_holds (st : EmailStore) (emp : employee) (addr : str) :
  store_ok st -> has_identity emp = false -> truthy (strip addr) = true ->
  exists st',
    remember_from_employee st emp (Some addr) = Ok st' /\
    List.length (table st') = S (List.length (table st)) /\
    forall s a n, lookup st' s a n = lookup st s a n.
Proof.
  intros S0 Id Te. unfold has_identity in Id.
  apply orb_false_iff in Id. destruct Id as [Id Tn].
  apply orb_false_iff in Id. destruct Id as [Ts Ta].
  assert (Tl : truthy (lower (strip addr)) = true) by (rewrite lower_truthy; exact Te).
  unfold remember_from_employee.
  rewrite _clean_email_Some, Te, Tl, !_clean_Some, _clean_lower_Some, Ts, Ta, Tn.
  destruct (upsert_no_key None (lower (strip addr)) st S0 Tl) as [rn [H [C1 [C2 C3]]]].
  rewrite H. eexists. split; [reflexivity|]. cbn [table]. split.
  - rewrite length_app. cbn. lia.
  - intros s a n. unfold lookup. cbn [table].
    rewrite !select_email_snoc by assumption. reflexivity.
Qed.

Lemma apply_to_employees_idem (st : EmailStore) (emps : list employee) :
  apply_to_employees st (apply_to_employees st emps) = apply_to_employees st emps.
Proof.
  unfold apply_to_employees. rewrite map_map. apply map_ext. intros e.
  rewrite !_clean_email_truthy.
  destruct (truthy (strip (email e))) eqn:T.
  - rewrite T. reflexivity.
  - destruct (lookup st (Some (seq e)) (Some (account_no e)) (Some (name e)))
      as [a|] eqn:L.
    + destruct (truthy a) eqn:A.
      * cbn [email seq account_no name set_email]. rewrite L, A.
        destruct (truthy (strip a)); reflexivity.
      * rewrite T, L, A. reflexivity.
    + rewrite T, L. reflexivity.
Qed.

End Anonymous.

(** X3: remembering an address for an entry whose sequence number, account
    number and name are all blank returns, adds one row to a well-formed
    table, and changes the answer of no [lookup]: the address is stored
    where nothing finds it. *)
Theorem remember_without_identity :
  forall (U : Unicode) (st : EmailStore) (emp : employee) (addr : str),
    store_ok st -> has_identity emp = false -> truthy (strip addr) = true ->
    exists st',
      remember_from_employee st emp (Some addr) = Ok st' /\
      List.length (table st') = S (List.length (table st)) /\
      forall s a n, lookup st' s a n = lookup st s a n.
Proof. intros U. exact remember_without_identity_holds. Qed.

Lemma remember_without_identity_witness :
  exists st',
    @remember_from_employee ascii_tables {| table := []; last_rowid := 0 |}
      (identified (u " ") (u "") (u "")) (Some (u "x@y.org")) = Ok st' /\
    List.length (table st') = 1 /\
    forall s a n,
      @lookup ascii_tables st' s a n
      = @lookup ascii_tables {| table := []; last_rowid := 0 |} s a n.
Proof.
  apply (remember_without_identity ascii_tables {| table := []; last_rowid := 0 |}
           (identified (u " ") (u "") (u "")) (u "x@y.org")).
  - unfold store_ok. cbn. repeat split; try constructor. intros r r' [].
  - vm_compute. reflexivity.
  - vm_compute. reflexivity.
Defined.

(** X4: [apply_to_employees] is idempotent: a second pass over the entries
    with the same table changes nothing. *)
Theorem apply_to_employees_idempotent :
  forall (U : Unicode) (st : EmailStore) (emps : list employee),
    apply_to_employees st (apply_to_employees st emps) = apply_to_employees st emps.
Proof. intros U. exact apply_to_employees_idem. Qed.

(** ** The address book: when remembering fails *)

Lemma forallb_false_ex {A} (f : A -> bool) (l : list A) :
  forallb f l = false -> exists x, In x l /\ f x = false.
Proof.
  induction l as [|a l IH]; cbn; [discriminate|].
  destruct (f a) eqn:F; cbn.
  - intros E. destruct (IH E) as [x [I X]]. exists x. split; [right; exact I | exact X].
  - intros _. exists a. split; [left; reflexivity | exact F].
Qed.

(** [_upsert] as one UPDATE of the rows of one id, found or inserted, and
    the check of the UNIQUE columns. *)
Lemma upsert_unfold (seq account_no name_key display_name : option str)
  (email : str) (st : EmailStore) :
  truthy email = true ->
  exists (i : nat) (t1 : list db_row) (lr : nat),
    _upsert seq account_no name_key display_name email st
    = (if forallb
            (fun r => negb (db_id r =? i)
                      || unique_ok
                           (update_row i
                              (upserted seq account_no name_key display_name email) t1) r)
            (update_row i (upserted seq account_no name_key display_name email) t1)
       then Ok {| table := update_row i
                             (upserted seq account_no name_key display_name email) t1;
                  last_rowid := lr |}
       else Raise IntegrityError) /\
    ((t1 = table st /\
      exists c k rf, column_of seq account_no name_key c k /\
                     In rf (table st) /\ db_id rf = i /\ key_given k c rf = true /\
                     lr = last_rowid st) \/
     (exists rn, t1 = table st ++ [rn] /\ db_id rn = i /\ i = S (last_rowid st) /\
        (forall c k, column_of seq account_no name_key c k ->
                     select_id c k (table st) = None) /\
        (forall c k, column_of seq account_no name_key c k ->
                     c (upserted seq account_no name_key display_name email rn) = k))).
Proof.
  intros T. unfold _upsert. rewrite T. cbn [negb].
  set (rid := match select_id db_seq seq (table st) with
              | Some i => Some i
              | None =>
                  match select_id db_account_no account_no (table st) with
                  | Some i => Some i
                  | None => select_id db_name_key name_key (table st)
                  end
              end).
  assert (K : forall c k i, select_id c k (table st) = Some i ->
                exists rf, In rf (table st) /\ db_id rf = i /\ key_given k c rf = true /\
                           last_rowid st = last_rowid st).
  { intros c k i S1. destruct (select_id_key _ _ _ _ S1) as [r0 [x [A [B [C D]]]]].
    exists r0. repeat split; try assumption. apply key_given_iff. exists x. tauto. }
  destruct rid as [i|] eqn:R.
  - cbv beta iota zeta. exists i, (table st), (last_rowid st).
    split; [reflexivity|]. left. split; [reflexivity|]. subst rid.
    destruct (select_id db_seq seq (table st)) eqn:S1.
    { injection R as ->. destruct (K _ _ _ S1) as [rf F].
      exists db_seq, seq, rf. split; [left; split; reflexivity | exact F]. }
    destruct (select_id db_account_no account_no (table st)) eqn:S2.
    { injection R as ->. destruct (K _ _ _ S2) as [rf F].
      exists db_account_no, account_no, rf.
      split; [right; left; split; reflexivity | exact F]. }
    destruct (K _ _ _ R) as [rf F].
    exists db_name_key, name_key, rf.
    split; [right; right; split; reflexivity | exact F].
  - cbv beta iota zeta. cbn [table last_rowid].
    match goal with
    | |- context [update_row _ _ (table st ++ [?r])] => set (rn := r)
    end.
    exists (S (last_rowid st)), (table st ++ [rn]), (S (last_rowid st)).
    split; [reflexivity|]. right. exists rn.
    split; [reflexivity|]. split.
    { subst rn. destruct (opt_truthy seq || opt_truthy account_no || opt_truthy name_key);
        reflexivity. }
    split; [reflexivity|]. split.
    + subst rid. destruct (select_id db_seq seq (table st)) eqn:S1; [discriminate|].
      destruct (select_id db_account_no account_no (table st)) eqn:S2; [discriminate|].
      intros c k [[-> ->] | [[-> ->] | [-> ->]]]; [exact S1 | exact S2 | exact R].
    + intros c k [[-> ->] | [[-> ->] | [-> ->]]]; subst rn;
        destruct (opt_truthy seq || opt_truthy account_no || opt_truthy name_key);
        cbn; destruct seq, account_no, name_key; reflexivity.
Qed.

Lemma upsert_raise_iff (seq account_no name_key display_name : option str)
  (email : str) (st : EmailStore) :
  store_ok st -> truthy email = true ->
  (forall c k v, column_of seq account_no name_key c k -> k = Some v -> truthy v = true) ->
  ((exists x, _upsert seq account_no name_key display_name email st = Raise x) <->
   exists r r', In r (table st) /\ In r' (table st) /\ db_id r <> db_id r' /\
                holds_key seq account_no name_key r = true /\
                holds_key seq account_no name_key r' = true).
Proof.
  intros [N [B [E Q]]] T Tk.
  destruct (upsert_unfold seq account_no name_key display_name email st T)
    as [i [t1 [lr [H Cases]]]].
  rewrite H. clear H.
  set (up := upserted seq account_no name_key display_name email) in *.
  set (t2 := update_row i up t1) in *.
  rewrite Forall_forall in B.
  split.
  - intros [x X]. destruct (forallb _ t2) eqn:F; [discriminate|]. clear X.
    apply forallb_false_ex in F. destruct F as [r1 [I1 F]].
    apply orb_false_iff in F. destruct F as [F1 F2].
    apply negb_false_iff in F1. apply Nat.eqb_eq in F1.
    unfold unique_ok in F2. apply forallb_false_ex in F2. destruct F2 as [r' [I' F2]].
    apply orb_false_iff in F2. destruct F2 as [F3 F4]. apply Nat.eqb_neq in F3.
    apply negb_false_iff in F4. change (key_clash r1 r' = true) in F4.
    rewrite F1 in F3.
    destruct (In_update_row_id i up t1 r1 (fun _ => eq_refl) I1 F1) as [r0 [I0 [D0 ->]]].
    apply (proj1 (In_update_row_other i up t1 r' (fun _ => eq_refl) F3)) in I'.
    apply (key_clash_col seq account_no name_key) in F4. destruct F4 as [c [k [Ck F4]]].
    apply clash_iff in F4. destruct F4 as [v [V1 V2]].
    destruct Cases as [[-> [c0 [k0 [rf [Ck0 [If [Df [Kf _]]]]]]]] | [rn [-> [Dn [Di [Sel Cn]]]]]].
    + unfold up in V1. rewrite (upserted_col _ _ _ _ _ c k r0 Ck) in V1.
      destruct k as [kv|]; cbn [coalesce] in V1.
      * injection V1 as ->. exists rf, r'. repeat split; try assumption.
        -- rewrite Df. intros X. apply F3. symmetry. exact X.
        -- apply holds_key_col. exists c0, k0. split; assumption.
        -- apply holds_key_col. exists c, (Some v). split; [exact Ck|].
           apply key_given_iff. exists v. split; [reflexivity | exact V2].
      * exfalso. apply F3. symmetry. rewrite <- D0. apply Q; try assumption.
        apply (key_clash_col seq account_no name_key). exists c, None.
        split; [exact Ck|]. apply clash_iff. exists v. split; assumption.
    + exfalso.
      apply in_app_or in I0. destruct I0 as [I0 | [<- | []]].
      { apply B in I0. lia. }
      apply in_app_or in I'. destruct I' as [I' | [<- | []]]; [|exact (F3 Dn)].
      rewrite (Cn c k Ck) in V1. subst k.
      apply (select_id_None c v (table st) (Sel c (Some v) Ck)
               (Tk c (Some v) v Ck eq_refl) r' I' V2).
  - intros [r [r' [I [I' [D [K K']]]]]].
    destruct Cases as [[-> [c0 [k0 [rf [Ck0 [If [Df [Kf _]]]]]]]] | [rn [-> [Dn [Di [Sel Cn]]]]]].
    + assert (X : exists rb, In rb (table st) /\ db_id rb <> i /\
                             holds_key seq account_no name_key rb = true).
      { destruct (Nat.eq_dec (db_id r) i) as [Y | Y].
        - exists r'. repeat split; try assumption. intros Z. apply D. congruence.
        - exists r. repeat split; assumption. }
      destruct X as [rb [Ib [Db Kb]]].
      apply holds_key_col in Kb. destruct Kb as [c [k [Ck Kb]]].
      apply key_given_iff in Kb. destruct Kb as [v [-> Vb]].
      destruct (forallb _ t2) eqn:F; [|exists IntegrityError; reflexivity]. exfalso.
      rewrite forallb_forall in F.
      assert (I2 : In (up rf) t2).
      { apply In_update_row. exists rf. split; [exact If|].
        rewrite Df, Nat.eqb_refl. reflexivity. }
      specialize (F (up rf) I2). change (db_id (up rf)) with (db_id rf) in F.
      rewrite Df, Nat.eqb_refl in F. cbn [negb orb] in F.
      unfold unique_ok in F. rewrite forallb_forall in F.
      assert (Ib2 : In rb t2).
      { apply (proj2 (In_update_row_other i up (table st) rb (fun _ => eq_refl) Db)).
        exact Ib. }
      specialize (F rb Ib2). change (db_id (up rf)) with (db_id rf) in F.
      rewrite Df in F. apply Nat.eqb_neq in Db. rewrite Db in F. cbn [orb] in F.
      apply negb_true_iff in F. change (key_clash (up rf) rb = false) in F.
      assert (KC : key_clash (up rf) rb = true).
      { apply (key_clash_col seq account_no name_key). exists c, (Some v).
        split; [exact Ck|]. apply clash_iff. exists v. split; [|exact Vb].
        unfold up. rewrite (upserted_col _ _ _ _ _ c (Some v) rf Ck). reflexivity. }
      congruence.
    + exfalso. apply holds_key_col in K. destruct K as [c [k [Ck K]]].
      apply key_given_iff in K. destruct K as [v [-> V]].
      apply (select_id_None c v (table st) (Sel c (Some v) Ck)
               (Tk c (Some v) v Ck eq_refl) r I V).
Qed.

(** X5: on a well-formed table, remembering an address raises exactly when
    the keys of the entry (sequence number, account number, name in lower
    case) lie in two different rows; the UNIQUE columns then refuse the
    update, [remember_employee_email] swallows the error, and the table
    stays as it was. *)
Theorem remember_raises_iff :
  forall (U : Unicode) (st : EmailStore) (emp : employee) (addr : str),
    store_ok st -> truthy (strip addr) = true ->
    ((exists x, remember_from_employee st emp (Some addr) = Raise x) <->
     keys_in_two_rows st emp) /\
    (keys_in_two_rows st emp ->
     remember_employee_email (Some st) emp addr = Some st).
Proof.
  intros U st emp addr S0 Te.
  assert (Tl : truthy (lower (strip addr)) = true) by (rewrite lower_truthy; exact Te).
  assert (R : (exists x, remember_from_employee st emp (Some addr) = Raise x) <->
              keys_in_two_rows st emp).
  { unfold remember_from_employee, keys_in_two_rows, holds_key_of.
    rewrite _clean_email_Some, Te, Tl.
    apply upsert_raise_iff; [exact S0 | exact Tl |].
    intros c k v [[_ ->] | [[_ ->] | [_ ->]]] Hk.
    - rewrite _clean_Some in Hk. destruct (truthy (strip (seq emp))) eqn:X; [|discriminate].
      injection Hk as <-. exact X.
    - rewrite _clean_Some in Hk.
      destruct (truthy (strip (account_no emp))) eqn:X; [|discriminate].
      injection Hk as <-. exact X.
    - rewrite _clean_lower_Some in Hk.
      destruct (truthy (strip (name emp))) eqn:X; [|discriminate].
      injection Hk as <-. rewrite lower_truthy. exact X. }
  split; [exact R|].
  intros K. apply R in K. destruct K as [x K].
  unfold remember_employee_email. rewrite K. reflexivity.
Qed.

Lemma remember_raises_iff_witness :
  (exists x, @remember_from_employee ascii_tables two_addresses
               (identified (u "1") (u "") (u "Cy")) (Some (u "cy@y.org")) = Raise x) /\
  @remember_employee_email ascii_tables (Some two_addresses)
    (identified (u "1") (u "") (u "Cy")) (u "cy@y.org") = Some two_addresses.
Proof.
  assert (T : truthy (strip (u "cy@y.org")) = true) by (vm_compute; reflexivity).
  assert (K : @keys_in_two_rows ascii_tables two_addresses
                (identified (u "1") (u "") (u "Cy"))).
  { exists (nth 0 (table two_addresses) (upserted None None None None [] 
                                            {| db_id := 0; db_seq := None;
                                               db_account_no := None; db_name_key := None;
                                               db_display_name := None; db_email := [] |})),
           (nth 1 (table two_addresses) (upserted None None None None []
                                            {| db_id := 0; db_seq := None;
                                               db_account_no := None; db_name_key := None;
                                               db_display_name := None; db_email := [] |})).
    cbn [nth table two_addresses].
    split; [left; reflexivity|]. split; [right; left; reflexivity|].
    split; [cbn; discriminate|]. split; vm_compute; reflexivity. }
  destruct (remember_raises_iff ascii_tables two_addresses
              (identified (u "1") (u "") (u "Cy")) (u "cy@y.org") two_addresses_ok T)
    as [R S].
  split; [apply R; exact K | apply S; exact K].
Defined.

(** ** The outcome of the two passes over the file *)

Section Outcome.
Context `{U : Unicode}.

Lemma columns_of_flat_map (g : nat * str -> list period) (test : str -> bool) :
  (forall i h, List.map column_index (g (i, h)) = if test h then [i] else []) ->
  forall l pre : list str,
    List.map column_index
      (flat_map g (combine (List.seq (List.length pre) (List.length l)) l))
    = filter (fun i => test (nth i (pre ++ l) []))
        (List.seq (List.length pre) (List.length l)).
Proof.
  intros G. induction l as [|h l IH]; intros pre; [reflexivity|].
  cbn [List.length List.seq combine flat_map filter].
  rewrite map_app, G, nth_middle.
  specialize (IH (pre ++ [h])). rewrite length_app in IH. cbn [List.length] in IH.
  rewrite Nat.add_1_r, <- app_assoc in IH. cbn [app] in IH.
  rewrite IH. destruct (test h); reflexivity.
Qed.

Lemma detected_columns (hs : list str) :
  List.map column_index (flat_map detected_period (enumerate hs))
  = filter (fun i => _is_period_header (nth i hs [])) (List.seq 0 (List.length hs)).
Proof.
  apply (columns_of_flat_map detected_period _is_period_header) with (pre := []).
  intros i h. unfold detected_period. destruct (_is_period_header h); reflexivity.
Qed.

Lemma header_columns (hs : list str) :
  List.map column_index (flat_map period_of_header (enumerate hs))
  = filter (fun i => _is_period_header (nth i hs [])) (List.seq 0 (List.length hs)).
Proof.
  apply (columns_of_flat_map period_of_header _is_period_header) with (pre := []).
  intros i h. unfold period_of_header. destruct (_is_period_header h); reflexivity.
Qed.

Lemma detected_shape (hs : list str) :
  Forall (fun p => hours_col p = column_index p /\ amount_col p = None)
    (flat_map detected_period (enumerate hs)).
Proof.
  apply Forall_forall. intros p I. apply in_flat_map in I.
  destruct I as [[i h] [_ I]]. unfold detected_period in I.
  destruct (_is_period_header h); [|destruct I].
  destruct I as [<- | []]. split; reflexivity.
Qed.

Lemma detect_loop_outcome (encs : list encoding) (file : csv_file) :
  forall (st st' : processor) (r : result bool),
    self_periods st = [] ->
    detect_periods_loop encs file st = (r, st') ->
    self_employees st' = self_employees st /\
    self_email_store st' = self_email_store st /\
    (r = Ok true <-> self_periods st' <> []) /\
    (r = Ok true ->
     exists enc rows h,
       In enc encs /\ file enc = Some rows /\ find_per_hour rows 0 = Some h /\
       self_merged_headers st' = Some (merge_headers rows h) /\
       self_periods st' = flat_map detected_period (enumerate (merge_headers rows h))).
Proof.
  induction encs as [|enc encs IH]; intros st st' r P H; cbn [detect_periods_loop] in H.
  - injection H as <- <-. repeat split; try discriminate.
    intros X. contradiction.
  - assert (Next : forall st1,
              self_periods st1 = [] ->
              self_employees st1 = self_employees st ->
              self_email_store st1 = self_email_store st ->
              detect_periods_loop encs file st1 = (r, st') ->
              self_employees st' = self_employees st /\
              self_email_store st' = self_email_store st /\
              (r = Ok true <-> self_periods st' <> []) /\
              (r = Ok true ->
               exists enc0 rows h,
                 In enc0 (enc :: encs) /\ file enc0 = Some rows /\
                 find_per_hour rows 0 = Some h /\
                 self_merged_headers st' = Some (merge_headers rows h) /\
                 self_periods st'
                 = flat_map detected_period (enumerate (merge_headers rows h)))).
    { intros st1 P1 E1 S1 H1. destruct (IH st1 st' r P1 H1) as [A [B [C D]]].
      split; [congruence|]. split; [congruence|]. split; [exact C|].
      intros X. destruct (D X) as [enc0 [rows [h [I R]]]].
      exists enc0, rows, h. split; [right; exact I | exact R]. }
    destruct (file enc) as [rows|] eqn:F; [|apply (Next st P eq_refl eq_refl H)].
    destruct (find_per_hour rows 0) as [h|] eqn:Ph.
    + cbn [self_periods set_self_periods set_self_merged_headers] in H.
      rewrite P in H. cbn [app] in H.
      destruct (flat_map detected_period (enumerate (merge_headers rows h)))
        as [|p ps] eqn:D.
      * eapply Next; [| | | exact H]; reflexivity.
      * injection H as <- <-.
        cbn [self_employees self_email_store self_periods self_merged_headers
             set_self_periods set_self_merged_headers].
        split; [reflexivity|]. split; [reflexivity|].
        split; [split; [intros _; discriminate | reflexivity]|].
        intros _. exists enc, rows, h. split; [left; reflexivity|].
        split; [exact F|]. split; [exact Ph|].
        split; [reflexivity | symmetry; exact D].
    + rewrite fallback_header_row_spec in H.
      destruct (existsb (existsb truthy) rows).
      * injection H as <- <-. repeat split; try discriminate.
        intros X. contradiction.
      * apply (Next st P eq_refl eq_refl H).
Qed.

Lemma for_rows_store (headers : list str) (hm : list (str * nat))
  (cols : columns) (ps : list period) (rows : list (list str)) :
  forall (emps0 : list employee) (store : option EmailStore),
    fst (for_rows headers hm cols ps rows (emps0, store)) = emps0 ->
    snd (for_rows headers hm cols ps rows (emps0, store)) = store.
Proof.
  induction rows as [|row rows IH]; intros emps0 store; cbn [for_rows];
    [reflexivity|].
  destruct (is_data_row cols row); [|apply IH].
  destruct (process_row headers hm cols ps row store) as [[e s]|x]; [|apply IH].
  intros H. exfalso.
  destruct (for_rows_spec headers hm cols ps rows (emps0 ++ [e]) s) as [es [E _]].
  rewrite E, <- app_assoc in H. rewrite <- (app_nil_r emps0) in H at 2.
  apply app_inv_head in H. discriminate H.
Qed.

Lemma load_with_header_outcome (rows : list (list str)) (h : nat) (st : processor) :
  self_employees st = [] ->
  match load_with_header rows h st with
  | Continue st1 =>
      self_employees st1 = [] /\ self_email_store st1 = self_email_store st
  | Break _ => False
  | Return b st1 =>
      b = true /\ self_employees st1 <> [] /\
      let headers := merge_headers rows h in
      let out := for_rows headers (header_map _norm headers) (resolve_columns headers)
                   (self_periods st1) (skipn (S h) rows) ([], self_email_store st) in
      self_email_store st1 = snd out /\
      self_employees st1
      = match snd out with
        | Some s => apply_to_employees s (fst out)
        | None => fst out
        end
  end.
Proof.
  intros E0. unfold load_with_header. cbv zeta.
  set (hs := merge_headers rows h).
  set (st1 := match self_periods st with
              | [] => set_self_periods (flat_map period_of_header (enumerate hs)) st
              | _ :: _ => st
              end).
  assert (A : self_employees st1 = [] /\ self_email_store st1 = self_email_store st).
  { subst st1. destruct (self_periods st); split; cbn; try assumption; reflexivity. }
  destruct A as [A1 A2]. rewrite A1, A2.
  destruct (for_rows hs (header_map _norm hs) (resolve_columns hs) (self_periods st1)
              (skipn (S h) rows) ([], self_email_store st)) as [es store] eqn:FR.
  destruct es as [|e es].
  - cbn. split; [reflexivity|].
    pose proof (for_rows_store hs (header_map _norm hs) (resolve_columns hs)
                  (self_periods st1) (skipn (S h) rows) [] (self_email_store st)) as S.
    rewrite FR in S. apply S. reflexivity.
  - split; [reflexivity|]. unfold _attach_persistent_emails.
    cbn [self_email_store set_self_email_store set_self_employees self_employees
         self_periods].
    destruct store as [s|];
      cbn [self_email_store set_self_email_store set_self_employees self_employees
           self_periods];
      (split; [unfold apply_to_employees; cbn [List.map]; discriminate|]);
      rewrite FR; split; reflexivity.
Qed.

Lemma load_loop_outcome (encs : list encoding) (file : csv_file) :
  forall (st st' : processor) (b : bool),
    self_employees st = [] ->
    load_loop encs file st = (b, st') ->
    (b = true <-> self_employees st' <> []) /\
    (b = false -> self_email_store st' = self_email_store st) /\
    (b = true ->
     exists enc rows h,
       In enc encs /\ file enc = Some rows /\ find_per_hour rows 0 = Some h /\
       let headers := merge_headers rows h in
       let out := for_rows headers (header_map _norm headers) (resolve_columns headers)
                    (self_periods st') (skipn (S h) rows) ([], self_email_store st) in
       self_email_store st' = snd out /\
       self_employees st'
       = match snd out with
         | Some s => apply_to_employees s (fst out)
         | None => fst out
         end).
Proof.
  induction encs as [|enc encs IH]; intros st st' b E0 H; cbn [load_loop] in H.
  - injection H as <- <-. repeat split; try discriminate. intros X. contradiction.
  - assert (Next : forall st1,
              self_employees st1 = [] ->
              self_email_store st1 = self_email_store st ->
              load_loop encs file st1 = (b, st') ->
              (b = true <-> self_employees st' <> []) /\
              (b = false -> self_email_store st' = self_email_store st) /\
              (b = true ->
               exists enc0 rows h,
                 In enc0 (enc :: encs) /\ file enc0 = Some rows /\
                 find_per_hour rows 0 = Some h /\
                 let headers := merge_headers rows h in
                 let out := for_rows headers (header_map _norm headers)
                              (resolve_columns headers) (self_periods st')
                              (skipn (S h) rows) ([], self_email_store st) in
                 self_email_store st' = snd out /\
                 self_employees st'
                 = match snd out with
                   | Some s => apply_to_employees s (fst out)
                   | None => fst out
                   end)).
    { intros st1 E1 S1 H1. destruct (IH st1 st' b E1 H1) as [A [B C]].
      split; [exact A|]. split; [intros X; rewrite <- S1; apply B; exact X|].
      intros X. destruct (C X) as [enc0 [rows [h [I R]]]].
      exists enc0, rows, h. split; [right; exact I|]. rewrite <- S1. exact R. }
    destruct (file enc) as [rows|] eqn:F; [|apply (Next st E0 eq_refl H)].
    unfold load_body in H.
    destruct (find_per_hour rows 0) as [h|] eqn:Ph.
    + pose proof (load_with_header_outcome rows h st E0) as W.
      destruct (load_with_header rows h st) as [st1 | st1 | b1 st1].
      * destruct W as [W1 W2]. apply (Next st1 W1 W2 H).
      * destruct W.
      * injection H as <- <-. destruct W as [-> [W1 W2]].
        split; [split; [intros _; exact W1 | reflexivity]|].
        split; [discriminate|]. intros _.
        exists enc, rows, h. split; [left; reflexivity|].
        split; [exact F|]. split; [exact Ph | exact W2].
    + destruct (load_fallback rows) as [[|]|x].
      * injection H as <- <-. repeat split; try discriminate.
        intros X. contradiction.
      * apply (Next st E0 eq_refl H).
      * apply (Next st E0 eq_refl H).
Qed.

Lemma last_period_matches_zero (rows : list (list str)) :
  forall pm n, last_period_matches rows pm = Ok (Some n) -> n = 0 \/ pm = Some n.
Proof.
  induction rows as [|row rows IH]; intros pm n; cbn [last_period_matches].
  - intros E. injection E as ->. right. reflexivity.
  - rewrite period_matches_spec. destruct (existsb truthy row); [discriminate|].
    cbn [bind]. intros E. apply IH in E. destruct E as [E | E]; [left; exact E|].
    injection E as <-. left. reflexivity.
Qed.

Lemma load_fallback_never (rows : list (list str)) : load_fallback rows <> Ok true.
Proof.
  unfold load_fallback.
  destruct (last_period_matches rows None) as [[n|]|x] eqn:L; cbn [bind]; try discriminate.
  apply last_period_matches_zero in L. destruct L as [-> | L]; discriminate.
Qed.

Lemma load_loop_no_header (encs : list encoding) (file : csv_file) (st : processor) :
  (forall enc rows, file enc = Some rows -> find_per_hour rows 0 = None) ->
  load_loop encs file st = (false, st).
Proof.
  intros Hn. induction encs as [|enc encs IH]; cbn [load_loop]; [reflexivity|].
  destruct (file enc) as [rows|] eqn:F; [|exact IH].
  unfold load_body. rewrite (Hn enc rows F).
  destruct (load_fallback rows) as [[|]|x]; [reflexivity | exact IH | exact IH].
Qed.

End Outcome.

(** X6: [detect_periods] returns [True] exactly when it leaves at least
    one period, and else leaves none, whether it returns [False] or raises;
    it touches neither the entries nor the address book.  When it returns
    [True], some decoding of the file has a row with "per hour", the merged
    headers of that row are recorded, and the periods are the columns of the
    merged headers that are period headers, from left to right, each with
    [hours_col] equal to [column_index] and no [amount_col]. *)
Theorem detect_periods_outcome :
  forall (U : Unicode) (file : csv_file) (st : processor),
    let r := fst (detect_periods file st) in
    let st' := snd (detect_periods file st) in
    self_employees st' = self_employees st /\
    self_email_store st' = self_email_store st /\
    (r = Ok true <-> self_periods st' <> []) /\
    (r = Ok true ->
     exists enc rows h,
       file enc = Some rows /\ find_per_hour rows 0 = Some h /\
       self_merged_headers st' = Some (merge_headers rows h) /\
       List.map column_index (self_periods st')
       = filter (fun i => _is_period_header (nth i (merge_headers rows h) []))
           (List.seq 0 (List.length (merge_headers rows h))) /\
       Forall (fun p => hours_col p = column_index p /\ amount_col p = None)
         (self_periods st')).
Proof.
  intros U file st r st'. subst r st'. unfold detect_periods.
  destruct (detect_periods_loop encodings_to_try file (set_self_periods [] st))
    as [r st'] eqn:H.
  destruct (detect_loop_outcome _ _ (set_self_periods [] st) _ _ eq_refl H) as [A [B [C D]]].
  cbn [fst snd]. split; [exact A|]. split; [exact B|]. split; [exact C|].
  intros X. destruct (D X) as [enc [rows [h [_ [F [P [M S]]]]]]].
  exists enc, rows, h. split; [exact F|]. split; [exact P|]. split; [exact M|].
  rewrite S. split; [apply detected_columns | apply detected_shape].
Qed.

(** X7: [load_employee_data] returns [True] exactly when it leaves at
    least one entry; when it returns [False] the address book is as before.
    When it returns [True], some decoding of the file has a row with
    "per hour", and the entries are those of the rows below it, built with
    the periods the processor then holds and completed from the address
    book as the rows left it. *)
Theorem load_employee_data_outcome :
  forall (U : Unicode) (file : csv_file) (st : processor),
    let b := fst (load_employee_data file st) in
    let st' := snd (load_employee_data file st) in
    (b = true <-> self_employees st' <> []) /\
    (b = false -> self_email_store st' = self_email_store st) /\
    (b = true ->
     exists enc rows h,
       file enc = Some rows /\ find_per_hour rows 0 = Some h /\
       let headers := merge_headers rows h in
       let out := for_rows headers (header_map _norm headers) (resolve_columns headers)
                    (self_periods st') (skipn (S h) rows) ([], self_email_store st) in
       self_email_store st' = snd out /\
       self_employees st'
       = match snd out with
         | Some s => apply_to_employees s (fst out)
         | None => fst out
         end).
Proof.
  intros U file st b st'. subst b st'. unfold load_employee_data.
  destruct (load_loop encodings_to_try file (set_self_employees [] st))
    as [b st'] eqn:H.
  destruct (load_loop_outcome _ _ (set_self_employees [] st) _ _ eq_refl H) as [A [B C]].
  cbn [fst snd]. split; [exact A|]. split; [exact B|].
  intros X. destruct (C X) as [enc [rows [h [_ R]]]].
  exists enc, rows, h. exact R.
Qed.

(** X8: a file that has no row with "per hour" under any decoding is never
    loaded: [load_employee_data] returns [False] and only empties the
    entries, and [detect_periods] does not return [True] and leaves no
    period.  The fallback search of [load_employee_data] for a row of period
    headers selects no row, whatever the rows are. *)
Theorem needs_per_hour :
  forall (U : Unicode) (file : csv_file) (st : processor),
    (forall enc rows, file enc = Some rows -> find_per_hour rows 0 = None) ->
    load_employee_data file st = (false, set_self_employees [] st) /\
    fst (detect_periods file st) <> Ok true /\
    self_periods (snd (detect_periods file st)) = [] /\
    (forall rows, load_fallback rows <> Ok true).
Proof.
  intros U file st Hn. split; [apply load_loop_no_header; exact Hn|].
  assert (D : fst (detect_periods file st) <> Ok true).
  { unfold detect_periods.
    destruct (detect_periods_loop encodings_to_try file (set_self_periods [] st))
      as [r st'] eqn:H.
    destruct (detect_loop_outcome _ _ (set_self_periods [] st) _ _ eq_refl H) as [_ [_ [_ D]]].
    cbn [fst]. intros X. destruct (D X) as [enc [rows [h [_ [F [P _]]]]]].
    rewrite (Hn enc rows F) in P. discriminate P. }
  split; [exact D|]. split; [|apply load_fallback_never].
  unfold detect_periods in *.
  destruct (detect_periods_loop encodings_to_try file (set_self_periods [] st))
    as [r st'] eqn:H.
  destruct (detect_loop_outcome _ _ (set_self_periods [] st) _ _ eq_refl H) as [_ [_ [C _]]].
  cbn [fst snd] in *. destruct (self_periods st') as [|p ps]; [reflexivity|].
  exfalso. apply D. apply C. discriminate.
Qed.

Lemma needs_per_hour_witness :
  @load_employee_data ascii_tables csv_no_per_hour new_processor
  = (false, set_self_employees [] new_processor) /\
  fst (@detect_periods ascii_tables csv_no_per_hour new_processor) <> Ok true.
Proof.
  destruct (needs_per_hour ascii_tables csv_no_per_hour new_processor) as [L [D _]].
  - intros enc rows F. destruct enc; vm_compute in F; injection F as <-;
      vm_compute; reflexivity.
  - split; [exact L | exact D].
Defined.

(** ** Header text *)

Lemma lstrip_suffix (s : str) :
  exists sp, s = sp ++ lstrip s /\ forallb isspace sp = true.
Proof.
  induction s as [|a s IH]; cbn [lstrip].
  - exists []. split; reflexivity.
  - destruct (isspace a) eqn:X.
    + destruct IH as [sp [E F]]. exists (a :: sp). cbn. rewrite X, F, <- E.
      split; reflexivity.
    + exists []. split; reflexivity.
Qed.

Lemma lstrip_head (s : str) :
  match lstrip s with c :: _ => isspace c = false | [] => True end.
Proof.
  induction s as [|a s IH]; cbn [lstrip]; [exact I|].
  destruct (isspace a) eqn:X; [exact IH | exact X].
Qed.

Lemma lstrip_fix (s : str) :
  match s with c :: _ => isspace c = false | [] => True end -> lstrip s = s.
Proof. destruct s as [|c s]; cbn [lstrip]; [reflexivity|]. intros ->. reflexivity. Qed.

Lemma In_lstrip (c : char) (s : str) : In c (lstrip s) -> In c s.
Proof.
  destruct (lstrip_suffix s) as [sp [E _]]. intros I. rewrite E.
  apply in_or_app. right. exact I.
Qed.

Lemma In_strip (c : char) (s : str) : In c (strip s) -> In c s.
Proof.
  unfold strip, rstrip. intros I. apply in_rev in I. apply In_lstrip in I.
  apply in_rev in I. apply In_lstrip in I. exact I.
Qed.

(** A stripped text neither starts nor ends with white space. *)
Lemma strip_ends (s : str) :
  match strip s with c :: _ => isspace c = false | [] => True end /\
  match rev (strip s) with c :: _ => isspace c = false | [] => True end.
Proof.
  unfold strip, rstrip. rewrite rev_involutive. split; [|apply lstrip_head].
  destruct (lstrip_suffix (rev (lstrip s))) as [sp [E _]].
  apply (f_equal (@rev char)) in E. rewrite rev_involutive, rev_app_distr in E.
  pose proof (lstrip_head s) as Hd. rewrite E in Hd.
  destruct (rev (lstrip (rev (lstrip s)))) as [|c q]; [exact I | exact Hd].
Qed.

Lemma strip_fix (s : str) :
  match s with c :: _ => isspace c = false | [] => True end ->
  match rev s with c :: _ => isspace c = false | [] => True end ->
  strip s = s.
Proof.
  intros A B. unfold strip, rstrip. rewrite (lstrip_fix s A), (lstrip_fix (rev s) B).
  apply rev_involutive.
Qed.

Lemma strip_idem (s : str) : strip (strip s) = strip s.
Proof. destruct (strip_ends s) as [A B]. apply strip_fix; assumption. Qed.

Lemma collapse_spaces_snoc (s : str) (c : char) :
  isspace c = false -> collapse_spaces (s ++ [c]) = collapse_spaces s ++ [c].
Proof.
  intros X. induction s as [|a s IH].
  - cbn. rewrite X. reflexivity.
  - cbn [app collapse_spaces]. destruct (isspace a).
    + destruct s as [|b s].
      * cbn. rewrite X. reflexivity.
      * cbn [app] in *. destruct (isspace b); rewrite IH; reflexivity.
    + rewrite IH. reflexivity.
Qed.

Lemma collapse_spaces_ends (s : str) :
  match s with c :: _ => isspace c = false | [] => True end ->
  match rev s with c :: _ => isspace c = false | [] => True end ->
  match collapse_spaces s with c :: _ => isspace c = false | [] => True end /\
  match rev (collapse_spaces s) with c :: _ => isspace c = false | [] => True end.
Proof.
  intros A B. split.
  - destruct s as [|c s]; [exact I|]. cbn [collapse_spaces]. rewrite A. exact A.
  - destruct (rev s) as [|c q] eqn:R.
    + apply (f_equal (@rev char)) in R. rewrite rev_involutive in R. subst s. exact I.
    + apply (f_equal (@rev char)) in R. rewrite rev_involutive in R. cbn [rev] in R.
      subst s. rewrite (collapse_spaces_snoc _ _ B), rev_app_distr. exact B.
Qed.

Lemma collapse_spaces_single (s : str) : single_spaced (collapse_spaces s) = true.
Proof.
  induction s as [|a s IH]; [reflexivity|].
  cbn [collapse_spaces]. destruct (isspace a) eqn:X.
  - destruct s as [|b s]; [reflexivity|].
    destruct (isspace b) eqn:Y; [exact IH|].
    cbn [collapse_spaces] in *. rewrite Y in *.
    cbn [single_spaced] in *. rewrite Y in *. cbn in IH. exact IH.
  - cbn [single_spaced]. rewrite X, IH. reflexivity.
Qed.

Lemma single_spaced_collapse (s : str) :
  single_spaced s = true -> collapse_spaces s = s.
Proof.
  induction s as [|a s IH]; [reflexivity|].
  cbn [single_spaced collapse_spaces]. intros H.
  apply andb_true_iff in H. destruct H as [H1 H2].
  destruct (isspace a).
  - apply andb_true_iff in H1. destruct H1 as [E N]. apply N.eqb_eq in E. subst a.
    destruct s as [|b s]; [reflexivity|].
    apply negb_true_iff in N. rewrite N, (IH H2). reflexivity.
  - rewrite (IH H2). reflexivity.
Qed.

Lemma In_collapse_spaces (c : char) (s : str) :
  In c (collapse_spaces s) -> In c s \/ c = c_space.
Proof.
  induction s as [|a s IH]; [intros []|].
  cbn [collapse_spaces]. destruct (isspace a).
  - destruct s as [|b s].
    + intros [<- | []]. right. reflexivity.
    + destruct (isspace b).
      * intros I. destruct (IH I) as [J | J]; [left; right; exact J | right; exact J].
      * intros [<- | I]; [right; reflexivity|].
        destruct (IH I) as [J | J]; [left; right; exact J | right; exact J].
  - intros [<- | I]; [left; left; reflexivity|].
    destruct (IH I) as [J | J]; [left; right; exact J | right; exact J].
Qed.

Lemma In_replace_chr (c old new_c : char) (s : str) :
  In c (replace_chr old [new_c] s) ->
  (In c s /\ c <> old) \/ (c = new_c /\ In old s).
Proof.
  unfold replace_chr. intros I. apply in_flat_map in I. destruct I as [x [Ix I]].
  destruct (chr_eqb x old) eqn:X.
  - apply N.eqb_eq in X. subst x. destruct I as [<- | []]. right. split; [reflexivity | exact Ix].
  - apply N.eqb_neq in X. destruct I as [<- | []]. left. split; assumption.
Qed.

Lemma replace_chr_absent (old : char) (new : str) (s : str) :
  ~ In old s -> replace_chr old new s = s.
Proof.
  unfold replace_chr. induction s as [|a s IH]; [reflexivity|].
  intros N. cbn [flat_map]. destruct (chr_eqb a old) eqn:X.
  - apply N.eqb_eq in X. subst a. destruct N. left. reflexivity.
  - rewrite IH; [reflexivity|]. intros I. apply N. right. exact I.
Qed.

(** Where the characters of a normalised header come from. *)
Lemma In_normalize (c : char) (h : str) :
  In c (_normalize_header_text h) ->
  c <> c_endash /\ c <> c_emdash /\
  (In c h \/ c = c_space \/ (c = c_minus /\ (In c_endash h \/ In c_emdash h))).
Proof.
  unfold _normalize_header_text. intros I.
  apply In_collapse_spaces in I. destruct I as [I | ->].
  2:{ repeat split; try discriminate. right. left. reflexivity. }
  apply In_strip in I. apply In_replace_chr in I. destruct I as [[I N] | [-> I]].
  - apply In_replace_chr in I. destruct I as [[I N'] | [-> I]].
    + repeat split; try assumption. left. exact I.
    + repeat split; try discriminate. right. right. split; [reflexivity | left; exact I].
  - repeat split; try discriminate. right. right. split; [reflexivity|].
    apply In_replace_chr in I. destruct I as [[I _] | [E _]]; [right; exact I|].
    discriminate E.
Qed.

Lemma normalize_idem (h : str) :
  _normalize_header_text (_normalize_header_text h) = _normalize_header_text h.
Proof.
  set (n := _normalize_header_text h).
  assert (D1 : ~ In c_endash n).
  { intros I. apply In_normalize in I. destruct I as [I _]. apply I. reflexivity. }
  assert (D2 : ~ In c_emdash n).
  { intros I. apply In_normalize in I. destruct I as [_ [I _]]. apply I. reflexivity. }
  assert (E : match n with c :: _ => isspace c = false | [] => True end /\
              match rev n with c :: _ => isspace c = false | [] => True end).
  { subst n. unfold _normalize_header_text.
    destruct (strip_ends (replace_chr c_emdash [c_minus]
                            (replace_chr c_endash [c_minus] h))) as [A B].
    apply collapse_spaces_ends; assumption. }
  unfold _normalize_header_text at 1.
  rewrite (replace_chr_absent c_endash _ n D1), (replace_chr_absent c_emdash _ n D2).
  destruct E as [A B]. rewrite (strip_fix n A B).
  apply single_spaced_collapse. subst n. unfold _normalize_header_text.
  apply collapse_spaces_single.
Qed.

(** X9: [_normalize_header_text] is idempotent, and its result is trimmed,
    holds no en dash and no em dash, and no white space but single plain
    spaces between other characters. *)
Theorem normalize_header_idempotent :
  forall h : str,
    let n := _normalize_header_text h in
    _normalize_header_text n = n /\
    strip n = n /\ plain_dashes n = true /\ single_spaced n = true.
Proof.
  intros h n. split; [apply normalize_idem|]. split; [|split].
  - subst n. unfold _normalize_header_text.
    destruct (strip_ends (replace_chr c_emdash [c_minus]
                            (replace_chr c_endash [c_minus] h))) as [A B].
    destruct (collapse_spaces_ends _ A B) as [C D]. apply strip_fix; assumption.
  - unfold plain_dashes. apply forallb_forall. intros c I.
    apply In_normalize in I. destruct I as [N1 [N2 _]].
    apply negb_true_iff. apply orb_false_iff.
    split; apply N.eqb_neq; assumption.
  - subst n. unfold _normalize_header_text. apply collapse_spaces_single.
Qed.

Section Merged.
Context `{U : Unicode}.

Lemma In_enumerate {A} (l : list A) (i : nat) (x : A) :
  In (i, x) (enumerate l) -> nth_error l i = Some x.
Proof.
  unfold enumerate.
  assert (G : forall (l : list A) a, In (i, x) (combine (List.seq a (List.length l)) l) ->
                a <= i /\ nth_error l (i - a) = Some x).
  { clear l. induction l as [|y l IH]; intros a; [intros []|].
    cbn [List.length List.seq combine]. intros [E | I].
    - injection E as <- <-. rewrite Nat.sub_diag. split; [lia | reflexivity].
    - apply IH in I. destruct I as [L N]. split; [lia|].
      replace (i - a) with (S (i - S a)) by lia. exact N. }
  intros I. apply G in I. destruct I as [_ N]. rewrite Nat.sub_0_r in N. exact N.
Qed.

Lemma merge_headers_normal (rows : list (list str)) (h : nat) :
  Forall (fun x => _normalize_header_text x = x) (merge_headers rows h).
Proof.
  apply Forall_forall. intros x I. unfold merge_headers in I.
  apply in_map_iff in I. destruct I as [i [<- _]]. apply normalize_idem.
Qed.

End Merged.

(** X10: the merged header row has as many columns as the longer of the
    header row and the row above it, and every merged header is in
    normalised form; so the display name of a period that
    [detect_periods] finds, and the name of a period that
    [load_employee_data] finds itself, is the merged header of its
    column. *)
Theorem merged_headers_normal :
  forall (U : Unicode) (rows : list (list str)) (h : nat),
    let hs := merge_headers rows h in
    List.length hs
    = Nat.max (if 0 <? h then List.length (nth (h - 1) rows []) else 0)
              (List.length (nth h rows [])) /\
    Forall (fun x => _normalize_header_text x = x) hs /\
    Forall (fun p => period_display_name p = Some (nth (column_index p) hs []))
      (flat_map detected_period (enumerate hs)) /\
    Forall (fun p => period_name p = nth (column_index p) hs [] /\
                     period_display_name p = None)
      (flat_map period_of_header (enumerate hs)).
Proof.
  intros U rows h hs.
  assert (Nf : Forall (fun x => _normalize_header_text x = x) hs)
    by apply merge_headers_normal.
  rewrite Forall_forall in Nf.
  split; [|split; [apply Forall_forall; exact Nf | split]].
  - subst hs. unfold merge_headers. rewrite length_map, length_seq.
    destruct (0 <? h); [|reflexivity].
    destruct (nth_error rows (h - 1)) as [p|] eqn:E.
    + rewrite (nth_error_nth _ _ _ E). reflexivity.
    + apply nth_error_None in E. rewrite (nth_overflow _ _ E). reflexivity.
  - apply Forall_forall. intros p I. apply in_flat_map in I.
    destruct I as [[i x] [Ix I]]. apply In_enumerate in Ix.
    unfold detected_period in I. destruct (_is_period_header x); [|destruct I].
    destruct I as [<- | []]. cbn [period_display_name column_index].
    rewrite (nth_error_nth _ _ _ Ix). f_equal. apply Nf.
    apply (nth_error_In _ _ Ix).
  - apply Forall_forall. intros p I. apply in_flat_map in I.
    destruct I as [[i x] [Ix I]]. apply In_enumerate in Ix.
    unfold period_of_header in I. destruct (_is_period_header x); [|destruct I].
    destruct I as [<- | []]. cbn [period_name period_display_name column_index].
    rewrite (nth_error_nth _ _ _ Ix). split; [|reflexivity]. apply Nf.
    apply (nth_error_In _ _ Ix).
Qed.

(** ** The period pattern *)

Lemma backtrack_sound {A} (f : nat -> option A) (lo n : nat) (r : A) :
  backtrack f lo n = Some r -> exists k, lo <= k /\ k <= n /\ f k = Some r.
Proof.
  induction n as [|n IH]; cbn [backtrack].
  - destruct (0 <? lo) eqn:L; [discriminate|]. apply Nat.ltb_ge in L.
    destruct (f 0) as [x|] eqn:F; [|discriminate].
    intros E. injection E as <-. exists 0. repeat split; [lia | lia | exact F].
  - destruct (S n <? lo) eqn:L; [discriminate|]. apply Nat.ltb_ge in L.
    destruct (f (S n)) as [x|] eqn:F.
    + intros E. injection E as <-. exists (S n). repeat split; [lia | lia | exact F].
    + intros E. destruct (IH E) as [k [K1 [K2 K3]]].
      exists k. repeat split; [lia | lia | exact K3].
Qed.

Lemma backtrack_complete {A} (f : nat -> option A) (lo n k : nat) (r : A) :
  lo <= k -> k <= n -> f k = Some r -> exists r', backtrack f lo n = Some r'.
Proof.
  intros L. induction n as [|n IH]; intros K F; cbn [backtrack].
  - assert (k = 0) by lia. subst k.
    replace (0 <? lo) with false by (symmetry; apply Nat.ltb_ge; lia).
    rewrite F. exists r. reflexivity.
  - replace (S n <? lo) with false by (symmetry; apply Nat.ltb_ge; lia).
    destruct (f (S n)) as [x|] eqn:Fn; [exists x; reflexivity|].
    apply IH; [|exact F].
    destruct (Nat.eq_dec k (S n)) as [-> | N]; [congruence | lia].
Qed.

Lemma run_length_firstn (p : char -> bool) (s : str) :
  forall (cap : option nat) (n : nat),
    n <= run_length p cap s ->
    forallb p (firstn n s) = true /\ List.length (firstn n s) = n /\
    match cap with Some k => n <= k | None => True end.
Proof.
  induction s as [|c s IH]; intros cap n; cbn [run_length].
  - intros L. assert (n = 0) by lia. subst n. cbn.
    repeat split. destruct cap; [lia | exact I].
  - destruct n as [|n].
    { intros _. cbn. repeat split. destruct cap; [lia | exact I]. }
    destruct (p c) eqn:P; [|lia].
    destruct cap as [[|k]|]; [lia | |]; intros L; apply le_S_n in L;
      destruct (IH _ _ L) as [A [B C]]; cbn [firstn forallb List.length];
      rewrite P, A, B; repeat split; cbn in C; lia.
Qed.

Lemma run_length_max (p : char -> bool) (b rest : str) :
  forall cap : option nat,
    forallb p b = true ->
    match cap with Some k => List.length b <= k | None => True end ->
    List.length b <= run_length p cap (b ++ rest).
Proof.
  induction b as [|c b IH]; intros cap F C; [cbn; lia|].
  cbn [forallb] in F. apply andb_true_iff in F. destruct F as [F1 F2].
  cbn [app run_length List.length] in *. rewrite F1.
  destruct cap as [[|k]|]; [lia | |]; apply le_n_S; apply IH; try assumption; try lia.
Qed.

Lemma match_here_sound (re : regex) :
  forall s m, match_here re s = Some m -> matches re m /\ exists post, s = m ++ post.
Proof.
  induction re as [|a re IH]; intros s m; cbn [match_here matches].
  - intros E. injection E as <-. split; [reflexivity | exists s; reflexivity].
  - intros E. apply backtrack_sound in E. destruct E as [k [K1 [K2 E]]].
    destruct (match_here re (skipn k s)) as [m'|] eqn:M; [|discriminate].
    injection E as <-. destruct (IH _ _ M) as [Mm [post P]].
    destruct (run_length_firstn _ _ _ _ K2) as [A [B C]].
    split.
    + exists (firstn k s), m'. rewrite B. repeat split; assumption.
    + exists post. rewrite <- app_assoc, <- P. symmetry. apply firstn_skipn.
Qed.

Lemma match_here_complete (re : regex) :
  forall m post, matches re m -> exists m', match_here re (m ++ post) = Some m'.
Proof.
  induction re as [|a re IH]; intros m post; cbn [match_here matches].
  - intros _. exists []. reflexivity.
  - intros [b [m0 [-> [F [L [C M]]]]]]. rewrite <- app_assoc.
    destruct (IH m0 post M) as [m' E].
    apply (backtrack_complete _ _ _ (List.length b) (firstn (List.length b) (b ++ m0 ++ post) ++ m')).
    + exact L.
    + apply run_length_max; assumption.
    + rewrite skipn_app, skipn_all, Nat.sub_diag. cbn [app skipn]. rewrite E. reflexivity.
Qed.

Lemma re_search_sound (re : regex) (s : str) :
  forall m, re_search re s = Some m ->
  exists pre post, s = pre ++ m ++ post /\ matches re m.
Proof.
  induction s as [|c s IH]; intros m; cbn [re_search].
  - destruct (match_here re []) as [m'|] eqn:M; [|discriminate].
    intros E. injection E as <-. destruct (match_here_sound _ _ _ M) as [Mm [post P]].
    exists [], post. split; assumption.
  - destruct (match_here re (c :: s)) as [m'|] eqn:M.
    + intros E. injection E as <-. destruct (match_here_sound _ _ _ M) as [Mm [post P]].
      exists [], post. split; assumption.
    + intros E. destruct (IH _ E) as [pre [post [P Mm]]].
      exists (c :: pre), post. split; [cbn; rewrite <- P; reflexivity | exact Mm].
Qed.

Lemma re_search_complete (re : regex) (pre m post : str) :
  matches re m -> exists m', re_search re (pre ++ m ++ post) = Some m'.
Proof.
  intros Mm. induction pre as [|c pre IH].
  - cbn [app]. destruct (match_here_complete re m post Mm) as [m' E].
    destruct (m ++ post) as [|x y]; cbn [re_search]; rewrite E; exists m'; reflexivity.
  - cbn [app re_search]. destruct (match_here re (c :: pre ++ m ++ post)) as [x|].
    + exists x. reflexivity.
    + exact IH.
Qed.

(** X11: a header is a period header exactly when its normalised text
    contains at least three letters, possibly a dot, possibly white space,
    at most two digits, possibly white space, a hyphen or dash, possibly
    white space, and one or two digits, in this order and next to each
    other; a header without hyphen and dash is no period header. *)
Theorem period_header_iff :
  forall (U : Unicode) (h : str),
    (_is_period_header h = true <->
     exists pre m post,
       _normalize_header_text h = pre ++ m ++ post /\
       matches PERIOD_HEADER_REGEX m) /\
    (forallb (fun c => negb (is_dash c)) h = true -> _is_period_header h = false).
Proof.
  intros U h.
  assert (A : _is_period_header h = true <->
              exists pre m post,
                _normalize_header_text h = pre ++ m ++ post /\
                matches PERIOD_HEADER_REGEX m).
  { unfold _is_period_header. cbv zeta. split.
    - intros H. apply andb_true_iff in H. destruct H as [_ H].
      destruct (re_search PERIOD_HEADER_REGEX (_normalize_header_text h)) as [m|] eqn:S;
        [|discriminate].
      destruct (re_search_sound _ _ _ S) as [pre [post [P M]]].
      exists pre, m, post. split; assumption.
    - intros [pre [m [post [P M]]]]. rewrite P.
      destruct (re_search_complete PERIOD_HEADER_REGEX pre m post M) as [m' E].
      rewrite E, andb_true_r.
      cbn [matches PERIOD_HEADER_REGEX rmin] in M.
      destruct M as [b [m0 [-> [_ [L _]]]]].
      destruct b as [|c b]; [cbn in L; lia|].
      destruct pre; reflexivity. }
  split; [exact A|].
  intros D. apply not_true_is_false. intros X.
  apply A in X. destruct X as [pre [m [post [P M]]]].
  cbn [matches PERIOD_HEADER_REGEX rmin cls] in M.
  destruct M as [b1 [m1 [-> [_ [_ [_ M]]]]]].
  destruct M as [b2 [m2 [-> [_ [_ [_ M]]]]]].
  destruct M as [b3 [m3 [-> [_ [_ [_ M]]]]]].
  destruct M as [b4 [m4 [-> [_ [_ [_ M]]]]]].
  destruct M as [b5 [m5 [-> [_ [_ [_ M]]]]]].
  destruct M as [b6 [m6 [-> [F [L _]]]]].
  destruct b6 as [|d b6]; [cbn in L; lia|].
  cbn [forallb] in F. apply andb_true_iff in F. destruct F as [F _].
  assert (I : In d (_normalize_header_text h)).
  { rewrite P. apply in_or_app. right. apply in_or_app. left.
    do 5 (apply in_or_app; right). left. reflexivity. }
  apply In_normalize in I. destruct I as [N1 [N2 I]].
  rewrite forallb_forall in D.
  destruct I as [I | [-> | [_ [I | I]]]].
  - apply D in I. rewrite F in I. discriminate I.
  - discriminate F.
  - apply D in I. discriminate I.
  - apply D in I. discriminate I.
Qed.

(** ** Header maps *)

Lemma find_dict_set (test : str -> bool) (k0 : str) (v0 : nat) (d : list (str * nat)) :
  find (fun kv => test (fst kv)) (dict_set k0 v0 d)
  = match find (fun kv => test (fst kv)) d with
    | Some (k, v) => if str_eqb k k0 then Some (k0, v0) else Some (k, v)
    | None => if test k0 then Some (k0, v0) else None
    end.
Proof.
  induction d as [|[k' v'] d IH]; cbn [dict_set find fst].
  - destruct (test k0); reflexivity.
  - destruct (str_eqb k' k0) eqn:E.
    + apply str_eqb_eq in E. subst k'. cbn [find fst]. destruct (test k0) eqn:T.
      * rewrite (proj2 (str_eqb_eq k0 k0) eq_refl). reflexivity.
      * destruct (find (fun kv => test (fst kv)) d) as [[k v]|] eqn:F; [|reflexivity].
        destruct (str_eqb k k0) eqn:E'; [|reflexivity].
        apply str_eqb_eq in E'. subst k. apply find_some in F. destruct F as [_ F].
        cbn in F. congruence.
    + cbn [find fst]. destruct (test k') eqn:T.
      * rewrite E. reflexivity.
      * exact IH.
Qed.

Lemma nth_error_snoc {A} (l : list A) (x : A) (i : nat) (y : A) :
  nth_error (l ++ [x]) i = Some y ->
  (i < List.length l /\ nth_error l i = Some y) \/ (i = List.length l /\ y = x).
Proof.
  intros E. destruct (Nat.lt_ge_cases i (List.length l)) as [L | L].
  - left. split; [exact L|]. rewrite nth_error_app1 in E by exact L. exact E.
  - right. rewrite nth_error_app2 in E by exact L.
    destruct (i - List.length l) as [|n] eqn:D.
    + cbn in E. injection E as <-. split; [lia | reflexivity].
    + cbn in E. destruct n; discriminate E.
Qed.

Lemma located_step (key : str -> str) (test : str -> bool) (pre : list str) (h : str)
  (r : option (str * nat)) :
  located key test pre r ->
  located key test (pre ++ [h])
    match r with
    | Some (k, v) => if str_eqb k (key h) then Some (key h, List.length pre) else Some (k, v)
    | None => if test (key h) then Some (key h, List.length pre) else None
    end.
Proof.
  assert (Last : nth_error (pre ++ [h]) (List.length pre) = Some h).
  { rewrite nth_error_app2 by lia. rewrite Nat.sub_diag. reflexivity. }
  assert (Beyond : forall i' h', List.length pre < i' ->
                     nth_error (pre ++ [h]) i' = Some h' -> False).
  { intros i' h' L E. apply nth_error_snoc in E. destruct E as [[E _] | [E _]]; lia. }
  destruct r as [[k v]|]; cbn [located].
  - intros [j [hj [Nj [Kj [T [First [Le [hi [Ni [Ki Lst]]]]]]]]]].
    assert (Lj : j < List.length pre) by (apply nth_error_Some; congruence).
    assert (Lv : v < List.length pre) by (apply nth_error_Some; congruence).
    assert (First' : forall j' h', j' < j -> nth_error (pre ++ [h]) j' = Some h' ->
                       test (key h') = false).
    { intros j' h' L E. rewrite nth_error_app1 in E by lia. apply (First j' h' L E). }
    destruct (str_eqb k (key h)) eqn:E.
    + apply str_eqb_eq in E. rewrite <- E. cbn [located].
      exists j, hj. split; [rewrite nth_error_app1 by exact Lj; exact Nj|].
      split; [exact Kj|]. split; [exact T|]. split; [exact First'|].
      split; [lia|]. exists h. split; [exact Last|]. split; [symmetry; exact E|].
      intros i' h' L E'. destruct (Beyond i' h' L E').
    + cbn [located].
      exists j, hj. split; [rewrite nth_error_app1 by exact Lj; exact Nj|].
      split; [exact Kj|]. split; [exact T|]. split; [exact First'|].
      split; [exact Le|]. exists hi.
      split; [rewrite nth_error_app1 by exact Lv; exact Ni|].
      split; [exact Ki|].
      intros i' h' L E'. apply nth_error_snoc in E'.
      destruct E' as [[_ E'] | [_ ->]]; [apply (Lst i' h' L E')|].
      intros X. rewrite X in E.
      rewrite (proj2 (str_eqb_eq k k) eq_refl) in E. discriminate E.
  - intros None_. destruct (test (key h)) eqn:T; cbn [located].
    + exists (List.length pre), h. split; [exact Last|]. split; [reflexivity|].
      split; [exact T|]. split.
      { intros j' h' L E. rewrite nth_error_app1 in E by exact L.
        apply None_. apply (nth_error_In _ _ E). }
      split; [lia|]. exists h. split; [exact Last|]. split; [reflexivity|].
      intros i' h' L E. destruct (Beyond i' h' L E).
    + intros x I. apply in_app_or in I. destruct I as [I | [<- | []]];
        [apply None_; exact I | exact T].
Qed.

Lemma located_fold (key : str -> str) (test : str -> bool) (l : list str) :
  forall (pre : list str) (d : list (str * nat)),
    located key test pre (find (fun kv => test (fst kv)) d) ->
    located key test (pre ++ l)
      (find (fun kv => test (fst kv))
         (fold_left (fun d ih => dict_set (key (snd ih)) (fst ih) d)
            (combine (List.seq (List.length pre) (List.length l)) l) d)).
Proof.
  induction l as [|h l IH]; intros pre d G.
  - rewrite app_nil_r. exact G.
  - cbn [List.length List.seq combine fold_left fst snd].
    specialize (IH (pre ++ [h]) (dict_set (key h) (List.length pre) d)).
    rewrite length_app, Nat.add_1_r, <- app_assoc in IH. apply IH.
    rewrite find_dict_set. apply located_step. exact G.
Qed.

(** X12: a search through a header map ([find_col], and the searches for
    the sequence, name and rate columns) returns nothing exactly when no
    header passes its test; otherwise it takes the first header that
    passes and returns the index of the last header with the same key,
    since the map keeps one index for each key: with two headers of the
    same normalised text this is not the index of the first. *)
Theorem header_search :
  forall (U : Unicode) (key : str -> str) (headers : list str),
    (forall test : str -> bool,
       match first_idx test (header_map key headers) with
       | Some i =>
           exists k, located key test headers (Some (k, i))
       | None => located key test headers None
       end) /\
    (forall parts : list str,
       find_col (header_map key headers) parts
       = first_idx (has_parts parts) (header_map key headers)).
Proof.
  intros U key headers. split; [|reflexivity].
  intros test. unfold first_idx, header_map, enumerate.
  pose proof (located_fold key test headers [] []) as G.
  cbn [List.length app] in G.
  assert (G0 : located key test [] (find (fun kv => test (fst kv)) [])).
  { cbn. intros h []. }
  specialize (G G0).
  destruct (find (fun hi => test (fst hi)) _) as [[k i]|]; cbn [option_map snd].
  - exists k. exact G.
  - exact G.
Qed.

(** ** The deductions and the email of a row *)

Section RowFacts.
Context `{U : Unicode}.

Ltac step_inv H x Hx :=
  apply bind_when_inv in H; destruct H as [x [Hx H]].

Ltac same_fields :=
  unfold same_summary; cbn;
  repeat match goal with
  | |- context [if ?b then _ else _] => destruct b
  end; repeat split.

Lemma same_summary_trans (a b c : employee) :
  same_summary a b -> same_summary b c -> same_summary a c.
Proof.
  unfold same_summary.
  intros [A1 [A2 [A3 [A4 [A5 [A6 [A7 [A8 [A9 A10]]]]]]]]]
         [B1 [B2 [B3 [B4 [B5 [B6 [B7 [B8 [B9 B10]]]]]]]]].
  repeat split; congruence.
Qed.

Lemma same_summary_upd (o : option str) (f : str -> employee -> employee)
  (e : employee) :
  (forall c x, same_summary x (f c x)) -> same_summary e (upd o f e).
Proof.
  intros F. destruct o as [c|]; [apply F|]. unfold same_summary. repeat split.
Qed.

Lemma percent_or_idem (o : option str) (d : Q) :
  percent_or o (percent_or o d) = percent_or o d.
Proof.
  destruct o as [c|]; [|reflexivity]. cbn [percent_or]. rewrite !parse_percent_eq.
  destruct (py_float (keep_numeric c)); reflexivity.
Qed.

Lemma amount_or_idem (o : option str) (d : Q) :
  amount_or o (amount_or o d) = amount_or o d.
Proof.
  destruct o as [c|]; [|reflexivity]. cbn [amount_or]. unfold safe_float_or.
  rewrite !safe_float_eq. destruct (py_float (keep_numeric c)); reflexivity.
Qed.

Lemma withholding_rate_or_idem (o : option str) (d : Q) :
  withholding_rate_or o (withholding_rate_or o d) = withholding_rate_or o d.
Proof.
  destruct o as [c|]; [|reflexivity]. cbn [withholding_rate_or].
  destruct (contains [c_percent] (strip c)); [|reflexivity].
  rewrite !parse_percent_eq. destruct (py_float (keep_numeric (strip c))); reflexivity.
Qed.

Lemma withholding_amount_or_idem (o : option str) (d : Q) :
  withholding_amount_or o (withholding_amount_or o d) = withholding_amount_or o d.
Proof.
  destruct o as [c|]; [|reflexivity]. cbn [withholding_amount_or].
  destruct (contains [c_percent] (strip c)); [reflexivity|].
  unfold safe_float_or. rewrite !safe_float_eq.
  destruct (py_float (keep_numeric (strip c))); reflexivity.
Qed.

Lemma pick_email_idem (a b c : str) :
  pick_email (pick_email a b c) b c = pick_email a b c.
Proof. unfold pick_email. destruct a, b, c; reflexivity. Qed.

(** Reading the row a second time changes nothing. *)
Lemma settled_twice (hm : list (str * nat)) (row : list str) (d e1 e2 : employee) :
  deductions_read hm row d e1 /\ emails_picked d e1 ->
  deductions_read hm row e1 e2 /\ emails_picked e1 e2 ->
  deductions_read hm row d e2 /\ emails_picked d e2.
Proof.
  unfold deductions_read, emails_picked.
  intros [[A1 [A2 [A3 [A4 [A5 [A6 A7]]]]]] [A8 [A9 A10]]]
         [[B1 [B2 [B3 [B4 [B5 [B6 B7]]]]]] [B8 [B9 B10]]].
  rewrite B1, B2, B3, B4, B5, B6, B7, B8, B9, B10.
  rewrite A1, A2, A3, A4, A5, A6, A7, A8, A9, A10.
  rewrite !percent_or_idem, !amount_or_idem, withholding_rate_or_idem,
    withholding_amount_or_idem, pick_email_idem.
  repeat split.
Qed.

Lemma settled_ext (hm : list (str * nat)) (row : list str) (d d' e : employee) :
  same_summary d d' ->
  deductions_read hm row d' e /\ emails_picked d' e ->
  deductions_read hm row d e /\ emails_picked d e.
Proof.
  unfold same_summary, deductions_read, emails_picked.
  intros [A1 [A2 [A3 [A4 [A5 [A6 [A7 [A8 [A9 A10]]]]]]]]].
  rewrite A1, A2, A3, A4, A5, A6, A7, A8, A9, A10. exact (fun x => x).
Qed.

Lemma summary_block_settled (hm : list (str * nat)) (row : list str)
  (e e' : employee) (store store' : option EmailStore) :
  summary_block hm row e store = Ok (e', store') ->
  deductions_read hm row e e' /\ emails_picked e e'.
Proof.
  intros H. unfold summary_block in H. cbv zeta in H.
  step_inv H e1 H1. step_inv H adj H2. step_inv H e2 H3. step_inv H en H4.
  match type of H with
  | bind (when_value _ _ _ ?x) _ = _ => set (e4 := x) in H
  end.
  step_inv H e5 H5. step_inv H e6 H6. step_inv H e7 H7. step_inv H e8 H8.
  step_inv H e9 H9. step_inv H e10 H10.
  assert (S1 : same_summary e e1)
    by (subst e1; apply same_summary_upd; intros; same_fields).
  assert (S2 : same_summary e1 e2)
    by (subst e2; apply same_summary_upd; intros; same_fields).
  assert (S3 : same_summary e2 (fst en)).
  { subst en. destruct (cell_value row (find_col hm [u "net"; u "amount"; u "earned"]));
      cbn [upd fst]; same_fields. }
  assert (S4 : same_summary (fst en) e4).
  { subst e4. destruct adj as [a|]; cbn [falsy_opt].
    - destruct (negb (nonzero a)); [|same_fields].
      destruct (snd en); same_fields.
    - destruct (nonzero (adjustment_hours (fst en) * hourly_rate (fst en)));
        destruct (snd en); same_fields. }
  pose proof (same_summary_trans _ _ _ (same_summary_trans _ _ _
                (same_summary_trans _ _ _ S1 S2) S3) S4) as S.
  clear S1 S2 S3 S4 H1 H2 H3 H4.
  apply (settled_ext hm row e e4 e' S). clear S.
  unfold deductions_read, emails_picked.
  assert (F10 : tax_rate e10 = percent_or (cell_value row (find_col hm [u "w"; u "tax"; u "rate"])) (tax_rate e4) /\
                withholding_rate e10 = withholding_rate_or (cell_value row (find_col hm [u "holding"; u "tax"])) (withholding_rate e4) /\
                withholding_amount e10 = withholding_amount_or (cell_value row (find_col hm [u "holding"; u "tax"])) (withholding_amount e4) /\
                p_tax_rate e10 = percent_or (cell_value row (find_col hm [u "p"; u "tax"; u "rate"])) (p_tax_rate e4) /\
                percent_tax e10 = amount_or (cell_value row (find_col hm [u "percent"; u "tax"])) (percent_tax e4) /\
                total_tax_deductions e10 = amount_or (cell_value row (find_col hm [u "total"; u "tax"; u "deduct"])) (total_tax_deductions e4) /\
                net_amount_received e10 = amount_or (cell_value row (find_col hm [u "net"; u "amount"; u "received"])) (net_amount_received e4) /\
                email e10 = email e4 /\ work_email e10 = work_email e4 /\
                personal_email e10 = personal_email e4).
  { subst e10 e9 e8 e7 e6 e5.
    destruct (cell_value row (find_col hm [u "w"; u "tax"; u "rate"])) as [c5|];
    destruct (cell_value row (find_col hm [u "holding"; u "tax"])) as [c6|];
    destruct (cell_value row (find_col hm [u "p"; u "tax"; u "rate"])) as [c7|];
    destruct (cell_value row (find_col hm [u "percent"; u "tax"])) as [c8|];
    destruct (cell_value row (find_col hm [u "total"; u "tax"; u "deduct"])) as [c9|];
    destruct (cell_value row (find_col hm [u "net"; u "amount"; u "received"])) as [c10|];
    cbn [upd percent_or amount_or withholding_rate_or withholding_amount_or];
    try destruct (contains [c_percent] (strip c6)); repeat split. }
  destruct F10 as [A1 [A2 [A3 [A4 [A5 [A6 [A7 [A8 [A9 A10]]]]]]]]].
  unfold pick_email. rewrite <- A8, <- A9, <- A10.
  destruct (find truthy [email e10; work_email e10; personal_email e10]) as [pe|];
    injection H as <- _; cbn [email work_email personal_email tax_rate withholding_rate
      withholding_amount p_tax_rate percent_tax total_tax_deductions
      net_amount_received set_email];
    repeat split; assumption.
Qed.

Lemma period_step_settled (headers : list str) (hm : list (str * nat))
  (row : list str) (p : period) (e0 e : employee) (s0 s : option EmailStore) :
  period_step headers hm row p (e0, s0) = Ok (e, s) ->
  if in_range row p
  then deductions_read hm row e0 e /\ emails_picked e0 e
  else e = e0.
Proof.
  unfold period_step, in_range. intros H.
  destruct (column_index p <? List.length row).
  - apply bind_inv in H. destruct H as [c [_ H]].
    match type of H with summary_block _ _ ?x _ = _ => set (ep := x) in H end.
    apply summary_block_settled in H.
    apply (settled_ext hm row e0 ep e); [|exact H].
    subst ep. destruct (period_display_name p) as [d|];
      [destruct (truthy d && negb (str_eqb d _))|]; unfold same_summary; repeat split.
  - injection H as <- _. reflexivity.
Qed.

Lemma for_periods_settled (headers : list str) (hm : list (str * nat))
  (row : list str) (ps : list period) :
  forall (e0 e : employee) (s0 s : option EmailStore),
    for_periods headers hm row ps (e0, s0) = Ok (e, s) ->
    if existsb (in_range row) ps
    then deductions_read hm row e0 e /\ emails_picked e0 e
    else e = e0.
Proof.
  induction ps as [|p ps IH]; intros e0 e s0 s H; cbn [for_periods] in H.
  - injection H as <- _. reflexivity.
  - apply bind_inv in H. destruct H as [[e1 s1] [H1 H]].
    apply period_step_settled in H1. apply IH in H.
    cbn [existsb]. destruct (in_range row p); cbn [orb].
    + destruct (existsb (in_range row) ps); [|subst e; exact H1].
      apply (settled_twice hm row e0 e1 e); assumption.
    + subst e1. exact H.
Qed.

(** The entry with which the loop over the periods starts. *)
Lemma process_row_start (headers : list str) (hm : list (str * nat))
  (cols : columns) (ps : list period) (row : list str)
  (store store' : option EmailStore) (e : employee) :
  process_row headers hm cols ps row store = Ok (e, store') ->
  exists e0,
    for_periods headers hm row ps (e0, store) = Ok (e, store') /\
    same_summary
      (set_personal_email (cell_text row (idx_personal_email cols))
         (set_work_email (cell_text row (idx_work_email cols))
            (set_email (cell_text row (idx_email cols)) blank_entry))) e0 /\
    hourly_rate e0
    = match rate_idx cols with
      | Some r =>
          match nth_error row r with
          | Some c => safe_float_or c 0
          | None => 0%Q
          end
      | None => 0%Q
      end /\
    account_no e0 = match nth_error row 1 with Some c => strip c | None => [] end /\
    name e0 = match nth_error row (name_idx cols) with Some c => strip c | None => [] end.
Proof.
  intros H. unfold process_row in H.
  apply bind_inv in H. destruct H as [c [_ H]].
  apply bind_inv in H. destruct H as [a [Ha H]].
  apply bind_inv in H. destruct H as [n [Hn H]].
  apply bind_inv in H. destruct H as [r [Hr H]].
  cbv zeta in H.
  step_inv H e1 H1. step_inv H e2 H2. step_inv H e3 H3.
  exists e3. split; [exact H|].
  assert (R : r = match rate_idx cols with
                  | Some r =>
                      match nth_error row r with
                      | Some c => safe_float_or c 0
                      | None => 0%Q
                      end
                  | None => 0%Q
                  end).
  { destruct (rate_idx cols) as [ri|]; [|injection Hr as <-; reflexivity].
    rewrite ltb_nth_error in Hr. unfold index in Hr.
    destruct (nth_error row ri); cbn [bind] in Hr; injection Hr as <-; reflexivity. }
  assert (A : a = match nth_error row 1 with Some c => strip c | None => [] end).
  { rewrite ltb_nth_error in Ha. unfold index in Ha.
    destruct (nth_error row 1); cbn [bind] in Ha; injection Ha as <-; reflexivity. }
  assert (Nm : n = match nth_error row (name_idx cols) with
                   | Some c => strip c
                   | None => []
                   end).
  { rewrite ltb_nth_error in Hn. unfold index in Hn.
    destruct (nth_error row (name_idx cols)); cbn [bind] in Hn;
      injection Hn as <-; reflexivity. }
  subst e3 e2 e1. unfold cell_text, upd.
  destruct (cell_value row (idx_personal_email cols)),
           (cell_value row (idx_work_email cols)),
           (cell_value row (idx_email cols));
    (split; [unfold same_summary; repeat split | split; [exact R | split; [exact A | exact Nm]]]).
Qed.

End RowFacts.

(** X13: in the entry of an accepted row with a period cell in it, each of
    tax_rate, withholding_rate, withholding_amount, p_tax_rate, percent_tax,
    total_tax_deductions and net_amount_received is the value of its cell
    where the row has that cell, not blank, and it parses, and 0 otherwise,
    however many periods there are; the withholding cell is read as a rate
    when it holds a percent sign and as an amount when it does not. *)
Theorem deductions_of_row :
  forall (U : Unicode) (headers : list str) (hm : list (str * nat))
         (cols : columns) (ps : list period) (row : list str)
         (store store' : option EmailStore) (e : employee),
    process_row headers hm cols ps row store = Ok (e, store') ->
    existsb (in_range row) ps = true ->
    deductions_read hm row blank_entry e.
Proof.
  intros U headers hm cols ps row store store' e H X.
  destruct (process_row_start _ _ _ _ _ _ _ _ H) as [e0 [F [S _]]].
  apply for_periods_settled in F. rewrite X in F.
  destruct (settled_ext hm row _ e0 e S F) as [D _]. exact D.
Qed.

(** X14: the email of the entry of an accepted row with a period cell in
    it is the first non-empty one of the stripped email, work-email and
    personal-email cells (empty when all three are); without a period cell
    in the row it is the stripped email cell alone.  The work and personal
    emails are their stripped cells in both cases. *)
Theorem email_of_row :
  forall (U : Unicode) (headers : list str) (hm : list (str * nat))
         (cols : columns) (ps : list period) (row : list str)
         (store store' : option EmailStore) (e : employee),
    process_row headers hm cols ps row store = Ok (e, store') ->
    work_email e = cell_text row (idx_work_email cols) /\
    personal_email e = cell_text row (idx_personal_email cols) /\
    email e
    = if existsb (in_range row) ps
      then pick_email (cell_text row (idx_email cols)) (work_email e) (personal_email e)
      else cell_text row (idx_email cols).
Proof.
  intros U headers hm cols ps row store store' e H.
  destruct (process_row_start _ _ _ _ _ _ _ _ H) as [e0 [F [S _]]].
  destruct S as [_ [_ [_ [_ [_ [_ [_ [S1 [S2 S3]]]]]]]]]. cbn in S1, S2, S3.
  apply for_periods_settled in F.
  destruct (existsb (in_range row) ps).
  - destruct F as [_ [E1 [E2 E3]]]. rewrite E1, E2, E3, S1, S2, S3. repeat split.
  - subst e0. rewrite S1, S2, S3. repeat split.
Qed.

Lemma deductions_of_row_witness :
  @deductions_read ascii_tables (hm_of csv_one_period) (row1_of csv_one_period)
    blank_entry (first_entry csv_one_period).
Proof.
  apply (deductions_of_row ascii_tables (headers_of csv_one_period)
           (hm_of csv_one_period) (cols_of csv_one_period)
           (periods_of csv_one_period) (row1_of csv_one_period)
           None None (first_entry csv_one_period));
    vm_compute; reflexivity.
Defined.

Lemma email_of_row_witness :
  work_email (first_entry csv_one_period)
  = cell_text (row1_of csv_one_period) (idx_work_email (cols_of csv_one_period)) /\
  personal_email (first_entry csv_one_period)
  = cell_text (row1_of csv_one_period) (idx_personal_email (cols_of csv_one_period)) /\
  email (first_entry csv_one_period)
  = if existsb (in_range (row1_of csv_one_period)) (periods_of csv_one_period)
    then pick_email
           (cell_text (row1_of csv_one_period) (idx_email (cols_of csv_one_period)))
           (work_email (first_entry csv_one_period))
           (personal_email (first_entry csv_one_period))
    else cell_text (row1_of csv_one_period) (idx_email (cols_of csv_one_period)).
Proof.
  apply (email_of_row ascii_tables (headers_of csv_one_period)
           (hm_of csv_one_period) (cols_of csv_one_period)
           (periods_of csv_one_period) (row1_of csv_one_period)
           None None (first_entry csv_one_period)).
  vm_compute. reflexivity.
Defined.

(** ** The gross of a row, and the periods it is built from *)

(** X15: the hourly rate of the entry of an accepted row is the parsed
    rate cell, or 0 without one; its gross is the parsed "amount earned"
    cell when that cell parses and a period cell lies in the row, and
    otherwise the sum, over the periods whose cell lies in the row, of the
    parsed hours times the rate. *)
Theorem gross_of_row :
  forall (U : Unicode) (headers : list str) (hm : list (str * nat))
         (cols : columns) (ps : list period) (row : list str)
         (store store' : option EmailStore) (e : employee),
    process_row headers hm cols ps row store = Ok (e, store') ->
    hourly_rate e
    = match rate_idx cols with
      | Some r =>
          match nth_error row r with
          | Some c => safe_float_or c 0
          | None => 0%Q
          end
      | None => 0%Q
      end /\
    (total_gross e
     == match parsed_override hm row with
        | Some v => if existsb (in_range row) ps then v else 0
        | None => period_sum row (hourly_rate e) ps 0
        end)%Q.
Proof.
  intros U headers hm cols ps row store store' e H.
  split; [|apply (process_row_gross _ _ _ _ _ _ _ _ H)].
  destruct (process_row_start _ _ _ _ _ _ _ _ H) as [e0 [F [_ [R _]]]].
  destruct (for_periods_gross _ _ _ _ _ _ _ _ F) as [Hr _]. congruence.
Qed.

Lemma gross_of_row_witness :
  hourly_rate (first_entry csv_two_periods)
  = match rate_idx (cols_of csv_two_periods) with
    | Some r =>
        match nth_error (row1_of csv_two_periods) r with
        | Some c => safe_float_or c 0
        | None => 0%Q
        end
    | None => 0%Q
    end /\
  (total_gross (first_entry csv_two_periods)
   == match @parsed_override ascii_tables (hm_of csv_two_periods)
              (row1_of csv_two_periods) with
      | Some v =>
          if existsb (in_range (row1_of csv_two_periods)) (periods_of csv_two_periods)
          then v else 0
      | None =>
          period_sum (row1_of csv_two_periods)
            (hourly_rate (first_entry csv_two_periods)) (periods_of csv_two_periods) 0
      end)%Q.
Proof.
  apply (gross_of_row ascii_tables (headers_of csv_two_periods)
           (hm_of csv_two_periods) (cols_of csv_two_periods)
           (periods_of csv_two_periods) (row1_of csv_two_periods)
           None None (first_entry csv_two_periods)).
  vm_compute. reflexivity.
Defined.

Section ByColumn.
Context `{U : Unicode}.

Lemma bind_when {S B} (row : list str) (idx : option nat)
  (f : str -> S -> S) (s : S) (k : S -> result B) :
  bind (when_value row idx f s) k = k (upd (cell_value row idx) f s).
Proof. rewrite when_value_ok. reflexivity. Qed.

Lemma upd_set_periods (o : option str) (f : str -> employee -> employee)
  (P : list (str * period_data)) (e : employee) :
  (forall c x, f c (set_periods P x) = set_periods P (f c x)) ->
  upd o f (set_periods P e) = set_periods P (upd o f e).
Proof. intros F. destruct o as [c|]; [apply F | reflexivity]. Qed.

Ltac step_inv H x Hx :=
  apply bind_when_inv in H; destruct H as [x [Hx H]].

Ltac commute Hx :=
  rewrite bind_when, upd_set_periods, Hx
    by (intros; cbn;
        repeat match goal with
               | |- context [if ?b then _ else _] => destruct b
               end; reflexivity).

(** The summary block neither reads nor writes the periods of the entry. *)
Lemma summary_block_set_periods (hm : list (str * nat)) (row : list str)
  (e e' : employee) (store store' : option EmailStore)
  (P : list (str * period_data)) :
  summary_block hm row e store = Ok (e', store') ->
  summary_block hm row (set_periods P e) store = Ok (set_periods P e', store').
Proof.
  intros H. unfold summary_block in *. cbv zeta in *.
  step_inv H e1 H1. commute H1.
  step_inv H adj H2. rewrite bind_when, H2.
  step_inv H e2 H3. commute H3.
  step_inv H en H4. rewrite bind_when.
  assert (En : upd (cell_value row (find_col hm [u "net"; u "amount"; u "earned"]))
                 (fun c en =>
                    (set_net_amount_earned (safe_float_none c) (fst en), safe_float_none c))
                 (set_periods P e2, None)
               = (set_periods P (fst en), snd en)).
  { subst en. destruct (cell_value row (find_col hm [u "net"; u "amount"; u "earned"]));
      reflexivity. }
  rewrite En. clear En. cbn [fst snd] in *.
  match type of H with
  | bind (when_value _ _ _ ?x) _ = _ => set (e4 := x) in H
  end.
  match goal with
  | |- bind (when_value _ _ _ ?x) _ = _ =>
      assert (E4 : x = set_periods P e4)
  end.
  { subst e4. cbn [adjustment_hours hourly_rate total_gross set_periods
                   set_adjustment_amount].
    destruct adj as [a|]; cbn [falsy_opt].
    - destruct (negb (nonzero a)); [|reflexivity].
      destruct (snd en); [|reflexivity].
      cbn [total_gross set_adjustment_amount set_periods].
      destruct (exceeds_epsilon _); reflexivity.
    - destruct (nonzero (adjustment_hours (fst en) * hourly_rate (fst en)));
        (destruct (snd en); [|reflexivity]);
        cbn [total_gross set_adjustment_amount set_periods];
        destruct (exceeds_epsilon _); reflexivity. }
  rewrite E4. clear E4.
  step_inv H e5 H5. commute H5.
  step_inv H e6 H6. commute H6.
  step_inv H e7 H7. commute H7.
  step_inv H e8 H8. commute H8.
  step_inv H e9 H9. commute H9.
  step_inv H e10 H10. commute H10.
  cbn [email work_email personal_email set_periods].
  destruct (find truthy [email e10; work_email e10; personal_email e10]) as [pe|];
    injection H as <- <-; reflexivity.
Qed.

Lemma period_step_by_column (headers : list str) (hm : list (str * nat))
  (row : list str) (p p' : period) (e e1 : employee) (s s1 : option EmailStore)
  (P : list (str * period_data)) :
  column_index p = column_index p' ->
  period_step headers hm row p (e, s) = Ok (e1, s1) ->
  exists P1, period_step headers hm row p' (set_periods P e, s)
             = Ok (set_periods P1 e1, s1).
Proof.
  unfold period_step. intros C H. rewrite <- C.
  destruct (column_index p <? List.length row).
  - apply bind_inv in H. destruct H as [c [Hc H]]. rewrite Hc. cbn [bind].
    match type of H with summary_block _ _ ?x _ = _ => set (ep := x) in H end.
    match goal with
    | |- exists P1, summary_block _ _ ?x _ = _ =>
        assert (Ep : x = set_periods (periods x) ep)
    end.
    { subst ep.
      destruct (period_display_name p) as [d|];
        [destruct (truthy d && negb (str_eqb d _))|];
        (destruct (period_display_name p') as [d'|];
         [destruct (truthy d' && negb (str_eqb d' _))|]); reflexivity. }
    rewrite Ep. eexists. apply summary_block_set_periods. exact H.
  - injection H as <- <-. exists P. reflexivity.
Qed.

Lemma for_periods_by_column (headers : list str) (hm : list (str * nat))
  (row : list str) (ps : list period) :
  forall (ps' : list period) (e e1 : employee) (s s1 : option EmailStore)
         (P : list (str * period_data)),
    List.map column_index ps = List.map column_index ps' ->
    for_periods headers hm row ps (e, s) = Ok (e1, s1) ->
    exists P1, for_periods headers hm row ps' (set_periods P e, s)
               = Ok (set_periods P1 e1, s1).
Proof.
  induction ps as [|p ps IH]; intros [|p' ps'] e e1 s s1 P C H; try discriminate C.
  - cbn in *. injection H as <- <-. exists P. reflexivity.
  - cbn [List.map] in C. injection C as C0 C. cbn [for_periods] in *.
    apply bind_inv in H. destruct H as [[e2 s2] [H2 H]].
    destruct (period_step_by_column _ _ _ p p' _ _ _ _ P C0 H2) as [P2 E2].
    rewrite E2. cbn [bind]. apply (IH ps' _ _ _ _ P2 C H).
Qed.

Lemma process_row_by_column (headers : list str) (hm : list (str * nat))
  (cols : columns) (ps ps' : list period) (row : list str)
  (store store' : option EmailStore) (e : employee) :
  List.map column_index ps = List.map column_index ps' ->
  process_row headers hm cols ps row store = Ok (e, store') ->
  exists P, process_row headers hm cols ps' row store = Ok (set_periods P e, store').
Proof.
  intros C H. unfold process_row in *.
  apply bind_inv in H. destruct H as [c [Hc H]]. rewrite Hc. cbn [bind].
  apply bind_inv in H. destruct H as [a [Ha H]]. rewrite Ha. cbn [bind].
  apply bind_inv in H. destruct H as [n [Hn H]]. rewrite Hn. cbn [bind].
  apply bind_inv in H. destruct H as [r [Hr H]]. rewrite Hr. cbn [bind].
  cbv zeta in *.
  step_inv H e1 H1. rewrite bind_when, H1.
  step_inv H e2 H2. rewrite bind_when, H2.
  step_inv H e3 H3. rewrite bind_when, H3.
  assert (E3 : e3 = set_periods [] e3).
  { subst e3 e2 e1. unfold upd.
    destruct (cell_value row (idx_personal_email cols)),
             (cell_value row (idx_work_email cols)),
             (cell_value row (idx_email cols)); reflexivity. }
  rewrite E3. apply (for_periods_by_column _ _ _ ps ps' _ _ _ _ [] C H).
Qed.

Lemma for_rows_by_column (headers : list str) (hm : list (str * nat))
  (cols : columns) (ps ps' : list period) (rows : list (list str)) :
  List.map column_index ps = List.map column_index ps' ->
  forall (emps emps' : list employee) (store : option EmailStore),
    Forall2 same_but_periods emps emps' ->
    Forall2 same_but_periods
      (fst (for_rows headers hm cols ps rows (emps, store)))
      (fst (for_rows headers hm cols ps' rows (emps', store))) /\
    snd (for_rows headers hm cols ps rows (emps, store))
    = snd (for_rows headers hm cols ps' rows (emps', store)).
Proof.
  intros C. induction rows as [|row rows IH]; intros emps emps' store F;
    cbn [for_rows].
  - split; [exact F | reflexivity].
  - destruct (is_data_row cols row) eqn:G; [|apply IH; exact F].
    destruct (process_row_total headers hm cols ps row store G) as [e [s [H _]]].
    destruct (process_row_by_column _ _ _ ps ps' _ _ _ _ C H) as [P H'].
    rewrite H, H'. apply IH. apply Forall2_app; [exact F|].
    constructor; [exists P; reflexivity | constructor].
Qed.

End ByColumn.

(** X16: whether the periods come from [detect_periods], run before
    [load_employee_data] as [process_payroll_to_pdfs] does, or are found by
    [load_employee_data] itself, the rows give the same entries but for the
    keys of their [periods] dict, and leave the same address book: the
    entries depend on the periods through their column indices only. *)
Theorem entries_by_column :
  forall (U : Unicode) (headers hs : list str) (hm : list (str * nat))
         (cols : columns) (rows : list (list str)) (store : option EmailStore),
    let detected := flat_map detected_period (enumerate hs) in
    let found := flat_map period_of_header (enumerate hs) in
    Forall2 same_but_periods
      (fst (for_rows headers hm cols detected rows ([], store)))
      (fst (for_rows headers hm cols found rows ([], store))) /\
    snd (for_rows headers hm cols detected rows ([], store))
    = snd (for_rows headers hm cols found rows ([], store)).
Proof.
  intros U headers hs hm cols rows store detected found.
  apply for_rows_by_column; [|constructor].
  subst detected found. rewrite detected_columns, header_columns. reflexivity.
Qed.

(** ** Cents in the Excel sheet *)

Local Open Scope Q_scope.

Lemma round_half_even_comp (x y : Q) :
  x == y -> round_half_even x = round_half_even y.
Proof.
  intros E. unfold round_half_even.
  assert (F : Qfloor x = Qfloor y) by (rewrite E; reflexivity).
  rewrite F.
  assert (C : Qcompare (x - inject_Z (Qfloor y)) (1 # 2)
              = Qcompare (y - inject_Z (Qfloor y)) (1 # 2))
    by (rewrite E; reflexivity).
  rewrite C. reflexivity.
Qed.

Lemma round_half_even_Z (z : Z) : round_half_even (inject_Z z) = z.
Proof.
  unfold round_half_even. rewrite Qfloor_Z.
  assert (C : Qcompare (inject_Z z - inject_Z z) (1 # 2) = Lt).
  { apply (proj1 (Qlt_alt _ _)). lra. }
  rewrite C. reflexivity.
Qed.

(** Rounding moves a number by at most one half. *)
Lemma round_half_even_near (x : Q) :
  - (1 # 2) <= x - inject_Z (round_half_even x) <= 1 # 2.
Proof.
  unfold round_half_even.
  pose proof (Qfloor_le x) as L. pose proof (Qlt_floor x) as G.
  rewrite inject_Z_plus in G. change (inject_Z 1) with 1 in G.
  destruct (Qcompare (x - inject_Z (Qfloor x)) (1 # 2)) eqn:C.
  - apply Qeq_alt in C.
    destruct (Z.even (Qfloor x));
      [|rewrite inject_Z_plus; change (inject_Z 1) with 1]; lra.
  - apply Qlt_alt in C. lra.
  - apply Qgt_alt in C. rewrite inject_Z_plus. change (inject_Z 1) with 1. lra.
Qed.

Lemma round2_cents (a : Z) : round2 (a # 100) = a # 100.
Proof.
  unfold round2. rewrite (round_half_even_comp ((a # 100) * 100) (inject_Z a)).
  - rewrite round_half_even_Z. reflexivity.
  - unfold Qeq, Qmult, inject_Z. cbn. lia.
Qed.

Lemma round2_sum_cents (a b : Z) : round2 ((a # 100) + (b # 100)) = (a + b) # 100.
Proof.
  rewrite (round2_comp _ ((a + b) # 100)); [apply round2_cents|].
  unfold Qeq, Qplus. cbn. lia.
Qed.

Lemma round2_diff_cents (a b : Z) : round2 ((a # 100) - (b # 100)) = (a - b) # 100.
Proof.
  rewrite (round2_comp _ ((a - b) # 100)); [apply round2_cents|].
  unfold Qeq, Qminus, Qplus, Qopp. cbn. lia.
Qed.

(** An amount rounded as a whole and rounded in two halves. *)
Lemma halves_within_one (y z : Q) :
  z == y / 2 ->
  (-1 <= round_half_even y - (round_half_even z + round_half_even z) <= 1)%Z.
Proof.
  intros E. pose proof (round_half_even_near y) as Hy.
  pose proof (round_half_even_near z) as Hz.
  set (a := round_half_even y) in *. set (b := round_half_even z) in *.
  assert (B : - (3 # 2) <= inject_Z (a - (b + b)) <= 3 # 2).
  { unfold Zminus. rewrite inject_Z_plus, inject_Z_opp, inject_Z_plus.
    assert (E' : y == 2 * z) by (rewrite E; field). lra. }
  destruct B as [B1 B2]. unfold Qle in B1, B2. cbn in B1, B2. lia.
Qed.

Lemma cents_within_one (a b : Z) :
  (-1 <= a - b <= 1)%Z -> Qabs ((a # 100) - (b # 100)) <= 1 # 100.
Proof.
  intros H. apply Qabs_Qle_condition.
  split; unfold Qle, Qminus, Qplus, Qopp; cbn; lia.
Qed.

(** The two sub-totals, the total and the net pay for one placement: the
    total is a number of cents [d], which is the sum of the two amounts
    rounded as a whole or rounded in two halves. *)
Lemma totals_of_split (place : str) (wa pa : Q) (sz : Z) :
  exists d : Z,
    round2 (round2 (fst (excel_split_amount place wa) + fst (excel_split_amount place pa))
            + round2 (snd (excel_split_amount place wa) + snd (excel_split_amount place pa)))
    = d # 100 /\
    round2 (fst (excel_split_amount place wa) + fst (excel_split_amount place pa))
    + round2 (snd (excel_split_amount place wa) + snd (excel_split_amount place pa))
    == d # 100 /\
    round2 ((sz # 100) - (d # 100)) = (sz - d) # 100 /\
    (d = round_half_even ((wa + pa) * 100) \/
     d = (round_half_even ((wa / 2 + pa / 2) * 100)
          + round_half_even ((wa / 2 + pa / 2) * 100))%Z).
Proof.
  assert (Z0 : round2 (0 + 0) = 0 # 100) by reflexivity.
  unfold excel_split_amount.
  destruct (str_eqb place (u "15")); [|destruct (str_eqb place (u "30"))]; cbn [fst snd].
  - exists (round_half_even ((wa + pa) * 100)). rewrite Z0.
    change (round2 (wa + pa)) with (round_half_even ((wa + pa) * 100) # 100).
    rewrite round2_sum_cents, Z.add_0_r.
    split; [reflexivity|]. split; [unfold Qeq, Qplus; cbn; lia|].
    split; [apply round2_diff_cents | left; reflexivity].
  - exists (round_half_even ((wa + pa) * 100)). rewrite Z0.
    change (round2 (wa + pa)) with (round_half_even ((wa + pa) * 100) # 100).
    rewrite round2_sum_cents, Z.add_0_l.
    split; [reflexivity|]. split; [unfold Qeq, Qplus; cbn; lia|].
    split; [apply round2_diff_cents | left; reflexivity].
  - exists (round_half_even ((wa / 2 + pa / 2) * 100)
            + round_half_even ((wa / 2 + pa / 2) * 100))%Z.
    change (round2 (wa / 2 + pa / 2))
      with (round_half_even ((wa / 2 + pa / 2) * 100) # 100).
    rewrite round2_sum_cents.
    split; [reflexivity|]. split; [unfold Qeq, Qplus; cbn; lia|].
    split; [apply round2_diff_cents | right; reflexivity].
Qed.

(** X17: in the Excel computation the rounding of the total deductions
    and of the net pay is exact (the total is the sum of the two rounded
    sub-totals, the net pay the sub-total less the total), and the choice
    of placement moves the total deductions and the net pay by one cent at
    most; the sub-total and the two amounts do not depend on it. *)
Theorem excel_placement_within_a_cent :
  forall (U : Unicode) (ps : list period) (e : employee) (pl1 pl2 : option str),
    let a := _excel_fill_template ps e pl1 in
    let b := _excel_fill_template ps e pl2 in
    (xl_total_ded a == xl_total_15 a + xl_total_30 a)%Q /\
    (xl_net_pay a == xl_sub_total a - xl_total_ded a)%Q /\
    xl_sub_total a = xl_sub_total b /\
    xl_w_amt a = xl_w_amt b /\ xl_p_amt a = xl_p_amt b /\
    (Qabs (xl_total_ded a - xl_total_ded b) <= 1 # 100)%Q /\
    (Qabs (xl_net_pay a - xl_net_pay b) <= 1 # 100)%Q.
Proof.
  intros U ps e pl1 pl2. unfold _excel_fill_template.
  set (sal := round2 (hourly_rate e * _)).
  set (wa := if Qeq_bool (withholding_amount e) 0 && _ then _ else _).
  set (pa := if Qeq_bool (percent_tax e) 0 && _ then _ else _).
  change (round2 (sal - adjustment_amount e))
    with (round_half_even ((sal - adjustment_amount e) * 100) # 100).
  set (sz := round_half_even ((sal - adjustment_amount e) * 100)).
  destruct (totals_of_split (lower (placement_or_both pl1)) wa pa sz)
    as [d1 [T1 [S1 [N1 C1]]]].
  destruct (totals_of_split (lower (placement_or_both pl2)) wa pa sz)
    as [d2 [T2 [S2 [N2 C2]]]].
  destruct (excel_split_amount (lower (placement_or_both pl1)) wa) as [w15 w30].
  destruct (excel_split_amount (lower (placement_or_both pl1)) pa) as [p15 p30].
  destruct (excel_split_amount (lower (placement_or_both pl2)) wa) as [w15' w30'].
  destruct (excel_split_amount (lower (placement_or_both pl2)) pa) as [p15' p30'].
  cbn [fst snd] in *.
  cbn beta iota zeta delta [xl_total_ded xl_total_15 xl_total_30 xl_net_pay
                            xl_sub_total xl_w_amt xl_p_amt].
  rewrite T1, T2, N1, N2.
  assert (D : (-1 <= d1 - d2 <= 1)%Z).
  { pose proof (halves_within_one ((wa + pa) * 100) ((wa / 2 + pa / 2) * 100)) as Hh.
    assert (E : ((wa / 2 + pa / 2) * 100 == (wa + pa) * 100 / 2)%Q) by field.
    specialize (Hh E).
    destruct C1 as [-> | ->], C2 as [-> | ->]; lia. }
  split; [rewrite S1; reflexivity|].
  split; [unfold Qeq, Qminus, Qplus, Qopp; cbn; lia|].
  split; [reflexivity|]. split; [reflexivity|]. split; [reflexivity|].
  split; apply cents_within_one; lia.
Qed.

Local Close Scope Q_scope.

(** ** The address book through a load *)

Section StoreThroughLoad.
Context `{U : Unicode}.

Ltac step_inv H x Hx :=
  apply bind_when_inv in H; destruct H as [x [Hx H]].

Lemma remember_from_employee_ok (st st' : EmailStore) (emp : employee)
  (addr : option str) :
  store_ok st -> remember_from_employee st emp addr = Ok st' -> store_ok st'.
Proof.
  unfold remember_from_employee. intros S0 H.
  destruct (_clean_email addr) as [ce|]; [|injection H as <-; exact S0].
  destruct (truthy ce); [|injection H as <-; exact S0].
  apply (upsert_ok _ _ _ _ _ _ _ S0 H).
Qed.

Lemma remember_employee_email_ok (store : option EmailStore) (emp : employee)
  (addr : str) :
  store_ok_opt store ->
  store_ok_opt (remember_employee_email store emp addr) /\
  (store = None -> remember_employee_email store emp addr = None).
Proof.
  unfold remember_employee_email. intros S0.
  destruct store as [st|]; [|split; [exact I | reflexivity]].
  split; [|discriminate].
  destruct (remember_from_employee st emp (Some addr)) as [st'|x] eqn:R; [|exact S0].
  apply (remember_from_employee_ok st st' emp (Some addr) S0 R).
Qed.

Lemma summary_block_store (hm : list (str * nat)) (row : list str)
  (e e' : employee) (store store' : option EmailStore) :
  summary_block hm row e store = Ok (e', store') ->
  store_ok_opt store ->
  store_ok_opt store' /\ (store = None -> store' = None).
Proof.
  intros H S0. unfold summary_block in H. cbv zeta in H.
  step_inv H e1 H1. step_inv H adj H2. step_inv H e2 H3. step_inv H en H4.
  step_inv H e5 H5. step_inv H e6 H6. step_inv H e7 H7. step_inv H e8 H8.
  step_inv H e9 H9. step_inv H e10 H10.
  destruct (find truthy [email e10; work_email e10; personal_email e10]) as [pe|];
    injection H as _ <-.
  - apply remember_employee_email_ok. exact S0.
  - split; [exact S0 | exact (fun x => x)].
Qed.

Lemma for_periods_store (headers : list str) (hm : list (str * nat))
  (row : list str) (ps : list period) :
  forall (e e' : employee) (store store' : option EmailStore),
    for_periods headers hm row ps (e, store) = Ok (e', store') ->
    store_ok_opt store ->
    store_ok_opt store' /\ (store = None -> store' = None).
Proof.
  induction ps as [|p ps IH]; intros e e' store store' H S0; cbn [for_periods] in H.
  - injection H as _ <-. split; [exact S0 | exact (fun x => x)].
  - apply bind_inv in H. destruct H as [[e1 s1] [H1 H]].
    assert (S1 : store_ok_opt s1 /\ (store = None -> s1 = None)).
    { unfold period_step in H1.
      destruct (column_index p <? List.length row).
      - apply bind_inv in H1. destruct H1 as [c [_ H1]].
        apply (summary_block_store _ _ _ _ _ _ H1 S0).
      - injection H1 as _ <-. split; [exact S0 | exact (fun x => x)]. }
    destruct S1 as [S1 N1]. destruct (IH _ _ _ _ H S1) as [S2 N2].
    split; [exact S2|]. intros X. apply N2. apply N1. exact X.
Qed.

Lemma for_rows_store_ok (headers : list str) (hm : list (str * nat))
  (cols : columns) (ps : list period) (rows : list (list str)) :
  forall (emps : list employee) (store : option EmailStore),
    store_ok_opt store ->
    store_ok_opt (snd (for_rows headers hm cols ps rows (emps, store))) /\
    (store = None -> snd (for_rows headers hm cols ps rows (emps, store)) = None).
Proof.
  induction rows as [|row rows IH]; intros emps store S0; cbn [for_rows].
  - split; [exact S0 | exact (fun x => x)].
  - destruct (is_data_row cols row); [|apply IH; exact S0].
    destruct (process_row headers hm cols ps row store) as [[e s]|x] eqn:H;
      [|apply IH; exact S0].
    assert (S1 : store_ok_opt s /\ (store = None -> s = None)).
    { unfold process_row in H.
      apply bind_inv in H. destruct H as [c [_ H]].
      apply bind_inv in H. destruct H as [a [_ H]].
      apply bind_inv in H. destruct H as [n [_ H]].
      apply bind_inv in H. destruct H as [r [_ H]].
      cbv zeta in H.
      step_inv H e1 H1. step_inv H e2 H2. step_inv H e3 H3.
      apply (for_periods_store _ _ _ _ _ _ _ _ H S0). }
    destruct S1 as [S1 N1]. destruct (IH (emps ++ [e]) s S1) as [S2 N2].
    split; [exact S2|]. intros X. apply N2. apply N1. exact X.
Qed.

End StoreThroughLoad.

(** X18: [load_employee_data] keeps the address book well-formed: if the
    table has distinct row ids, no key in two rows and no empty email
    before the load, it has so after it, whatever the file holds; and a
    processor without address book stays without one. *)
Theorem load_keeps_store_ok :
  forall (U : Unicode) (file : csv_file) (st : processor),
    store_ok_opt (self_email_store st) ->
    store_ok_opt (self_email_store (snd (load_employee_data file st))) /\
    (self_email_store st = None ->
     self_email_store (snd (load_employee_data file st)) = None).
Proof.
  intros U file st S0. unfold load_employee_data.
  destruct (load_loop encodings_to_try file (set_self_employees [] st))
    as [b st'] eqn:H.
  destruct (load_loop_outcome _ _ (set_self_employees [] st) _ _ eq_refl H)
    as [_ [F T]].
  cbv zeta in T. cbn [snd self_email_store set_self_employees] in *.
  destruct b.
  - destruct (T eq_refl) as [enc [rows [h [_ [_ [_ [E _]]]]]]]. rewrite E.
    apply for_rows_store_ok. exact S0.
  - rewrite (F eq_refl). split; [exact S0 | exact (fun x => x)].
Qed.

Lemma load_keeps_store_ok_witness :
  store_ok_opt
    (self_email_store (snd (@load_employee_data ascii_tables csv_one_period new_processor))).
Proof.
  apply (load_keeps_store_ok ascii_tables csv_one_period new_processor).
  unfold store_ok_opt, store_ok. cbn. repeat split; try constructor.
  intros r r' [].
Defined.

(** ** The address book: remembering twice *)

Lemma coalesce_idem (k x : option str) : coalesce k (coalesce k x) = coalesce k x.
Proof. destruct k; reflexivity. Qed.

Lemma upserted_idem (s a n d : option str) (e : str) (r : db_row) :
  upserted s a n d e (upserted s a n d e r) = upserted s a n d e r.
Proof. unfold upserted. cbn. rewrite !coalesce_idem. reflexivity. Qed.

Lemma upsert_twice (s a n d : option str) (email : str) (st st' : EmailStore) :
  store_ok st -> truthy email = true ->
  (exists c k v, column_of s a n c k /\ k = Some v /\ truthy v = true) ->
  _upsert s a n d email st = Ok st' -> _upsert s a n d email st' = Ok st'.
Proof.
  intros S0 T [c [k [v [Ck [Kv Tv]]]]] H.
  destruct (upsert_ok _ _ _ _ _ _ _ S0 H) as [[N' [B' [E' Q']]] _].
  destruct (upsert_shape _ _ _ _ _ _ _ H T) as [i [t1 [[r0 [I0 D0]] [Et _]]]].
  set (up := upserted s a n d email) in *.
  assert (Ii : In (up r0) (table st')).
  { rewrite Et. apply In_update_row. exists r0. split; [exact I0|].
    rewrite D0, Nat.eqb_refl. reflexivity. }
  assert (Up : forall c k, column_of s a n c k -> c (up r0) = coalesce k (c r0))
    by (intros; apply upserted_col; assumption).
  destruct (upsert_unfold s a n d email st' T) as [i2 [t1' [lr [H2 Cases]]]].
  rewrite H2. clear H2. fold up.
  destruct Cases as [[-> [c0 [k0 [rf [Ck0 [If [Df [Kf ->]]]]]]]]
                    | [rn [_ [_ [_ [Sel _]]]]]].
  2:{ exfalso. subst k. pose proof (Sel c (Some v) Ck) as S1.
      apply (select_id_None c v (table st') S1 Tv (up r0) Ii).
      rewrite (Up c (Some v) Ck). reflexivity. }
  assert (I2 : i2 = i).
  { rewrite <- Df, <- D0. symmetry. change (db_id r0) with (db_id (up r0)).
    apply Q'; [exact Ii | exact If |].
    apply (key_clash_col s a n). exists c0, k0. split; [exact Ck0|].
    apply key_given_iff in Kf. destruct Kf as [v0 [-> V0]].
    apply clash_iff. exists v0.
    split; [rewrite (Up c0 (Some v0) Ck0); reflexivity | exact V0]. }
  rewrite I2. clear I2 Df.
  assert (Same : update_row i up (table st') = table st').
  { unfold update_row. rewrite <- (map_id (table st')) at 2.
    apply map_ext_in. intros r Ir.
    destruct (db_id r =? i) eqn:X; [|reflexivity]. apply Nat.eqb_eq in X.
    rewrite Et in Ir.
    destruct (In_update_row_id i up t1 r (fun _ => eq_refl) Ir X) as [r1 [_ [_ ->]]].
    apply upserted_idem. }
  rewrite Same.
  assert (Chk : forallb (fun r => negb (db_id r =? i) || unique_ok (table st') r)
                  (table st') = true).
  { apply forallb_forall. intros r Ir. apply orb_true_iff. right.
    unfold unique_ok. apply forallb_forall. intros r' Ir'.
    change ((db_id r' =? db_id r) || negb (key_clash r r') = true).
    destruct (key_clash r r') eqn:K; [|apply orb_true_r].
    rewrite (Q' r r' Ir Ir' K), Nat.eqb_refl. reflexivity. }
  rewrite Chk. destruct st'; reflexivity.
Qed.

(** X19: on a well-formed table, remembering the same address for the
    same entry a second time changes nothing, provided the entry has a
    sequence number, an account number or a name; so the summary block,
    which remembers the primary email once for every period of a row,
    leaves the table as one call does. *)
Theorem remember_twice :
  forall (U : Unicode) (st st' : EmailStore) (emp : employee) (addr : str),
    store_ok st -> has_identity emp = true ->
    remember_from_employee st emp (Some addr) = Ok st' ->
    remember_from_employee st' emp (Some addr) = Ok st'.
Proof.
  intros U st st' emp addr S0 Id H. unfold remember_from_employee in *.
  rewrite _clean_email_Some in *.
  destruct (truthy (strip addr)) eqn:Te; [|injection H as <-; reflexivity].
  assert (Tl : truthy (lower (strip addr)) = true) by (rewrite lower_truthy; exact Te).
  rewrite Tl in *.
  apply (upsert_twice _ _ _ _ _ st st' S0 Tl); [|exact H].
  unfold has_identity in Id.
  destruct (truthy (strip (seq emp))) eqn:Ts.
  { exists db_seq, (_clean (Some (seq emp))), (strip (seq emp)).
    split; [left; split; reflexivity|].
    split; [rewrite _clean_Some, Ts; reflexivity | exact Ts]. }
  destruct (truthy (strip (account_no emp))) eqn:Ta.
  { exists db_account_no, (_clean (Some (account_no emp))), (strip (account_no emp)).
    split; [right; left; split; reflexivity|].
    split; [rewrite _clean_Some, Ta; reflexivity | exact Ta]. }
  cbn [orb] in Id.
  exists db_name_key, (_clean_lower (Some (name emp))), (lower (strip (name emp))).
  split; [right; right; split; reflexivity|].
  split; [rewrite _clean_lower_Some, Id; reflexivity | rewrite lower_truthy; exact Id].
Qed.

Lemma remember_twice_witness :
  @remember_from_employee ascii_tables
    (remembered two_addresses (identified (u "7") (u "") (u "Ann Lee")) (u " Ann@X.org "))
    (identified (u "7") (u "") (u "Ann Lee")) (Some (u " Ann@X.org "))
  = Ok (remembered two_addresses (identified (u "7") (u "") (u "Ann Lee"))
          (u " Ann@X.org ")).
Proof.
  apply (remember_twice ascii_tables two_addresses
           (remembered two_addresses (identified (u "7") (u "") (u "Ann Lee"))
              (u " Ann@X.org "))
           (identified (u "7") (u "") (u "Ann Lee")) (u " Ann@X.org ")
           two_addresses_ok);
    vm_compute; reflexivity.
Defined.

(** ** The address book as a dict *)

Lemma dict_get_set {V} (k k' : str) (v : V) (d : list (str * V)) :
  dict_get k (dict_set k' v d) = if str_eqb k' k then Some v else dict_get k d.
Proof.
  induction d as [|[k0 v0] d IH]; cbn [dict_set dict_get]; [reflexivity|].
  destruct (str_eqb k0 k') eqn:E0.
  - apply str_eqb_eq in E0. subst k0. cbn [dict_get].
    destruct (str_eqb k' k); reflexivity.
  - cbn [dict_get]. rewrite IH. destruct (str_eqb k0 k) eqn:E1; [|reflexivity].
    apply str_eqb_eq in E1. subst k0.
    destruct (str_eqb k' k) eqn:E2; [|reflexivity].
    apply str_eqb_eq in E2. subst k'.
    rewrite (proj2 (str_eqb_eq k k) eq_refl) in E0. discriminate E0.
Qed.

Lemma find_snoc {A} (f : A -> bool) (l : list A) (x : A) :
  find f (l ++ [x])
  = match find f l with
    | Some y => Some y
    | None => if f x then Some x else None
    end.
Proof.
  induction l as [|a l IH]; cbn [app find]; [reflexivity|].
  destruct (f a); [reflexivity | exact IH].
Qed.

Lemma to_dict_get (t : list db_row) :
  NoDup (List.map db_id t) ->
  (forall r, In r t -> truthy (db_email r) = true) ->
  (forall r r', In r t -> In r' t -> clash db_seq r r' = true -> db_id r = db_id r') ->
  forall k, truthy k = true ->
    dict_get k (fold_left to_dict_row t [])
    = option_map db_email (find (col_is db_seq k) t).
Proof.
  induction t as [|r t IH] using rev_ind; intros N E Q k Tk; [reflexivity|].
  rewrite fold_left_app, find_snoc. cbn [fold_left].
  rewrite map_app in N.
  assert (IH' : dict_get k (fold_left to_dict_row t [])
                = option_map db_email (find (col_is db_seq k) t)).
  { apply IH; try assumption.
    - apply (NoDup_app_remove_r _ _ N).
    - intros x I. apply E. apply in_or_app. left. exact I.
    - intros x x' I I'. apply Q; apply in_or_app; left; assumption. }
  assert (Er : truthy (db_email r) = true)
    by (apply E; apply in_or_app; right; left; reflexivity).
  set (data := fold_left to_dict_row t []) in *.
  unfold to_dict_row, col_is at 2.
  destruct (db_seq r) as [sq|] eqn:Sq.
  2:{ rewrite IH'. destruct (find (col_is db_seq k) t); reflexivity. }
  destruct (truthy sq) eqn:Ts.
  2:{ rewrite IH'. destruct sq; [|discriminate Ts].
      destruct k; [discriminate Tk|]. cbn [str_eqb].
      destruct (find (col_is db_seq (c :: k)) t); reflexivity. }
  rewrite Er. cbn [andb]. rewrite dict_get_set, IH'.
  destruct (str_eqb sq k) eqn:X.
  - apply str_eqb_eq in X. subst sq.
    destruct (find (col_is db_seq k) t) as [x|] eqn:F; [|reflexivity]. exfalso.
    apply find_some in F. destruct F as [Ix Cx].
    assert (D : db_id x = db_id r).
    { apply Q; [apply in_or_app; left; exact Ix
               | apply in_or_app; right; left; reflexivity |].
      unfold col_is in Cx. destruct (db_seq x) as [y|] eqn:Y; [|discriminate].
      apply str_eqb_eq in Cx. subst y. apply clash_iff. exists k. split; assumption. }
    apply NoDup_remove_2 in N. apply N. rewrite app_nil_r, <- D.
    apply in_map. exact Ix.
  - destruct (find (col_is db_seq k) t); reflexivity.
Qed.

(** X20: on a well-formed table [to_dict] agrees with [lookup] by
    sequence number: what the dict holds under a non-blank, trimmed
    sequence number is what [lookup] returns for it, and it holds nothing
    under it exactly when [lookup] finds nothing. *)
Theorem to_dict_lookup :
  forall (U : Unicode) (st : EmailStore) (v : str),
    store_ok st -> truthy (strip v) = true ->
    lookup st (Some v) None None = dict_get (strip v) (to_dict st).
Proof.
  intros U st v [N [_ [E Q]]] T. unfold lookup, to_dict.
  rewrite _clean_Some, T. cbn [_clean _clean_lower select_email]. rewrite T.
  rewrite Forall_forall in E.
  rewrite (to_dict_get (table st) N E); [|intros r r' I I' C|exact T].
  - destruct (option_map db_email (find (col_is db_seq (strip v)) (table st)));
      reflexivity.
  - apply Q; try assumption. unfold key_clash. rewrite C. reflexivity.
Qed.

Lemma to_dict_lookup_witness :
  @lookup ascii_tables two_addresses (Some (u " 2 ")) None None
  = dict_get (strip (u " 2 ")) (to_dict two_addresses).
Proof.
  apply (to_dict_lookup ascii_tables two_addresses (u " 2 ") two_addresses_ok).
  vm_compute. reflexivity.
Defined.

(** ** File names *)

Lemma uint_digits_plain (d : Decimal.uint) : forallb plain_char (uint_digits d) = true.
Proof. induction d; cbn [uint_digits forallb]; try rewrite IHd; reflexivity. Qed.

Lemma format_03d_plain (n : N) : forallb plain_char (format_03d n) = true.
Proof.
  unfold format_03d. cbv zeta. rewrite forallb_app, uint_digits_plain, andb_true_r.
  induction (3 - List.length (uint_digits (N.to_uint n))) as [|k IH]; [reflexivity|].
  cbn [repeat forallb]. rewrite IH. reflexivity.
Qed.

Lemma In_rstrip (c : char) (s : str) : In c (rstrip s) -> In c s.
Proof.
  unfold rstrip. intros I. apply in_rev in I. apply In_lstrip in I.
  apply in_rev in I. exact I.
Qed.

(** X21: the file name built for a payslip is [payslip_], the sequence
    number in at least three digits, an underscore and the cleaned name,
    followed by the dot and the extension; in front of that dot it holds no
    dot, no slash, no backslash and no space, whatever the name of the
    entry is, so it names a file of the output directory itself.  For an
    entry whose sequence number is written in ASCII digits the name is
    built without error. *)
Theorem payslip_filename_plain :
  forall (U : Unicode) (isalnum : char -> bool) (py_int : str -> result N)
         (e : employee) (ext : str),
    isalnum 46%N = false -> isalnum 47%N = false -> isalnum 92%N = false ->
    (forall s, truthy s = true -> forallb is_09 s = true ->
               py_int s = Ok (digits_val s)) ->
    (forall f, payslip_filename isalnum py_int e ext = Ok f ->
       exists stem, f = stem ++ u "." ++ ext /\ forallb plain_char stem = true) /\
    (forallb is_09 (seq e) = true ->
     exists f, payslip_filename isalnum py_int e ext = Ok f).
Proof.
  intros U isalnum py_int e ext A46 A47 A92 Int. split.
  - intros f H. unfold payslip_filename in H. cbv zeta in H.
    apply bind_inv in H. destruct H as [n [_ H]]. injection H as <-.
    exists (u "payslip_" ++ format_03d n ++ u "_"
            ++ replace_chr c_space [95%N] (clean_name isalnum (name e))).
    split; [rewrite <- !app_assoc; reflexivity|].
    rewrite !forallb_app, format_03d_plain.
    change (forallb plain_char (u "payslip_")) with true.
    change (forallb plain_char (u "_")) with true. cbn [andb].
    apply forallb_forall. intros c I.
    apply In_replace_chr in I. destruct I as [[I Ns] | [-> _]]; [|reflexivity].
    unfold clean_name in I. apply In_rstrip in I. apply filter_In in I.
    destruct I as [_ K]. unfold plain_char. apply negb_true_iff.
    destruct (N.eqb_spec c 46) as [-> | _];
      [rewrite A46 in K; discriminate K|].
    destruct (N.eqb_spec c 47) as [-> | _];
      [rewrite A47 in K; discriminate K|].
    destruct (N.eqb_spec c 92) as [-> | _];
      [rewrite A92 in K; discriminate K|].
    cbn [orb]. apply N.eqb_neq. exact Ns.
  - intros D. unfold payslip_filename. cbv zeta.
    destruct (isdigit (seq e)) eqn:X; [|eexists; reflexivity].
    unfold isdigit in X. apply andb_true_iff in X. destruct X as [T _].
    rewrite (Int (seq e) T D). eexists. reflexivity.
Qed.

Lemma payslip_filename_plain_witness :
  (forall f,
     @payslip_filename ascii_tables ascii_isalnum ascii_int
       (identified (u "7") (u "") (u "Ann  Lee/../x ")) (u "pdf") = Ok f ->
     exists stem, f = stem ++ u "." ++ u "pdf" /\ forallb plain_char stem = true) /\
  @payslip_filename ascii_tables ascii_isalnum ascii_int
    (identified (u "7") (u "") (u "Ann  Lee/../x ")) (u "pdf")
  = Ok (u "payslip_007_Ann__Leex.pdf").
Proof.
  destruct (payslip_filename_plain ascii_tables ascii_isalnum ascii_int
              (identified (u "7") (u "") (u "Ann  Lee/../x ")) (u "pdf"))
    as [P _]; try reflexivity.
  split; [exact P | vm_compute; reflexivity].
Defined.

(** ** The legacy file of addresses *)

(** X22: [import_from_csv] keeps the table well-formed; it deletes no row
    and adds at most one row for each row of the file, none when the file
    does not exist. *)
Theorem import_keeps_store_ok :
  forall (U : Unicode) (file : option (list csv_row)) (st st' : EmailStore),
    store_ok st ->
    import_from_csv file st = Ok st' ->
    store_ok st' /\
    List.length (table st) <= List.length (table st') /\
    List.length (table st')
    <= List.length (table st)
       + match file with Some rows => List.length rows | None => 0 end.
Proof.
  intros U file st st' S0 H. destruct file as [rows|]; cbn [import_from_csv] in H.
  2:{ injection H as <-. split; [exact S0 | lia]. }
  revert st S0 H. induction rows as [|row rows IH]; intros st S0 H;
    cbn [import_rows] in H.
  - injection H as <-. split; [exact S0 | cbn; lia].
  - apply bind_inv in H. destruct H as [st1 [H1 H]].
    assert (S1 : store_ok st1 /\
                 List.length (table st) <= List.length (table st1)
                 <= S (List.length (table st))).
    { unfold import_row in H1.
      destruct (_clean_email (csv_email row)) as [ce|];
        [|injection H1 as <-; split; [exact S0 | lia]].
      destruct (truthy ce); [|injection H1 as <-; split; [exact S0 | lia]].
      destruct (upsert_ok _ _ _ _ _ _ _ S0 H1) as [S1 [_ [l [E L]]]].
      split; [exact S1|].
      apply (f_equal (@List.length nat)) in E.
      rewrite length_app, !length_map in E. lia. }
    destruct S1 as [S1 L1]. destruct (IH st1 S1 H) as [S2 L2].
    split; [exact S2|]. cbn [List.length]. lia.
Qed.

Lemma import_keeps_store_ok_witness :
  store_ok (imported two_csv_rows two_addresses) /\
  List.length (table two_addresses)
  <= List.length (table (imported two_csv_rows two_addresses)) /\
  List.length (table (imported two_csv_rows two_addresses))
  <= List.length (table two_addresses) + List.length two_csv_rows.
Proof.
  apply (import_keeps_store_ok ascii_tables (Some two_csv_rows) two_addresses
           (imported two_csv_rows two_addresses) two_addresses_ok).
  vm_compute. reflexivity.
Defined.

(** ** Loading after the periods were detected *)

Section Detected.
Context `{U : Unicode}.

Lemma load_loop_keeps_periods (encs : list encoding) (file : csv_file) :
  forall st : processor,
    self_periods st <> [] ->
    self_periods (snd (load_loop encs file st)) = self_periods st /\
    self_merged_headers (snd (load_loop encs file st)) = self_merged_headers st.
Proof.
  induction encs as [|enc encs IH]; intros st P; cbn [load_loop].
  - split; reflexivity.
  - destruct (file enc) as [rows|]; [|apply IH; exact P].
    unfold load_body. destruct (find_per_hour rows 0) as [h|].
    + unfold load_with_header. cbv zeta.
      destruct (self_periods st) as [|p ps] eqn:E; [destruct P; reflexivity|].
      rewrite E.
      destruct (for_rows _ _ _ (p :: ps) _ _) as [es store].
      destruct es as [|e es].
      * match goal with
        | |- context [load_loop encs file ?x] =>
            destruct (IH x) as [A B];
            [cbn; rewrite E; discriminate|]; rewrite A, B
        end.
        cbn. rewrite E. split; reflexivity.
      * cbn [snd]. unfold _attach_persistent_emails.
        cbn [self_email_store set_self_email_store set_self_employees].
        destruct store; cbn; rewrite E; split; reflexivity.
    + destruct (load_fallback rows) as [[|]|x];
        [split; reflexivity | apply IH; exact P | apply IH; exact P].
Qed.

End Detected.

(** X23: once periods are set, as they are when [detect_periods] has
    returned [True], [load_employee_data] changes neither the periods nor
    the merged headers: it looks for period headers itself only when the
    processor holds no period. *)
Theorem load_keeps_detected_periods :
  forall (U : Unicode) (file : csv_file) (st : processor),
    self_periods st <> [] ->
    self_periods (snd (load_employee_data file st)) = self_periods st /\
    self_merged_headers (snd (load_employee_data file st)) = self_merged_headers st.
Proof.
  intros U file st P. unfold load_employee_data.
  apply (load_loop_keeps_periods encodings_to_try file (set_self_employees [] st)).
  exact P.
Qed.

Lemma load_keeps_detected_periods_witness :
  self_periods (snd (@load_employee_data ascii_tables csv_two_periods
                       (snd (detect_result csv_two_periods))))
  = self_periods (snd (detect_result csv_two_periods)) /\
  self_merged_headers (snd (@load_employee_data ascii_tables csv_two_periods
                              (snd (detect_result csv_two_periods))))
  = self_merged_headers (snd (detect_result csv_two_periods)).
Proof.
  apply (load_keeps_detected_periods ascii_tables csv_two_periods
           (snd (detect_result csv_two_periods))).
  vm_compute. discriminate.
Defined.
